(** * typegraphql-prisma: the input-type renderer and the emission pipeline

    A shallow embedding of
      - [src/generator/type-class.ts]  (generateInputTypeText,
        generateInputTypeClassFromType),
      - the input block generator      (InputBlockGenerator.generate),
      - [generate-code.ts]             (CodeGenerator.generate,
        CodeGenerator.fastEmitTranspiledCode),
    followed by the properties of the specification that concern them.

    Conventions.  A JavaScript string is a [string]: a sequence of code
    units, compared unit by unit as [Array.prototype.sort] does without a
    comparator.  An array is a [list]; [a.push(x)] is [push a x].  An optional
    property ([T | undefined]) is an [option].  Code that logs, emits metrics,
    stages or writes files, or throws runs in the monad [Eff.M] over an
    explicit [World]; what the world outside answers (worker exit codes, the
    formatter's result, the number of processors) is read from an [Env]. *)

From Stdlib Require Import String Ascii List Bool Arith PeanoNat ZArith Lia.
From Stdlib Require Import Sorting.Sorted Permutation OrderedTypeEx.
Import ListNotations.
Local Open Scope list_scope.
Local Open Scope string_scope.

(* ===================================================================== *)
(** ** JavaScript built-ins used by the sources *)
(* ===================================================================== *)

Module JS.

Definition dq : string := String (ascii_of_nat 34) EmptyString.
Definition nl : string := String (ascii_of_nat 10) EmptyString.

(** A double-quoted string inside a template literal. *)
Definition quoted (s : string) : string := dq ++ s ++ dq.

(** [arr.push(x)] *)
Definition push {A : Type} (arr : list A) (x : A) : list A := (arr ++ [x])%list.

(** [arr.join(sep)] *)
Definition join (sep : string) (arr : list string) : string :=
  String.concat sep arr.

(** [x ?? d] *)
Definition nullish {A : Type} (x : option A) (d : A) : A :=
  match x with
  | Some v => v
  | None => d
  end.

(** Truthiness of an optional boolean property. *)
Definition truthy (x : option bool) : bool :=
  match x with
  | Some b => b
  | None => false
  end.

(** [`${b}`] for a boolean. *)
Definition string_of_bool (b : bool) : string :=
  if b then "true" else "false".

(** [s.includes(needle)] *)
Fixpoint includes (s needle : string) : bool :=
  if String.prefix needle s then true
  else match s with
       | EmptyString => false
       | String _ s' => includes s' needle
       end.

(** [arr.some(p)] *)
Definition some {A : Type} (p : A -> bool) (arr : list A) : bool :=
  existsb p arr.

(** [new Set(arr)] spread back into an array: the distinct elements in the
    order of their first insertion. *)
Fixpoint setAdd (seen arr : list string) : list string :=
  match arr with
  | [] => seen
  | x :: arr' =>
      if existsb (String.eqb x) seen then setAdd seen arr'
      else setAdd (push seen x) arr'
  end.

Definition newSet (arr : list string) : list string := setAdd [] arr.

(** [arr.sort()] with no comparator: a stable sort by the code-unit order of
    the strings.  The result of a stable sort is determined by the order, so
    an insertion sort stands for the engine's algorithm. *)
Fixpoint sortInsert (x : string) (sorted : list string) : list string :=
  match sorted with
  | [] => [x]
  | y :: rest =>
      if String.leb x y then x :: y :: rest else y :: sortInsert x rest
  end.

Fixpoint sort (arr : list string) : list string :=
  match arr with
  | [] => []
  | x :: arr' => sortInsert x (sort arr')
  end.

(** Decimal rendering of an integer in a template literal. *)
Fixpoint digitsOf (fuel n : nat) (acc : string) : string :=
  match fuel with
  | O => acc
  | S fuel' =>
      let d := String (ascii_of_nat (48 + n mod 10)) EmptyString in
      if (n <? 10)%nat then d ++ acc else digitsOf fuel' (n / 10) (d ++ acc)
  end.

Definition string_of_nat (n : nat) : string := digitsOf (S n) n EmptyString.

Definition string_of_Z (z : Z) : string :=
  if (z <? 0)%Z then "-" ++ string_of_nat (Z.to_nat (- z))
  else string_of_nat (Z.to_nat z).

End JS.

(* ===================================================================== *)
(** ** Node's [path] module (POSIX flavour) *)
(* ===================================================================== *)

Module Path.

Definition slash : ascii := ascii_of_nat 47.

(** [s.split("/")] *)
Fixpoint splitSlash (s : string) : list string :=
  match s with
  | EmptyString => [EmptyString]
  | String c s' =>
      if Ascii.eqb c slash then EmptyString :: splitSlash s'
      else match splitSlash s' with
           | [] => [String c EmptyString]
           | seg :: segs => String c seg :: segs
           end
  end.

Definition isEmpty (s : string) : bool :=
  match s with
  | EmptyString => true
  | _ => false
  end.

(** One step of [normalizeString]: empty and ["."] segments are dropped,
    [".."] removes the last kept segment unless there is none or it is
    [".."] itself, in which case it is kept when [allowAboveRoot]. *)
Definition normalizeStep (allowAboveRoot : bool) (res : list string)
  (seg : string) : list string :=
  if isEmpty seg || String.eqb seg "." then res
  else if String.eqb seg ".." then
    match rev res with
    | [] => if allowAboveRoot then [".."] else []
    | last :: _ =>
        if String.eqb last ".." then
          (if allowAboveRoot then (res ++ [".."])%list else res)
        else removelast res
    end
  else (res ++ [seg])%list.

Definition normalizeString (path : string) (allowAboveRoot : bool) : string :=
  JS.join "/" (fold_left (normalizeStep allowAboveRoot) (splitSlash path) []).

Definition startsWithSlash (s : string) : bool :=
  match s with
  | String c _ => Ascii.eqb c slash
  | EmptyString => false
  end.

Fixpoint endsWithSlash (s : string) : bool :=
  match s with
  | EmptyString => false
  | String c EmptyString => Ascii.eqb c slash
  | String _ s' => endsWithSlash s'
  end.

(** [path.posix.normalize] *)
Definition normalize (path : string) : string :=
  if isEmpty path then "."
  else
    let isAbsolute := startsWithSlash path in
    let trailingSeparator := endsWithSlash path in
    let p := normalizeString path (negb isAbsolute) in
    if isEmpty p then
      (if isAbsolute then "/" else if trailingSeparator then "./" else ".")
    else
      let p := if trailingSeparator then p ++ "/" else p in
      if isAbsolute then "/" ++ p else p.

(** [path.posix.join(...args)] *)
Definition join (args : list string) : string :=
  match filter (fun a => negb (isEmpty a)) args with
  | [] => "."
  | parts => normalize (JS.join "/" parts)
  end.

(** [path.resolve(...args)]: the arguments are taken from the right until an
    absolute one is met; the working directory [cwd] closes the search. *)
Fixpoint resolveFrom (args : list string) (resolvedPath : string)
  : string * bool :=
  match args with
  | [] => (resolvedPath, false)
  | path :: args' =>
      if isEmpty path then resolveFrom args' resolvedPath
      else
        let resolvedPath := path ++ "/" ++ resolvedPath in
        if startsWithSlash path then (resolvedPath, true)
        else resolveFrom args' resolvedPath
  end.

Definition resolve (cwd : string) (args : list string) : string :=
  let '(resolvedPath, resolvedAbsolute) :=
    resolveFrom (rev args ++ [cwd])%list EmptyString in
  let p := normalizeString resolvedPath (negb resolvedAbsolute) in
  if resolvedAbsolute then "/" ++ p
  else if isEmpty p then "." else p.

End Path.

(* ===================================================================== *)
(** ** The enriched schema document ([dmmf/types], as far as it is read) *)
(* ===================================================================== *)

Module DMMF.

Inductive FieldLocation : Type :=
| scalar
| inputObjectTypes
| outputObjectTypes
| enumTypes
| fieldRefTypes.

Definition isInputObjectTypes (l : FieldLocation) : bool :=
  match l with
  | inputObjectTypes => true
  | _ => false
  end.

Definition isEnumTypes (l : FieldLocation) : bool :=
  match l with
  | enumTypes => true
  | _ => false
  end.

(** The resolved target-type descriptor of a field. *)
Record TypeInfo : Type := mkTypeInfo {
  location : FieldLocation;
  type : string
}.

(** A field of an input type.  [name] is the storage name, [typeName] the
    exposed one. *)
Module Field.
Record t : Type := mk {
  name : string;
  typeName : string;
  selectedInputType : TypeInfo;
  isRequired : bool;
  isOmitted : bool;
  hasMappedName : bool;
  fieldTSType : string;
  typeGraphQLType : string
}.
End Field.

Module InputType.
Record t : Type := mk {
  typeName : string;
  fields : list Field.t
}.
End InputType.

End DMMF.

(* ===================================================================== *)
(** ** Generator options ([options.ts], as far as they are read) *)
(* ===================================================================== *)

Module Options.

Inductive Formatter : Type := prettier | tsc | biome.

(** [formatGeneratedCode] as the caller gives it: a boolean or a tool. *)
Inductive FormatOption : Type :=
| formatBool (b : bool)
| formatWith (f : Formatter).

(** [InternalGeneratorOptions & ExternalGeneratorOptions] *)
Record BaseOptions : Type := mkBase {
  baseOutputDirPath : string;
  basePrismaClientPath : string;
  baseEmitTranspiledCode : option bool;
  baseEmitOnly : option (list string);
  baseContextPrismaKey : option string;
  baseCustomPrismaImportPath : option string;
  baseFormatGeneratedCode : option FormatOption;
  baseEmitIsAbstract : option bool
}.

(** [GeneratorOptions] *)
Record GeneratorOptions : Type := mk {
  outputDirPath : string;
  prismaClientPath : string;
  emitTranspiledCode : option bool;
  blocksToEmit : list string;
  contextPrismaKey : string;
  customPrismaImportPath : option string;
  relativePrismaOutputPath : string;
  absolutePrismaOutputPath : option string;
  formatGeneratedCode : option Formatter;
  emitIsAbstract : option bool
}.

End Options.

(* ===================================================================== *)
(** ** [type-class.ts] *)
(* ===================================================================== *)

Module TypeClass.
Import JS DMMF.

Definition indent : string := "    ".
Definition indent2 : string := "        ".

(** [options.customPrismaImportPath ?? path.posix.join(relative, "client")],
    then [options.absolutePrismaOutputPath ?? path.posix.join("..","..",_)]. *)
Definition prismaModuleSpecifier (options : Options.GeneratorOptions) : string :=
  let prismaImportPath :=
    nullish (Options.customPrismaImportPath options)
      (Path.join [Options.relativePrismaOutputPath options; "client"]) in
  nullish (Options.absolutePrismaOutputPath options)
    (Path.join [".."; ".."; prismaImportPath]).

Definition hasBytes (inputType : InputType.t) : bool :=
  some (fun field => String.eqb (type (Field.selectedInputType field)) "Bytes")
    (InputType.fields inputType).

Definition scalarsPath : string := Path.join [".."; ".."; "scalars"].

Definition inputTypeImports (inputType : InputType.t) : list string :=
  sort (newSet
    (filter (fun fieldType => negb (String.eqb fieldType (InputType.typeName inputType)))
      (map (fun field => type (Field.selectedInputType field))
        (filter (fun field => isInputObjectTypes (location (Field.selectedInputType field)))
          (InputType.fields inputType))))).

Definition enumImports (inputType : InputType.t) : list string :=
  sort (newSet
    (map (fun fieldType => type fieldType)
      (filter (fun fieldType => isEnumTypes (location fieldType))
        (map (fun field => Field.selectedInputType field)
          (InputType.fields inputType))))).

Definition inputImportLine (importName : string) : string :=
  "import { " ++ importName ++ " } from "
    ++ quoted (Path.join [".."; "inputs"; importName]) ++ ";".

Definition enumImportLine (enumName : string) : string :=
  "import { " ++ enumName ++ " } from "
    ++ quoted (Path.join [".."; ".."; "enums"; enumName]) ++ ";".

(** [for (const x of xs) lines.push(line(x))] *)
Definition pushEach (line : string -> string) (xs : list string)
  (lines : list string) : list string :=
  fold_left (fun lines x => push lines (line x)) xs lines.

Definition fieldDecoratorLine (field : Field.t) : string :=
  indent ++ "@TypeGraphQL.Field(_type => " ++ Field.typeGraphQLType field
    ++ ", { nullable: " ++ string_of_bool (negb (Field.isRequired field)) ++ " })".

Definition propertyLine (field : Field.t) : string :=
  if Field.isRequired field
  then indent ++ Field.name field ++ "!: " ++ Field.fieldTSType field ++ ";"
  else indent ++ Field.name field ++ "?: " ++ Field.fieldTSType field ++ ";".

(** The first loop of the class body, at index [i] with [rest] still to do;
    [n] and [m] are [fieldsToEmit.length] and [mappedFields.length]. *)
Fixpoint fieldLoop (n m i : nat) (rest : list Field.t) (lines : list string)
  : list string :=
  match rest with
  | [] => lines
  | field :: rest' =>
      let isLast := ((i =? n - 1)%nat && (m =? 0)%nat)%bool in
      let lines :=
        if Field.hasMappedName field then push lines (propertyLine field)
        else push (push lines (fieldDecoratorLine field)) (propertyLine field) in
      let lines := if negb isLast then push lines EmptyString else lines in
      fieldLoop n m (S i) rest' lines
  end.

Definition getterHeadLine (field : Field.t) : string :=
  indent ++ "get " ++ Field.typeName field ++ "() {".

Definition getterBodyLine (field : Field.t) : string :=
  indent2 ++ "return this." ++ Field.name field ++ ";".

Definition setterHeadLine (field : Field.t) : string :=
  indent ++ "set " ++ Field.typeName field ++ "(" ++ Field.name field ++ ": "
    ++ Field.fieldTSType field ++ ") {".

Definition setterBodyLine (field : Field.t) : string :=
  indent2 ++ "this." ++ Field.name field ++ " = " ++ Field.name field ++ ";".

Definition closeBrace : string := indent ++ "}".

(** The second loop: the accessor pairs of the mapped fields. *)
Fixpoint mappedLoop (m i : nat) (rest : list Field.t) (lines : list string)
  : list string :=
  match rest with
  | [] => lines
  | field :: rest' =>
      let isLastMapped := (i =? m - 1)%nat in
      let lines := push lines (fieldDecoratorLine field) in
      let lines := push lines (getterHeadLine field) in
      let lines := push lines (getterBodyLine field) in
      let lines := push lines closeBrace in
      let lines := push lines EmptyString in
      let lines := push lines (setterHeadLine field) in
      let lines := push lines (setterBodyLine field) in
      let lines := push lines closeBrace in
      let lines := if negb isLastMapped then push lines EmptyString else lines in
      mappedLoop m (S i) rest' lines
  end.

Definition fieldsToEmit (inputType : InputType.t) : list Field.t :=
  filter (fun field => negb (Field.isOmitted field)) (InputType.fields inputType).

Definition mappedFields (inputType : InputType.t) : list Field.t :=
  filter (fun field => Field.hasMappedName field) (fieldsToEmit inputType).

Definition scalarsImportLine (inputType : InputType.t) : string :=
  if hasBytes inputType
  then "import { DecimalJSScalar, BytesScalar } from " ++ quoted scalarsPath ++ ";"
  else "import { DecimalJSScalar } from " ++ quoted scalarsPath ++ ";".

Definition classDecoratorLine (inputType : InputType.t)
  (options : Options.GeneratorOptions) : string :=
  let decoratorOptions :=
    if truthy (Options.emitIsAbstract options) then "{ isAbstract: true }" else "{}" in
  "@TypeGraphQL.InputType(" ++ quoted (InputType.typeName inputType) ++ ", "
    ++ decoratorOptions ++ ")".

Definition classHeadLine (inputType : InputType.t) : string :=
  "export class " ++ InputType.typeName inputType ++ " {".

(** The array [lines] of [generateInputTypeText] just before the final
    [join]. *)
Definition generateInputTypeLines (inputType : InputType.t)
  (options : Options.GeneratorOptions) : list string :=
  let lines : list string := [] in
  let lines := push lines ("import * as TypeGraphQL from " ++ quoted "type-graphql" ++ ";") in
  let lines := push lines ("import * as GraphQLScalars from " ++ quoted "graphql-scalars" ++ ";") in
  let lines := push lines ("import { Prisma } from " ++ quoted (prismaModuleSpecifier options) ++ ";") in
  let lines := push lines (scalarsImportLine inputType) in
  let lines := pushEach inputImportLine (inputTypeImports inputType) lines in
  let lines := pushEach enumImportLine (enumImports inputType) lines in
  let lines := push lines EmptyString in
  let lines := push lines (classDecoratorLine inputType options) in
  let lines := push lines (classHeadLine inputType) in
  let fieldsToEmit := fieldsToEmit inputType in
  let mappedFields := mappedFields inputType in
  let lines := fieldLoop (length fieldsToEmit) (length mappedFields) 0 fieldsToEmit lines in
  let lines := mappedLoop (length mappedFields) 0 mappedFields lines in
  let lines := push lines "}" in
  let lines := push lines EmptyString in
  lines.

Definition generateInputTypeText (inputType : InputType.t)
  (options : Options.GeneratorOptions) : string :=
  join nl (generateInputTypeLines inputType options).

(** *** [generateInputTypeClassFromType]

    The function stages a ts-morph source file.  The import helpers of
    [./imports] are not part of the sources at hand, so the staged file
    records the arguments that depend on the type, with which
    [generateCustomScalarsImport], [generateInputsImports] and
    [generateEnumsImports] are called; the class is the structure handed to
    [sourceFile.addClass]. *)

Record Decorator : Type := mkDecorator {
  decoratorName : string;
  decoratorArguments : list string
}.

Record ParameterDeclaration : Type := mkParameter {
  parameterName : string;
  parameterType : string
}.

Record PropertyDeclaration : Type := mkProperty {
  propertyName : string;
  propertyType : string;
  propertyHasExclamationToken : bool;
  propertyHasQuestionToken : bool;
  propertyTrailingTrivia : string;
  propertyDecorators : list Decorator
}.

Record GetAccessorDeclaration : Type := mkGetAccessor {
  getterName : string;
  getterType : string;
  getterHasExclamationToken : bool;
  getterHasQuestionToken : bool;
  getterTrailingTrivia : string;
  getterStatements : list string;
  getterDecorators : list Decorator
}.

Record SetAccessorDeclaration : Type := mkSetAccessor {
  setterName : string;
  setterType : string;
  setterHasExclamationToken : bool;
  setterHasQuestionToken : bool;
  setterTrailingTrivia : string;
  setterParameters : list ParameterDeclaration;
  setterStatements : list string
}.

Record ClassDeclaration : Type := mkClass {
  className : string;
  classIsExported : bool;
  classDecorators : list Decorator;
  classProperties : list PropertyDeclaration;
  classGetAccessors : list GetAccessorDeclaration;
  classSetAccessors : list SetAccessorDeclaration
}.

Record InputTypeSourceFile : Type := mkSourceFile {
  sourceFilePath : string;
  customScalarsImportHasBytes : bool;
  inputsImportsArgument : list string;
  enumsImportsArgument : list string;
  sourceFileClass : ClassDeclaration
}.

Definition crlf : string :=
  String (ascii_of_nat 13) (String (ascii_of_nat 10) EmptyString).

Definition fieldDecorator (field : Field.t) : Decorator :=
  mkDecorator "TypeGraphQL.Field"
    [ "_type => " ++ Field.typeGraphQLType field;
      "{ nullable: " ++ string_of_bool (negb (Field.isRequired field)) ++ " }" ].

Definition propertyOf (field : Field.t) : PropertyDeclaration :=
  mkProperty (Field.name field) (Field.fieldTSType field)
    (Field.isRequired field) (negb (Field.isRequired field)) crlf
    (if Field.hasMappedName field then [] else [fieldDecorator field]).

Definition getAccessorOf (field : Field.t) : GetAccessorDeclaration :=
  mkGetAccessor (Field.typeName field) (Field.fieldTSType field)
    (Field.isRequired field) (negb (Field.isRequired field)) crlf
    [ "return this." ++ Field.name field ++ ";" ]
    [ fieldDecorator field ].

Definition setAccessorOf (field : Field.t) : SetAccessorDeclaration :=
  mkSetAccessor (Field.typeName field) (Field.fieldTSType field)
    (Field.isRequired field) (negb (Field.isRequired field)) crlf
    [ mkParameter (Field.name field) (Field.fieldTSType field) ]
    [ "this." ++ Field.name field ++ " = " ++ Field.name field ++ ";" ].

(** Modelled from the spec: [inputsFolderName] of [./config], which is not
    among the sources at hand.  The directory convention has one subdirectory
    per block kind; the import paths of [generateInputTypeText] name this one
    [inputs]. *)
Definition inputsFolderName : string := "inputs".

(** Modelled from the spec: [resolversFolderName] of [./config], which is
    not among the sources at hand; the convention nests directories under
    [resolvers]. *)
Definition resolversFolderName : string := "resolvers".

Definition generateInputTypeClassFromType (cwd dirPath : string)
  (inputType : InputType.t) (options : Options.GeneratorOptions)
  : InputTypeSourceFile :=
  let filePath :=
    Path.resolve cwd
      [dirPath; inputsFolderName; InputType.typeName inputType ++ ".ts"] in
  let fieldsToEmit := fieldsToEmit inputType in
  let mappedFields := mappedFields inputType in
  mkSourceFile filePath
    (some (fun field => String.eqb (type (Field.selectedInputType field)) "Bytes")
       (InputType.fields inputType))
    (filter (fun fieldType => negb (String.eqb fieldType (InputType.typeName inputType)))
      (map (fun field => type (Field.selectedInputType field))
        (filter (fun field => isInputObjectTypes (location (Field.selectedInputType field)))
          (InputType.fields inputType))))
    (map (fun fieldType => type fieldType)
      (filter (fun fieldType => isEnumTypes (location fieldType))
        (map (fun field => Field.selectedInputType field)
          (InputType.fields inputType))))
    (mkClass (InputType.typeName inputType) true
      [ mkDecorator "TypeGraphQL.InputType"
          [ quoted (InputType.typeName inputType);
            if truthy (Options.emitIsAbstract options)
            then "{ isAbstract: true }" else "{}" ] ]
      (map propertyOf fieldsToEmit)
      (map getAccessorOf mappedFields)
      (map setAccessorOf mappedFields)).

End TypeClass.

(* ===================================================================== *)
(** ** Effects: a state-and-exception monad over the world *)
(* ===================================================================== *)

Module Eff.

(** How a call ends: it returns, it throws an [Error] (of which the message
    is kept), or it never returns. *)
Inductive Result (A : Type) : Type :=
| Ok (a : A)
| Throw (e : string)
| Hang.

Arguments Ok {A} a.
Arguments Throw {A} e.
Arguments Hang {A}.

Definition M (W A : Type) : Type := W -> Result A * W.

Definition ret {W A : Type} (a : A) : M W A := fun w => (Ok a, w).

Definition bind {W A B : Type} (m : M W A) (k : A -> M W B) : M W B :=
  fun w =>
    match m w with
    | (Ok a, w') => k a w'
    | (Throw e, w') => (Throw e, w')
    | (Hang, w') => (Hang, w')
    end.

Definition throw {W A : Type} (e : string) : M W A := fun w => (Throw e, w).

Definition hang {W A : Type} : M W A := fun w => (Hang, w).

(** [try { m } catch (error) { handler(error) }] *)
Definition tryCatch {W A : Type} (m : M W A) (handler : string -> M W A)
  : M W A :=
  fun w =>
    match m w with
    | (Throw e, w') => handler e w'
    | r => r
    end.

(** An operation of the outside world that fails when the environment says
    so. *)
Definition failWhen {W : Type} (e : option string) : M W unit :=
  match e with
  | Some msg => throw msg
  | None => ret tt
  end.

Definition modify {W : Type} (f : W -> W) : M W unit := fun w => (Ok tt, f w).

Definition when {W : Type} (b : bool) (m : M W unit) : M W unit :=
  if b then m else ret tt.

(** [for (const x of xs) body(x)] *)
Fixpoint forEach {W A : Type} (xs : list A) (body : A -> M W unit) : M W unit :=
  match xs with
  | [] => ret tt
  | x :: xs' => bind (body x) (fun _ => forEach xs' body)
  end.

Declare Scope eff_scope.
Delimit Scope eff_scope with eff.
Notation "x <- c ;; k" := (bind c (fun x => k))
  (at level 61, c at next level, right associativity) : eff_scope.
Notation "c ;; k" := (bind c (fun _ => k))
  (at level 61, right associativity) : eff_scope.

End Eff.

(* ===================================================================== *)
(** ** The world the generator acts on, and what it answers *)
(* ===================================================================== *)

Module Sys.
Import JS Eff.

(** A call of [metrics.emitMetric(name, duration, count)]. *)
Record Metric : Type := mkMetric {
  metricName : string;
  metricDuration : Z;
  metricCount : option nat
}.

(** What a block generator returns. *)
Record GenerationMetrics : Type := mkGenerationMetrics {
  itemsGenerated : nat;
  timeElapsed : option Z;
  directWrittenFilePaths : option (list string)
}.

(** The text of a staged ts-morph source file, by the generator that fills
    it (those generators are outside the sources at hand). *)
Inductive SourceText : Type :=
| inputsBarrel (typeNames : list string)
| enhanceMap
| customScalars
| helpersFile
| indexFile
| blockFile (blockName : string).

Inductive ProjectId : Type := mainProject | inputProject.

Inductive WorkerKind : Type := jsWorker | dtsWorker.

(** How a worker thread ends: its [exit] event with a code, or an [error]
    event first (rendered as a string). *)
Inductive WorkerOutcome : Type :=
| exited (code : Z)
| errored (reason : string).

(** What a run has done so far: how often the clock was read, the messages
    given to the logging callback, the metrics emitted and whether the
    listener was told of the completion, the directories made and the files
    written to disk (path and text, oldest first), the source files staged in
    the two ts-morph projects, in the order in which [getSourceFiles()] lists
    them, the paths saved from them, and the workers started. *)
Record World : Type := mkWorld {
  clockReads : nat;
  logs : list string;
  metrics : list Metric;
  completed : bool;
  directories : list string;
  written : list (string * string);
  staged : list (string * SourceText);
  stagedInput : list (string * SourceText);
  saved : list string;
  spawned : list (WorkerKind * list string)
}.

Definition emptyWorld : World :=
  mkWorld 0 [] [] false [] [] [] [] [] [].

(** The run of one block generator as the factory reports it. *)
Record BlockRun : Type := mkBlockRun {
  blockName : string;
  blockLogs : list string;
  blockStaged : list (ProjectId * string);
  blockMetrics : GenerationMetrics
}.

(** What the outside answers during a run: the working directory, the
    successive readings of the clock, the number of processors, which
    directory creations and file writes fail (with the message), whether the
    Prisma package check, the construction of the document, a block, the
    saving of the projects or the resolution of the compiler module fails,
    how each transpile worker and the declaration worker end and in which
    order their promises settle, with which message a subprocess fails, and
    whether a probed file is missing.  The next two fields are helpers of the
    repository that are outside the sources at hand: [getBlocksToEmit] of
    [./emit-block] and [toUnixPath(path.relative(_, _))].  The last two are
    answers of ts-morph: with which message [createSourceFile] fails for a
    path (with [overwrite] it reads the disk at that path, and throws on any
    error of the read but a missing file), and whether [getSourceFiles()]
    lists a path before another (it goes by directory depth, then by name). *)
Record Env : Type := mkEnv {
  cwd : string;
  perfNow : nat -> Z;
  cpuCount : nat;
  mkdirError : string -> option string;
  writeFileError : string -> option string;
  prismaPackageError : option string;
  documentError : option string;
  blockRuns : list BlockRun;
  blocksError : option string;
  saveError : option string;
  typescriptResolveError : option string;
  jsWorkerOutcome : nat -> WorkerOutcome;
  jsWorkerRank : nat -> nat;
  dtsWorkerOutcome : WorkerOutcome;
  execError : string -> option string;
  accessFails : string -> bool;
  getBlocksToEmit : option (list string) -> list string;
  relativeUnixPath : string -> string -> string;
  createSourceFileError : string -> option string;
  sourceFileBefore : string -> string -> bool
}.

Local Open Scope eff_scope.

Section Actions.
Variable env : Env.

(** [performance.now()] *)
Definition now : M World Z :=
  fun w =>
    (Ok (perfNow env (clockReads w)),
     mkWorld (S (clockReads w)) (logs w) (metrics w) (completed w)
       (directories w) (written w) (staged w) (stagedInput w) (saved w)
       (spawned w)).

(** The logging callback. *)
Definition log (msg : string) : M World unit :=
  modify (fun w =>
    mkWorld (clockReads w) (push (logs w) msg) (metrics w) (completed w)
      (directories w) (written w) (staged w) (stagedInput w) (saved w)
      (spawned w)).

Definition recordMetric (m : Metric) : M World unit :=
  modify (fun w =>
    mkWorld (clockReads w) (logs w) (push (metrics w) m) (completed w)
      (directories w) (written w) (staged w) (stagedInput w) (saved w)
      (spawned w)).

(** [this.metrics?.emitMetric(name, performance.now() - start, count)]: with
    no listener the arguments are not evaluated. *)
Definition emitMetric (hasMetrics : bool) (name : string) (start : Z)
  (count : option nat) : M World unit :=
  if hasMetrics then
    t <- now ;;
    recordMetric (mkMetric name (t - start) count)
  else ret tt.

(** [this.metrics?.onComplete?.()] *)
Definition onComplete (hasMetrics : bool) : M World unit :=
  when hasMetrics (modify (fun w =>
    mkWorld (clockReads w) (logs w) (metrics w) true
      (directories w) (written w) (staged w) (stagedInput w) (saved w)
      (spawned w))).

(** [fs.mkdirSync(dir, { recursive: true })] *)
Definition mkdirSync (dir : string) : M World unit :=
  failWhen (mkdirError env dir) ;;
  modify (fun w =>
    mkWorld (clockReads w) (logs w) (metrics w) (completed w)
      (push (directories w) dir) (written w) (staged w) (stagedInput w)
      (saved w) (spawned w)).

(** [fs.writeFileSync(filePath, content)] *)
Definition writeFileSync (filePath content : string) : M World unit :=
  failWhen (writeFileError env filePath) ;;
  modify (fun w =>
    mkWorld (clockReads w) (logs w) (metrics w) (completed w)
      (directories w) (push (written w) (filePath, content)) (staged w)
      (stagedInput w) (saved w) (spawned w)).

(** The source files of a project are kept as [getSourceFiles()] lists
    them.  A new file takes its place among them: before the first file that
    ts-morph lists after it. *)
Fixpoint place (file : string * SourceText)
  (files : list (string * SourceText)) : list (string * SourceText) :=
  match files with
  | [] => [file]
  | f :: rest =>
      if sourceFileBefore env (fst file) (fst f) then file :: f :: rest
      else f :: place file rest
  end.

(** The source files of a project once the file at [path] is created with
    [{ overwrite: true }] and filled: a file already at that path is
    replaced. *)
Definition overwrite (files : list (string * SourceText)) (path : string)
  (text : SourceText) : list (string * SourceText) :=
  place (path, text) (filter (fun f => negb (String.eqb (fst f) path)) files).

(** A project takes a source file. *)
Definition stageSourceFile (project : ProjectId) (path : string)
  (text : SourceText) : M World unit :=
  modify (fun w =>
    match project with
    | mainProject =>
        mkWorld (clockReads w) (logs w) (metrics w) (completed w)
          (directories w) (written w) (overwrite (staged w) path text)
          (stagedInput w) (saved w) (spawned w)
    | inputProject =>
        mkWorld (clockReads w) (logs w) (metrics w) (completed w)
          (directories w) (written w) (staged w)
          (overwrite (stagedInput w) path text) (saved w) (spawned w)
    end).

(** [project.createSourceFile(path, undefined, { overwrite: true })] followed
    by the generator that fills the file: the creation throws when the disk
    cannot be read at the path. *)
Definition createSourceFile (project : ProjectId) (path : string)
  (text : SourceText) : M World unit :=
  failWhen (createSourceFileError env path) ;;
  stageSourceFile project path text.

(** [new Project(...)] twice: the run starts from two empty projects. *)
Definition newProjects : M World unit :=
  modify (fun w =>
    mkWorld (clockReads w) (logs w) (metrics w) (completed w)
      (directories w) (written w) [] [] (saved w) (spawned w)).

(** [await Promise.all(projects.map(p => p.save()))] for both projects. *)
Definition saveProjects : M World unit :=
  failWhen (saveError env) ;;
  modify (fun w =>
    mkWorld (clockReads w) (logs w) (metrics w) (completed w)
      (directories w) (written w) (staged w) (stagedInput w)
      (saved w ++ map fst (staged w) ++ map fst (stagedInput w))%list
      (spawned w)).

(** [new Worker(code, { workerData: { filePaths, ... } })]: the world keeps
    which workers were started on which files; the artifacts they write are
    not followed. *)
Definition spawn (kind : WorkerKind) (filePaths : list string) : M World unit :=
  modify (fun w =>
    mkWorld (clockReads w) (logs w) (metrics w) (completed w)
      (directories w) (written w) (staged w) (stagedInput w) (saved w)
      (push (spawned w) (kind, filePaths))).

End Actions.

End Sys.

(* ===================================================================== *)
(** ** The input block generator *)
(* ===================================================================== *)

Module InputBlock.
Import JS Eff Sys.
Local Open Scope eff_scope.

(** The part of [DmmfDocument] the generator reads. *)
Record DmmfDocument : Type := mkDocument {
  documentOptions : Options.GeneratorOptions;
  schemaInputTypes : list DMMF.InputType.t
}.

(** Modelled from the spec: [DmmfDocument.shouldGenerateBlock], which is not
    among the sources at hand.  The configuration carries the block kinds to
    emit as an allow-list; a block is generated when the list names it. *)
Definition shouldGenerateBlock (doc : DmmfDocument) (block : string) : bool :=
  existsb (String.eqb block) (Options.blocksToEmit (documentOptions doc)).

(** The fields of [BaseBlockGenerator]. *)
Record InputBlockGenerator : Type := mkGenerator {
  project : ProjectId;
  dmmfDocument : DmmfDocument;
  options : Options.GeneratorOptions;
  baseDirPath : string
}.

Definition shouldGenerate (this : InputBlockGenerator) : bool :=
  shouldGenerateBlock (dmmfDocument this) "inputs".

Definition getBlockName (this : InputBlockGenerator) : string := "inputs".

Section Generate.
Variable env : Env.

Definition inputsDirPath (this : InputBlockGenerator) : string :=
  Path.resolve (cwd env)
    [baseDirPath this; TypeClass.resolversFolderName; TypeClass.inputsFolderName].

(** The body of [for (const type of this.dmmfDocument.schema.inputTypes)],
    with the two arrays it appends to. *)
Fixpoint writeInputTypes (this : InputBlockGenerator) (dir : string)
  (types : list DMMF.InputType.t) (allInputTypes directWritten : list string)
  : M World (list string * list string) :=
  match types with
  | [] => ret (allInputTypes, directWritten)
  | type :: types' =>
      let allInputTypes := push allInputTypes (DMMF.InputType.typeName type) in
      let filePath :=
        Path.resolve (cwd env) [dir; DMMF.InputType.typeName type ++ ".ts"] in
      let content := TypeClass.generateInputTypeText type (options this) in
      writeFileSync env filePath content ;;
      let directWritten := push directWritten filePath in
      writeInputTypes this dir types' allInputTypes directWritten
  end.

Definition generate (this : InputBlockGenerator) : M World GenerationMetrics :=
  if negb (shouldGenerate this) then
    ret (mkGenerationMetrics 0 None None)
  else
    startTime <- now env ;;
    let dir := inputsDirPath this in
    mkdirSync env dir ;;
    r <- writeInputTypes this dir (schemaInputTypes (dmmfDocument this)) [] [] ;;
    let '(allInputTypes, directWrittenFilePaths) := r in
    createSourceFile env (project this)
      (Path.resolve (cwd env) [dir; "index.ts"]) (inputsBarrel allInputTypes) ;;
    endTime <- now env ;;
    ret (mkGenerationMetrics
           (length (schemaInputTypes (dmmfDocument this)))
           (Some (endTime - startTime)%Z)
           (Some directWrittenFilePaths)).

End Generate.

End InputBlock.

(* ===================================================================== *)
(** ** [generate-code.ts] *)
(* ===================================================================== *)

Module GenerateCode.
Import JS Eff Sys.
Local Open Scope eff_scope.

Definition resolveFormatGeneratedCodeOption
  (formatOption : option Options.FormatOption) : option Options.Formatter :=
  match formatOption with
  | None => None
  | Some (Options.formatBool false) => None
  | Some (Options.formatBool true) => Some Options.tsc
  | Some (Options.formatWith f) => Some f
  end.

Definition formatterName (f : Options.Formatter) : string :=
  match f with
  | Options.prettier => "prettier"
  | Options.tsc => "tsc"
  | Options.biome => "biome"
  end.

(** Truthiness of an optional string. *)
Definition truthyString (s : option string) : bool :=
  match s with
  | Some s => negb (Path.isEmpty s)
  | None => false
  end.

(** [Object.assign({}, baseOptions, { ... })] *)
Definition makeOptions (env : Env) (baseOptions : Options.BaseOptions)
  : Options.GeneratorOptions :=
  Options.mk
    (Options.baseOutputDirPath baseOptions)
    (Options.basePrismaClientPath baseOptions)
    (Options.baseEmitTranspiledCode baseOptions)
    (getBlocksToEmit env (Options.baseEmitOnly baseOptions))
    (nullish (Options.baseContextPrismaKey baseOptions) "prisma")
    (Options.baseCustomPrismaImportPath baseOptions)
    (relativeUnixPath env (Options.baseOutputDirPath baseOptions)
       (Options.basePrismaClientPath baseOptions))
    (if negb (truthyString (Options.baseCustomPrismaImportPath baseOptions))
        && includes (Options.basePrismaClientPath baseOptions) "node_modules"
     then Some "@prisma/client" else None)
    (resolveFormatGeneratedCodeOption (Options.baseFormatGeneratedCode baseOptions))
    (Options.baseEmitIsAbstract baseOptions).

(** [options.emitTranspiledCode ?? options.outputDirPath.includes("node_modules")] *)
Definition emitTranspiledCodeOf (options : Options.GeneratorOptions) : bool :=
  nullish (Options.emitTranspiledCode options)
    (includes (Options.outputDirPath options) "node_modules").

(** [Math.min(Math.max(1, os.cpus().length - 2), 8)] *)
Definition jsWorkerCount (cpus : nat) : Z :=
  Z.min (Z.max 1 (Z.of_nat cpus - 2)) 8.

(** [Math.ceil(a / b)] for array lengths, where the quotient of the two
    doubles is exact enough for the rounding to be that of the integers. *)
Definition ceilDiv (a b : nat) : nat :=
  if (a mod b =? 0)%nat then a / b else S (a / b).

(** [arr.slice(from, to)] for [0 <= from <= to] *)
Definition slice {A : Type} (arr : list A) (from to : nat) : list A :=
  firstn (to - from) (skipn from arr).

(** [for (let i = 0; i < allFilePaths.length; i += batchSize)
       jsBatches.push(allFilePaths.slice(i, i + batchSize))],
    from index [i] on; [None] when [fuel] iterations do not end it. *)
Fixpoint batchLoop (fuel : nat) (allFilePaths : list string)
  (batchSize i : nat) (jsBatches : list (list string))
  : option (list (list string)) :=
  if (i <? length allFilePaths)%nat then
    match fuel with
    | O => None
    | S fuel' =>
        batchLoop fuel' allFilePaths batchSize (i + batchSize)
          (push jsBatches (slice allFilePaths i (i + batchSize)))
    end
  else Some jsBatches.

Definition makeBatches (cpus : nat) (allFilePaths : list string)
  : option (list (list string)) :=
  let batchSize := ceilDiv (length allFilePaths) (Z.to_nat (jsWorkerCount cpus)) in
  batchLoop (length allFilePaths) allFilePaths batchSize 0 [].

(** The promise wrapped around a worker: [None] when it resolves, otherwise
    the rejection reason as [`${reason}`] renders it. *)
Definition workerPromise (label : string) (outcome : WorkerOutcome)
  : option string :=
  match outcome with
  | exited code =>
      if (code =? 0)%Z then None
      else Some ("Error: " ++ label ++ " worker exited with code " ++ string_of_Z code)
  | errored reason => Some reason
  end.

(** [Promise.all]: it rejects with the reason of the promise that rejects
    first; [rank] is the time at which each promise settles. *)
Fixpoint firstRejection (rank : nat -> nat) (i : nat)
  (promises : list (option string)) (best : option (nat * string))
  : option (nat * string) :=
  match promises with
  | [] => best
  | p :: promises' =>
      let best :=
        match p, best with
        | Some reason, None => Some (rank i, reason)
        | Some reason, Some (r, _) =>
            if (rank i <? r)%nat then Some (rank i, reason) else best
        | None, _ => best
        end in
      firstRejection rank (S i) promises' best
  end.

Definition promiseAll (rank : nat -> nat) (promises : list (option string))
  : option string :=
  option_map snd (firstRejection rank 0 promises None).

Definition flatPaths (w : World) : list string :=
  (map fst (staged w) ++ map fst (stagedInput w))%list.

Section Generator.
Variable env : Env.
Variable hasMetrics : bool.

Definition fastEmitTranspiledCode (additionalFilePaths : list string)
  (baseDirPath : string) : M World unit :=
  fun w0 =>
  (let sourceFiles := flatPaths w0 in
   saveStart <- now env ;;
   saveProjects env ;;
   emitMetric env hasMetrics "save-ts-files" saveStart None ;;
   let allFilePaths := (sourceFiles ++ additionalFilePaths)%list in
   failWhen (typescriptResolveError env) ;;
   let jsWorkerCount := jsWorkerCount (cpuCount env) in
   log ("  Emitting .js (" ++ string_of_Z jsWorkerCount
          ++ " workers) + .d.ts (1 worker) in parallel") ;;
   emitStart <- now env ;;
   match makeBatches (cpuCount env) allFilePaths with
   | None => hang
   | Some jsBatches =>
       forEach jsBatches (fun batch => spawn jsWorker batch) ;;
       spawn dtsWorker allFilePaths ;;
       let jsResult :=
         promiseAll (jsWorkerRank env)
           (map (fun i => workerPromise "JS" (jsWorkerOutcome env i))
              (seq 0 (length jsBatches))) in
       let dtsResult := workerPromise "DTS" (dtsWorkerOutcome env) in
       emitMetric env hasMetrics "emit-js-dts" emitStart
         (Some (length allFilePaths)) ;;
       match jsResult with
       | Some reason => throw ("JS emission failed: " ++ reason)
       | None =>
           match dtsResult with
           | Some reason => throw ("DTS emission failed: " ++ reason)
           | None => ret tt
           end
       end
   end) w0.

(** The callback handed to [generateAllBlocks]. *)
Definition onBlock (run : BlockRun) : M World (list string) :=
  let m := blockMetrics run in
  let timed :=
    match timeElapsed m with
    | Some t => negb (t =? 0)%Z
    | None => false
    end in
  when (hasMetrics && timed)
    (recordMetric
       (mkMetric (blockName run ++ "-generation")
          (match timeElapsed m with Some t => t | None => 0%Z end)
          (Some (itemsGenerated m)))) ;;
  ret (match directWrittenFilePaths m with
       | Some paths => paths
       | None => []
       end).

(** [blockGeneratorFactory.generateAllBlocks(log, callback)]: the factory is
    outside the sources at hand; the environment tells which blocks ran, what
    they staged and reported, and whether one of them failed.  The files a
    block is told to have staged are in its project; a block that could not
    stage a file is a block that failed. *)
Fixpoint runBlocks (runs : list BlockRun) (directWritten : list string)
  : M World (list string) :=
  match runs with
  | [] => ret directWritten
  | run :: runs' =>
      forEach (blockLogs run) (fun msg => log msg) ;;
      forEach (blockStaged run)
        (fun f => stageSourceFile env (fst f) (snd f) (blockFile (blockName run))) ;;
      paths <- onBlock run ;;
      runBlocks runs' (directWritten ++ paths)%list
  end.

Definition generateAllBlocks : M World (list string) :=
  paths <- runBlocks (blockRuns env) [] ;;
  failWhen (blocksError env) ;;
  ret paths.

Definition defaultPrettierConfig : string :=
  "{" ++ quoted "semi" ++ ":true," ++ quoted "trailingComma" ++ ":" ++ quoted "es5"
    ++ "," ++ quoted "singleQuote" ++ ":false," ++ quoted "printWidth" ++ ":120,"
    ++ quoted "tabWidth" ++ ":2," ++ quoted "useTabs" ++ ":false}".

(** [await execa(command, { cwd })]: a subprocess with a success or failure
    result; what a formatter does to the files it is pointed at is its own
    business and is not followed. *)
Definition execa (command : string) : M World unit :=
  failWhen (execError env command).

(** The body of the [try] block of the formatting step. *)
Definition runFormatter (formatter : Options.Formatter) (baseDirPath : string)
  : M World unit :=
  log ("Formatting generated code with " ++ formatterName formatter) ;;
  formatStart <- now env ;;
  match formatter with
  | Options.tsc =>
      tscStart <- now env ;;
      let tscArgs := ["--noEmit"; "--project"; baseDirPath] in
      execa ("tsc " ++ join " " tscArgs) ;;
      emitMetric env hasMetrics "tsc-formatting" tscStart None
  | Options.prettier =>
      prettierStart <- now env ;;
      let prettierArgs :=
        [ "--write"; baseDirPath ++ "/**/*.ts"; "--ignore-path";
          Path.resolve (cwd env) [baseDirPath; ".prettierignore"] ] in
      let prettierArgs :=
        if accessFails env (Path.resolve (cwd env) [baseDirPath; ".prettierrc"])
        then (prettierArgs ++ ["--config"; defaultPrettierConfig])%list
        else prettierArgs in
      execa ("npx prettier " ++ join " " prettierArgs) ;;
      emitMetric env hasMetrics "prettier-formatting" prettierStart None
  | Options.biome =>
      biomeStart <- now env ;;
      let biomeArgs := ["format"; "--write"; baseDirPath ++ "/**/*.ts"] in
      execa ("npx biome " ++ join " " biomeArgs) ;;
      emitMetric env hasMetrics "biome-formatting" biomeStart None
  end ;;
  emitMetric env hasMetrics "code-formatting" formatStart None.

Definition formatStep (options : Options.GeneratorOptions) (baseDirPath : string)
  : M World unit :=
  match Options.formatGeneratedCode options with
  | Some formatter =>
      tryCatch (runFormatter formatter baseDirPath)
        (fun error => log ("Warning: Code formatting failed: " ++ error))
  | None => ret tt
  end.

Definition generate (baseOptions : Options.BaseOptions) : M World unit :=
  startTime <- now env ;;
  failWhen (prismaPackageError env) ;;
  let options := makeOptions env baseOptions in
  let baseDirPath := Options.outputDirPath options in
  let emitTranspiledCode := emitTranspiledCodeOf options in
  newProjects ;;
  log "Transforming dmmfDocument..." ;;
  dmmfStart <- now env ;;
  failWhen (documentError env) ;;
  emitMetric env hasMetrics "dmmf-document-creation" dmmfStart None ;;
  directWrittenFilePaths <- generateAllBlocks ;;
  log "Generate auxiliary files" ;;
  auxiliaryStart <- now env ;;
  createSourceFile env mainProject (baseDirPath ++ "/enhance.ts") enhanceMap ;;
  createSourceFile env mainProject (baseDirPath ++ "/scalars.ts") customScalars ;;
  createSourceFile env mainProject (baseDirPath ++ "/helpers.ts") helpersFile ;;
  createSourceFile env mainProject (baseDirPath ++ "/index.ts") indexFile ;;
  emitMetric env hasMetrics "auxiliary-files" auxiliaryStart None ;;
  log "Emitting final code" ;;
  emitStart <- now env ;;
  (if emitTranspiledCode then
     log "Transpiling generated code" ;;
     fastEmitTranspiledCode directWrittenFilePaths baseDirPath
   else
     log "Saving generated code" ;;
     saveStart <- now env ;;
     saveProjects env ;;
     emitMetric env hasMetrics "save-files" saveStart None) ;;
  formatStep options baseDirPath ;;
  emitMetric env hasMetrics "code-emission" emitStart None ;;
  emitMetric env hasMetrics "total-generation" startTime None ;;
  onComplete hasMetrics.

End Generator.

End GenerateCode.

Module Examples.
Import DMMF.

(** The number of separators of a path. *)
Fixpoint depthOf (path : string) : nat :=
  match path with
  | EmptyString => 0
  | String c rest =>
      if Ascii.eqb c Path.slash then S (depthOf rest) else depthOf rest
  end.

(** The order of the source files on the machines of the scenarios: by
    directory depth, then by path. *)
Definition listedBefore (a b : string) : bool :=
  (depthOf a <? depthOf b)%nat
  || ((depthOf a =? depthOf b)%nat && negb (String.leb b a)).

Definition opts : Options.GeneratorOptions :=
  Options.mk "/out" "/app/node_modules/.prisma/client" None
    ["enums"; "models"; "inputs"] "prisma" None "../node_modules/.prisma/client"
    (Some "@prisma/client") None None.

(** The same options with the block allow-list [enums, models]. *)
Definition optsNoInputs : Options.GeneratorOptions :=
  Options.mk "/out" "/app/node_modules/.prisma/client" None
    ["enums"; "models"] "prisma" None "../node_modules/.prisma/client"
    (Some "@prisma/client") None None.

Definition fld (n tn : string) (loc : FieldLocation) (ty : string)
  (req om mapped : bool) : Field.t :=
  Field.mk n tn (mkTypeInfo loc ty) req om mapped ty ty.

Definition postCreate : InputType.t :=
  InputType.mk "PostCreateInput"
    [ fld "content" "content" scalar "String" true false false;
      fld "color" "color" enumTypes "Color" true false false;
      fld "author" "writer" inputObjectTypes "UserCreateNestedOneInput" true false true;
      fld "self" "self" inputObjectTypes "PostCreateInput" false false false;
      fld "secret" "secret" scalar "Bytes" false true false ].

(** The creation input of [User { id, name }] of the end-to-end scenario. *)
Definition userCreate : InputType.t :=
  InputType.mk "UserCreateInput"
    [ fld "name" "name" scalar "String" false false false ].

Definition env0 : Sys.Env :=
  Sys.mkEnv "/cwd" (fun n => Z.of_nat (10 * n)) 6
    (fun _ => None) (fun _ => None) None None
    [ Sys.mkBlockRun "enums" ["Generating enums..."] [(Sys.mainProject, "/out/enums/Color.ts")]
        (Sys.mkGenerationMetrics 1 (Some 3%Z) None);
      Sys.mkBlockRun "inputs" [] [(Sys.inputProject, "/out/resolvers/inputs/index.ts")]
        (Sys.mkGenerationMetrics 1 (Some 4%Z) (Some ["/out/resolvers/inputs/PostCreateInput.ts"])) ]
    None None None (fun _ => Sys.exited 0) (fun n => n) (Sys.exited 0)
    (fun _ => Some "Command failed: tsc") (fun _ => true)
    (fun o => match o with Some l => l | None => ["enums"; "models"; "inputs"] end)
    (fun _ _ => "../client") (fun _ => None) listedBefore.
(** The same machine with another clock. *)
Definition env1 : Sys.Env :=
  Sys.mkEnv "/cwd" (fun n => Z.of_nat (7 * n + 3)) 6
    (fun _ => None) (fun _ => None) None None [] None None None
    (fun _ => Sys.exited 0) (fun n => n) (Sys.exited 0)
    (fun _ => None) (fun _ => false)
    (fun o => match o with Some l => l | None => ["enums"; "models"; "inputs"] end)
    (fun _ _ => "../client") (fun _ => None) listedBefore.

(** A world in which an earlier block has already run. *)
Definition world1 : Sys.World :=
  Sys.mkWorld 5 ["Generating enums..."] [] false ["/out/enums"]
    [("/out/enums/Color.ts", "export enum Color {}")]
    [("/out/enums/index.ts", Sys.blockFile "enums")] [] [] [].

(** The machine of [env0] on which transpile batch [failed] exits with
    code 1 and every other worker with code 0. *)
Definition failingBatch (failed : nat) : Sys.Env :=
  Sys.mkEnv "/cwd" (fun n => Z.of_nat (10 * n)) 6
    (fun _ => None) (fun _ => None) None None [] None None None
    (fun i => if (i =? failed)%nat then Sys.exited 1 else Sys.exited 0)
    (fun n => n) (Sys.exited 0)
    (fun _ => None) (fun _ => false)
    (fun o => match o with Some l => l | None => ["enums"; "models"; "inputs"] end)
    (fun _ _ => "../client") (fun _ => None) listedBefore.

(** The world once the four auxiliary files are staged. *)
Definition stagedWorld : Sys.World :=
  Sys.mkWorld 0 [] [] false [] []
    [ ("/out/enhance.ts", Sys.enhanceMap); ("/out/helpers.ts", Sys.helpersFile);
      ("/out/index.ts", Sys.indexFile); ("/out/scalars.ts", Sys.customScalars) ]
    [] [] [].

Definition inputsGenerator : InputBlock.InputBlockGenerator :=
  InputBlock.mkGenerator Sys.inputProject
    (InputBlock.mkDocument opts [postCreate; userCreate]) opts "/out".

Definition base0 : Options.BaseOptions :=
  Options.mkBase "/out/node_modules/x" "/app/client" None None None None (Some (Options.formatBool true)) None.

End Examples.

(* ===================================================================== *)
(** ** Vocabulary of the specification *)
(* ===================================================================== *)

Module Spec.
Import JS DMMF TypeClass Eff.

(** The order of [Array.prototype.sort] on strings: "alphabetical" is the
    lexicographic order of the code units. *)
Definition codeUnitLt (a b : string) : Prop := String.ltb a b = true.

(** The names a type's fields refer to at a location. *)
Definition refersTo (inputType : InputType.t) (isLocation : FieldLocation -> bool)
  (name : string) : Prop :=
  exists field,
    In field (InputType.fields inputType)
    /\ isLocation (location (Field.selectedInputType field)) = true
    /\ type (Field.selectedInputType field) = name.

(** Blocks of lines separated by one separator block. *)
Fixpoint intercalate (sep : list string) (blocks : list (list string))
  : list string :=
  match blocks with
  | [] => []
  | [b] => b
  | b :: blocks' => (b ++ sep ++ intercalate sep blocks')%list
  end.

(** A plain field: the [TypeGraphQL.Field] decorator and the declaration. *)
Definition plainFieldLines (field : Field.t) : list string :=
  [fieldDecoratorLine field; propertyLine field].

(** The backing property of a renamed field: the declaration alone. *)
Definition backingFieldLines (field : Field.t) : list string :=
  [propertyLine field].

(** What a non-omitted field contributes among the declarations. *)
Definition fieldLines (field : Field.t) : list string :=
  if Field.hasMappedName field then backingFieldLines field
  else plainFieldLines field.

(** The accessor pair of a renamed field: a decorated getter and a setter
    under the exposed name. *)
Definition accessorLines (field : Field.t) : list string :=
  [ fieldDecoratorLine field; getterHeadLine field; getterBodyLine field;
    closeBrace; EmptyString;
    setterHeadLine field; setterBodyLine field; closeBrace ].

(** The declarations of a class: one block per field to emit, then one
    accessor pair per renamed field among them, separated by empty lines. *)
Definition bodyBlocks (fields : list Field.t) : list (list string) :=
  map fieldLines fields
  ++ map accessorLines (filter (fun f => Field.hasMappedName f) fields).

(** The lines before the class. *)
Definition headerLines (inputType : InputType.t)
  (options : Options.GeneratorOptions) : list string :=
  [ "import * as TypeGraphQL from " ++ JS.quoted "type-graphql" ++ ";";
    "import * as GraphQLScalars from " ++ JS.quoted "graphql-scalars" ++ ";";
    "import { Prisma } from " ++ JS.quoted (prismaModuleSpecifier options) ++ ";";
    scalarsImportLine inputType ]%string
  ++ map inputImportLine (inputTypeImports inputType)
  ++ map enumImportLine (enumImports inputType)
  ++ [ EmptyString; classDecoratorLine inputType options ].

(** The class body of an emitted file: the lines between the line that
    opens the class and the two that end the file. *)
Fixpoint afterClassHead (lines : list string) : list string :=
  match lines with
  | [] => []
  | line :: rest =>
      if String.prefix "export class " line then rest else afterClassHead rest
  end.

Definition classBody (lines : list string) : list string :=
  removelast (removelast (afterClassHead lines)).

(** The names bound by a line [import { A, B } from ...;]. *)
Fixpoint namesUpToBrace (s cur : string) : list string :=
  match s with
  | EmptyString => []
  | String c s' =>
      if Ascii.eqb c (ascii_of_nat 44) then
        match s' with
        | String _ s'' => cur :: namesUpToBrace s'' EmptyString
        | EmptyString => []
        end
      else if Ascii.eqb c (ascii_of_nat 32) then [cur]
      else namesUpToBrace s' (cur ++ String c EmptyString)
  end.

Definition importedNames (line : string) : list string :=
  if String.prefix "import { " line
  then namesUpToBrace (substring 9 (String.length line - 9) line) EmptyString
  else [].

(** The custom scalar bindings a file imports: the names of its fourth
    line, the import from the scalars module. *)
Definition customScalarImports (lines : list string) : list string :=
  importedNames (nth 3 lines EmptyString).

(** The scalar kind a custom scalar binding stands for. *)
Definition scalarKindOf (binding : string) : string :=
  if String.eqb binding "BytesScalar" then "Bytes"
  else if String.eqb binding "DecimalJSScalar" then "Decimal"
  else binding.

(** "A custom scalar binding is imported only if a field of that scalar kind
    is present in the type." *)
Definition importsOnlyUsedScalars (inputType : InputType.t)
  (options : Options.GeneratorOptions) : Prop :=
  forall binding,
    In binding (customScalarImports (generateInputTypeLines inputType options)) ->
    exists field,
      In field (InputType.fields inputType)
      /\ type (Field.selectedInputType field) = scalarKindOf binding.

(** The world after [files] have been written to disk. *)
Definition afterWrites (w : Sys.World) (files : list (string * string))
  : Sys.World :=
  Sys.mkWorld (Sys.clockReads w) (Sys.logs w) (Sys.metrics w) (Sys.completed w)
    (Sys.directories w) (Sys.written w ++ files)%list (Sys.staged w)
    (Sys.stagedInput w) (Sys.saved w) (Sys.spawned w).

(** The file of an input type: its path under the inputs directory and its
    text. *)
Definition inputTypePath (env : Sys.Env) (this : InputBlock.InputBlockGenerator)
  (inputType : InputType.t) : string :=
  Path.resolve (Sys.cwd env)
    [InputBlock.inputsDirPath env this; InputType.typeName inputType ++ ".ts"].

Definition inputTypeFile (env : Sys.Env) (this : InputBlock.InputBlockGenerator)
  (inputType : InputType.t) : string * string :=
  (inputTypePath env this inputType,
   generateInputTypeText inputType (InputBlock.options this)).

Definition barrelPath (env : Sys.Env) (this : InputBlock.InputBlockGenerator)
  : string :=
  Path.resolve (Sys.cwd env) [InputBlock.inputsDirPath env this; "index.ts"].

(** "[generate] writes one file per input type plus one aggregating barrel
    file": the barrel file is among the files the run has written. *)
Definition writesBarrelFile (env : Sys.Env)
  (this : InputBlock.InputBlockGenerator) (w : Sys.World) : Prop :=
  In (barrelPath env this)
     (map fst (Sys.written (snd (InputBlock.generate env this w)))).

(** The staged files of the generator's project. *)
Definition stagedOf (project : Sys.ProjectId) (w : Sys.World)
  : list (string * Sys.SourceText) :=
  match project with
  | Sys.mainProject => Sys.staged w
  | Sys.inputProject => Sys.stagedInput w
  end.

(** Staging at most one file. *)
Definition stageUpdate (env : Sys.Env) (update : option (string * Sys.SourceText))
  (files : list (string * Sys.SourceText)) : list (string * Sys.SourceText) :=
  match update with
  | Some (path, text) => Sys.overwrite env files path text
  | None => files
  end.

Definition otherProject (project : Sys.ProjectId) : Sys.ProjectId :=
  match project with
  | Sys.mainProject => Sys.inputProject
  | Sys.inputProject => Sys.mainProject
  end.

(** *** Workers *)

(** Every transpile worker of [n] batches and the declaration worker exit
    with code 0. *)
Definition allWorkersExitZero (env : Sys.Env) (n : nat) : Prop :=
  (forall i, i < n -> Sys.jsWorkerOutcome env i = Sys.exited 0)
  /\ Sys.dtsWorkerOutcome env = Sys.exited 0.

(** Among [n] transpile batches, batch [i] alone fails; the declaration
    worker succeeds. *)
Definition onlyBatchFails (env : Sys.Env) (n i : nat) : Prop :=
  i < n
  /\ Sys.jsWorkerOutcome env i <> Sys.exited 0
  /\ (forall j, j < n -> j <> i -> Sys.jsWorkerOutcome env j = Sys.exited 0)
  /\ Sys.dtsWorkerOutcome env = Sys.exited 0.

(** "The error carries the batch identity": the failed batch can be read
    off the error with which [fastEmitTranspiledCode] rejects. *)
Definition errorCarriesBatchIdentity : Prop :=
  exists batchOf : string -> nat,
    forall (env : Sys.Env) (hasMetrics : bool) (additionalFilePaths : list string)
           (baseDirPath : string) (w : Sys.World) (jsBatches : list (list string))
           (i : nat) (message : string),
      GenerateCode.makeBatches (Sys.cpuCount env)
        (GenerateCode.flatPaths w ++ additionalFilePaths)%list = Some jsBatches ->
      onlyBatchFails env (length jsBatches) i ->
      fst (GenerateCode.fastEmitTranspiledCode env hasMetrics additionalFilePaths
             baseDirPath w) = Throw message ->
      batchOf message = i.

(** How the emission ends, from the outcomes of the workers of [n] batches:
    the transpile workers are looked at first. *)
Definition emissionResult (env : Sys.Env) (n : nat) : Result unit :=
  match GenerateCode.promiseAll (Sys.jsWorkerRank env)
          (map (fun i => GenerateCode.workerPromise "JS" (Sys.jsWorkerOutcome env i))
             (seq 0 n)) with
  | Some reason => Throw ("JS emission failed: " ++ reason)
  | None =>
      match GenerateCode.workerPromise "DTS" (Sys.dtsWorkerOutcome env) with
      | Some reason => Throw ("DTS emission failed: " ++ reason)
      | None => Ok tt
      end
  end.

(** *** The formatter *)

(** The environment with another outcome of the formatter: what the
    subprocess and the probe for its configuration file answer. *)
Definition withFormatterOutcome (env : Sys.Env)
  (execError' : string -> option string) (accessFails' : string -> bool)
  : Sys.Env :=
  Sys.mkEnv (Sys.cwd env) (Sys.perfNow env) (Sys.cpuCount env)
    (Sys.mkdirError env) (Sys.writeFileError env) (Sys.prismaPackageError env)
    (Sys.documentError env) (Sys.blockRuns env) (Sys.blocksError env)
    (Sys.saveError env) (Sys.typescriptResolveError env)
    (Sys.jsWorkerOutcome env) (Sys.jsWorkerRank env) (Sys.dtsWorkerOutcome env)
    execError' accessFails' (Sys.getBlocksToEmit env) (Sys.relativeUnixPath env)
    (Sys.createSourceFileError env) (Sys.sourceFileBefore env).

(** The command line of the formatter. *)
Definition formatCommand (env : Sys.Env) (formatter : Options.Formatter)
  (baseDirPath : string) : string :=
  match formatter with
  | Options.tsc => "tsc " ++ join " " ["--noEmit"; "--project"; baseDirPath]
  | Options.prettier =>
      let prettierArgs :=
        [ "--write"; baseDirPath ++ "/**/*.ts"; "--ignore-path";
          Path.resolve (Sys.cwd env) [baseDirPath; ".prettierignore"] ] in
      "npx prettier "
      ++ join " "
           (if Sys.accessFails env
                 (Path.resolve (Sys.cwd env) [baseDirPath; ".prettierrc"])
            then List.app prettierArgs ["--config"; GenerateCode.defaultPrettierConfig]
            else prettierArgs)
  | Options.biome =>
      "npx biome " ++ join " " ["format"; "--write"; baseDirPath ++ "/**/*.ts"]
  end.

(** The failure of the formatter of a run, if it is configured and fails. *)
Definition formatterFailure (env : Sys.Env) (options : Options.GeneratorOptions)
  : option string :=
  match Options.formatGeneratedCode options with
  | Some formatter =>
      Sys.execError env (formatCommand env formatter (Options.outputDirPath options))
  | None => None
  end.

Definition formattingWarning (message : string) : string :=
  "Warning: Code formatting failed: " ++ message.

(** What the formatting step logs. *)
Definition formatLogs (env : Sys.Env) (options : Options.GeneratorOptions)
  : list string :=
  match Options.formatGeneratedCode options with
  | Some formatter =>
      ("Formatting generated code with " ++ GenerateCode.formatterName formatter)
      :: match formatterFailure env options with
         | Some message => [formattingWarning message]
         | None => []
         end
  | None => []
  end.

Definition isFormattingWarning (line : string) : bool :=
  String.prefix "Warning: Code formatting failed: " line.

Definition isFormattingMetric (name : string) : bool :=
  existsb (String.eqb name)
    ["tsc-formatting"; "prettier-formatting"; "biome-formatting"; "code-formatting"].

(** The metrics a run reports, the timings of the formatter and all
    durations apart: names and item counts. *)
Definition reported (w : Sys.World) : list (string * option nat) :=
  map (fun m => (Sys.metricName m, Sys.metricCount m))
    (filter (fun m => negb (isFormattingMetric (Sys.metricName m))) (Sys.metrics w)).

(** Two worlds hold the same files of the generator: directories made,
    files written, staged and saved, workers started. *)
Definition sameFiles (w w' : Sys.World) : Prop :=
  Sys.directories w = Sys.directories w'
  /\ Sys.written w = Sys.written w'
  /\ Sys.staged w = Sys.staged w'
  /\ Sys.stagedInput w = Sys.stagedInput w'
  /\ Sys.saved w = Sys.saved w'
  /\ Sys.spawned w = Sys.spawned w'.

(** Two worlds agree on every result of a run but the formatter's own
    timings and warning. *)
Definition sameApartFromFormatting (w w' : Sys.World) : Prop :=
  sameFiles w w'
  /\ Sys.completed w = Sys.completed w'
  /\ filter (fun line => negb (isFormattingWarning line)) (Sys.logs w)
     = filter (fun line => negb (isFormattingWarning line)) (Sys.logs w')
  /\ reported w = reported w'.

(** What a run does before the formatting step: the staging and the
    emission. *)
Definition beforeFormatting (stage : M Sys.World (Z * list string * Z))
  (emit : list string -> M Sys.World unit) : M Sys.World unit :=
  bind stage (fun '(_, directWrittenFilePaths, _) => emit directWrittenFilePaths).

(** *** The three phases of [CodeGenerator.generate] *)

(** Everything up to the start of the emission: the document, the blocks and
    the auxiliary files.  It yields the start time, the paths the blocks
    wrote directly and the start time of the emission. *)
Definition stagePhase (env : Sys.Env) (hasMetrics : bool)
  (baseOptions : Options.BaseOptions) : Eff.M Sys.World (Z * list string * Z) :=
  (startTime <- Sys.now env ;;
   Eff.failWhen (Sys.prismaPackageError env) ;;
   let options := GenerateCode.makeOptions env baseOptions in
   let baseDirPath := Options.outputDirPath options in
   Sys.newProjects ;;
   Sys.log "Transforming dmmfDocument..." ;;
   dmmfStart <- Sys.now env ;;
   Eff.failWhen (Sys.documentError env) ;;
   Sys.emitMetric env hasMetrics "dmmf-document-creation" dmmfStart None ;;
   directWrittenFilePaths <- GenerateCode.generateAllBlocks env hasMetrics ;;
   Sys.log "Generate auxiliary files" ;;
   auxiliaryStart <- Sys.now env ;;
   Sys.createSourceFile env Sys.mainProject (baseDirPath ++ "/enhance.ts") Sys.enhanceMap ;;
   Sys.createSourceFile env Sys.mainProject (baseDirPath ++ "/scalars.ts") Sys.customScalars ;;
   Sys.createSourceFile env Sys.mainProject (baseDirPath ++ "/helpers.ts") Sys.helpersFile ;;
   Sys.createSourceFile env Sys.mainProject (baseDirPath ++ "/index.ts") Sys.indexFile ;;
   Sys.emitMetric env hasMetrics "auxiliary-files" auxiliaryStart None ;;
   Sys.log "Emitting final code" ;;
   emitStart <- Sys.now env ;;
   Eff.ret (startTime, directWrittenFilePaths, emitStart))%eff.

(** The emission, in the mode the options choose. *)
Definition emitPhase (env : Sys.Env) (hasMetrics : bool)
  (options : Options.GeneratorOptions) (directWrittenFilePaths : list string)
  : Eff.M Sys.World unit :=
  (if GenerateCode.emitTranspiledCodeOf options then
     Sys.log "Transpiling generated code" ;;
     GenerateCode.fastEmitTranspiledCode env hasMetrics directWrittenFilePaths
       (Options.outputDirPath options)
   else
     Sys.log "Saving generated code" ;;
     saveStart <- Sys.now env ;;
     Sys.saveProjects env ;;
     Sys.emitMetric env hasMetrics "save-files" saveStart None)%eff.

(** The formatting step and the closing metrics. *)
Definition finishPhase (env : Sys.Env) (hasMetrics : bool)
  (options : Options.GeneratorOptions) (startTime emitStart : Z)
  : Eff.M Sys.World unit :=
  (GenerateCode.formatStep env hasMetrics options (Options.outputDirPath options) ;;
   Sys.emitMetric env hasMetrics "code-emission" emitStart None ;;
   Sys.emitMetric env hasMetrics "total-generation" startTime None ;;
   Sys.onComplete hasMetrics)%eff.

End Spec.

(* ===================================================================== *)
(** ** [type-class.ts]: the output type class *)
(* ===================================================================== *)

Module OutputTypeClass.
Import JS DMMF TypeClass.

(** A field of an output type; [argsTypeName] is set when the field takes
    arguments. *)
Module OutputField.
Record t : Type := mk {
  name : string;
  outputType : TypeInfo;
  argsTypeName : option string;
  isRequired : bool;
  fieldTSType : string;
  typeGraphQLType : string
}.
End OutputField.

Module OutputType.
Record t : Type := mk {
  typeName : string;
  fields : list OutputField.t
}.
End OutputType.

Definition isOutputObjectTypes (l : FieldLocation) : bool :=
  match l with
  | outputObjectTypes => true
  | _ => false
  end.

(** Truthiness of [field.argsTypeName]. *)
Definition hasArgs (field : OutputField.t) : bool :=
  match OutputField.argsTypeName field with
  | Some n => negb (Path.isEmpty n)
  | None => false
  end.

(** [field.argsTypeName!] *)
Definition argsTypeNameOf (field : OutputField.t) : string :=
  match OutputField.argsTypeName field with
  | Some n => n
  | None => EmptyString
  end.

(** The elements of an array of objects, each with its identity: its
    position in the array it comes from. *)
Definition withIdentity {A : Type} (arr : list A) : list (nat * A) :=
  combine (seq 0 (length arr)) arr.

(** [arr.includes(x)] on objects: the same object, not an equal one. *)
Definition includesObject {A : Type} (arr : list (nat * A)) (x : nat * A) : bool :=
  existsb (fun y => (fst y =? fst x)%nat) arr.

Record DecoratedParameter : Type := mkDecoratedParameter {
  decoratedParameterName : string;
  decoratedParameterType : string;
  decoratedParameterDecorators : list Decorator
}.

Record MethodDeclaration : Type := mkMethod {
  methodName : string;
  methodReturnType : string;
  methodTrailingTrivia : string;
  methodDecorators : list Decorator;
  methodParameters : list DecoratedParameter;
  methodStatements : list string
}.

Record OutputClassDeclaration : Type := mkOutputClass {
  outputClassName : string;
  outputClassIsExported : bool;
  outputClassDecorators : list Decorator;
  outputClassProperties : list PropertyDeclaration;
  outputClassMethods : list MethodDeclaration
}.

(** The staged file: the arguments of the import helpers that depend on the
    type, and the class. *)
Record OutputTypeSourceFile : Type := mkOutputSourceFile {
  outputSourceFilePath : string;
  outputCustomScalarsHasBytes : bool;
  argsImportsArgument : list string;
  outputsImportsArgument : list string;
  modelsImportsArgument : list string;
  outputEnumsImportsArgument : list string;
  outputSourceFileClass : OutputClassDeclaration
}.

(** Modelled from the spec: [outputsFolderName] of [./config], which is not
    among the sources at hand; the convention has one subdirectory per block
    kind. *)
Definition outputsFolderName : string := "outputs".

Definition plainOutputProperty (field : OutputField.t) : PropertyDeclaration :=
  mkProperty (OutputField.name field) (OutputField.fieldTSType field)
    true false crlf
    [ mkDecorator "TypeGraphQL.Field"
        [ "_type => " ++ OutputField.typeGraphQLType field;
          "{ nullable: " ++ string_of_bool (negb (OutputField.isRequired field)) ++ " }" ] ].

(** The property of a field with arguments: no decorator and no trailing
    trivia. *)
Definition backingOutputProperty (field : OutputField.t) : PropertyDeclaration :=
  mkProperty (OutputField.name field) (OutputField.fieldTSType field)
    true false EmptyString [].

Section Generate.
(** [pascalCase] of [./helpers] and [dmmfDocument.isModelTypeName], which
    are outside the sources at hand. *)
Variable pascalCase : string -> string.
Variable isModelTypeName : string -> bool.

(** [Writers.returnStatement(`root.${field.name}`)] writes a return
    statement of the expression. *)
Definition getterMethod (typeName : string) (field : OutputField.t)
  : MethodDeclaration :=
  mkMethod ("get" ++ pascalCase (OutputField.name field))
    (OutputField.fieldTSType field) crlf
    [ mkDecorator "TypeGraphQL.Field"
        [ "_type => " ++ OutputField.typeGraphQLType field;
          "{ name: " ++ quoted (OutputField.name field) ++ ", nullable: "
            ++ string_of_bool (negb (OutputField.isRequired field)) ++ " }" ] ]
    [ mkDecoratedParameter "root" typeName [mkDecorator "TypeGraphQL.Root" []];
      mkDecoratedParameter "args" (argsTypeNameOf field)
        [mkDecorator "TypeGraphQL.Args" []] ]
    [ "return root." ++ OutputField.name field ++ ";" ].

(** The options literal of the [ObjectType] decorator. *)
Definition objectTypeOptions (emitIsAbstract simpleResolvers : bool) : string :=
  let options : list string := [] in
  let options := if emitIsAbstract then push options "isAbstract: true" else options in
  let options := if simpleResolvers then push options "simpleResolvers: true" else options in
  if (0 <? length options)%nat then "{ " ++ join ", " options ++ " }" else "{}".

Definition generateOutputTypeClassFromType (cwd dirPath : string)
  (type : OutputType.t) (emitIsAbstract simpleResolvers : bool)
  : OutputTypeSourceFile :=
  let fileDirPath := Path.resolve cwd [dirPath; outputsFolderName] in
  let filePath :=
    Path.resolve cwd [fileDirPath; OutputType.typeName type ++ ".ts"] in
  let fields := withIdentity (OutputType.fields type) in
  let fieldArgsTypeNames :=
    map (fun it => argsTypeNameOf (snd it))
      (filter (fun it => hasArgs (snd it)) fields) in
  let outputObjectTypes :=
    filter (fun field =>
              isOutputObjectTypes (location (OutputField.outputType (snd field))))
      fields in
  let outputObjectModelTypes :=
    filter (fun field =>
              isModelTypeName (DMMF.type (OutputField.outputType (snd field))))
      outputObjectTypes in
  mkOutputSourceFile filePath
    (some (fun field =>
             String.eqb (DMMF.type (OutputField.outputType (snd field))) "Bytes")
       fields)
    fieldArgsTypeNames
    (map (fun field => DMMF.type (OutputField.outputType (snd field)))
       (filter (fun field => negb (includesObject outputObjectModelTypes field))
          outputObjectTypes))
    (map (fun field => DMMF.type (OutputField.outputType (snd field)))
       outputObjectModelTypes)
    (map (fun fieldType => DMMF.type fieldType)
       (filter (fun fieldType => isEnumTypes (location fieldType))
          (map (fun field => OutputField.outputType (snd field)) fields)))
    (mkOutputClass (OutputType.typeName type) true
       [ mkDecorator "TypeGraphQL.ObjectType"
           [ quoted (OutputType.typeName type);
             objectTypeOptions emitIsAbstract simpleResolvers ] ]
       (map (fun field => plainOutputProperty (snd field))
          (filter (fun field => negb (hasArgs (snd field))) fields)
        ++ map (fun field => backingOutputProperty (snd field))
             (filter (fun field => hasArgs (snd field)) fields))%list
       (map (fun field => getterMethod (OutputType.typeName type) (snd field))
          (filter (fun field => hasArgs (snd field)) fields))).

End Generate.

End OutputTypeClass.

(* ===================================================================== *)
(** ** [generate-code.ts], the sequential emission and the worker's loop *)
(* ===================================================================== *)

Module SequentialEmit.
Import JS Eff Sys.
Local Open Scope eff_scope.

(** [filePath.replace(/\.ts$/, ".js")]: the suffix [.ts] at the end of the
    string, if there, becomes [.js]. *)
Fixpoint replaceTsSuffix (filePath : string) : string :=
  if String.eqb filePath ".ts" then ".js"
  else match filePath with
       | EmptyString => EmptyString
       | String c rest => String c (replaceTsSuffix rest)
       end.

(** The loop of the transpile worker ([JS_WORKER_CODE]): the files it
    writes, one per path of its batch, in order. *)
Definition workerOutputs (filePaths : list string) : list string :=
  map replaceTsSuffix filePaths.

Definition JS_BATCH_SIZE : nat := 200.

Definition isNone {A : Type} (x : option A) : bool :=
  match x with
  | None => true
  | Some _ => false
  end.

Section Emit.
Variable env : Env.
Variable hasMetrics : bool.

(** [ts.transpileModule(sf.getFullText(), ...).outputText] for the source
    file at a path: the compiler is outside the sources. *)
Variable transpileOutput : string -> string.

(** The time at which the write of a path settles. *)
Variable writeRank : string -> nat.

(** One batch: every file is transpiled, all writes are started together
    and awaited with [Promise.all]; the writes that do not fail are taken to
    land, and the first rejection, if any, is thrown. *)
Definition writeBatch (batch : list string) : M World unit :=
  fun w =>
    let transpiled :=
      map (fun filePath => (replaceTsSuffix filePath, transpileOutput filePath))
        batch in
    let landed :=
      filter (fun f => isNone (writeFileError env (fst f))) transpiled in
    let w' := Spec.afterWrites w landed in
    match GenerateCode.promiseAll
            (fun i => writeRank (nth i (map fst transpiled) EmptyString))
            (map (fun f => writeFileError env (fst f)) transpiled) with
    | Some reason => (Throw reason, w')
    | None => (Ok tt, w')
    end.

(** [for (let i = 0; i < sourceFiles.length; i += JS_BATCH_SIZE)], from
    index [i] on. *)
Fixpoint transpileLoop (fuel : nat) (sourceFiles : list string) (i : nat)
  : M World unit :=
  if (i <? length sourceFiles)%nat then
    match fuel with
    | O => hang
    | S fuel' =>
        writeBatch (GenerateCode.slice sourceFiles i (i + JS_BATCH_SIZE)) ;;
        transpileLoop fuel' sourceFiles (i + JS_BATCH_SIZE)
    end
  else ret tt.

(** The earlier [fastEmitTranspiledCode]: save, transpile in the main
    thread batch by batch, then emit the declarations in one program.  The
    declaration files the compiler writes are not followed. *)
Definition fastEmitTranspiledCode (baseDirPath : string) : M World unit :=
  fun w0 =>
  (let sourceFiles := GenerateCode.flatPaths w0 in
   saveStart <- now env ;;
   saveProjects env ;;
   emitMetric env hasMetrics "save-ts-files" saveStart None ;;
   log "  Transpiling .ts → .js (per-file, no type-checking)" ;;
   transpileStart <- now env ;;
   transpileLoop (length sourceFiles) sourceFiles 0 ;;
   emitMetric env hasMetrics "transpile-js" transpileStart
     (Some (length sourceFiles)) ;;
   log "  Generating .d.ts declarations" ;;
   dtsStart <- now env ;;
   emitMetric env hasMetrics "generate-dts" dtsStart
     (Some (length sourceFiles))) w0.

End Emit.

End SequentialEmit.

(* ===================================================================== *)
(** ** Further vocabulary *)
(* ===================================================================== *)

Module Extra.
Import JS DMMF.

Fixpoint hasSlash (s : string) : bool :=
  match s with
  | EmptyString => false
  | String c s' => Ascii.eqb c Path.slash || hasSlash s'
  end.

(** A path segment that normalization keeps as it is: not empty, without a
    separator, and neither [.] nor [..].  Every identifier is one. *)
Definition isOrdinarySegment (s : string) : bool :=
  negb (Path.isEmpty s) && negb (hasSlash s)
  && negb (String.eqb s ".") && negb (String.eqb s "..").

(** A directory path followed by one more segment. *)
Definition appendSegment (dir seg : string) : string :=
  if String.eqb dir "/" then "/" ++ seg else dir ++ "/" ++ seg.

(** A path in the form [path.resolve] returns: the root followed by ordinary
    segments. *)
Definition isResolved (path : string) : Prop :=
  exists segs,
    Forall (fun seg => isOrdinarySegment seg = true) segs
    /\ path = "/" ++ join "/" segs.

(** The error that ends a run before the emission: that of the package
    check, of the construction of the document or of a block, the first of
    them that occurs. *)
Definition firstFatalError (env : Sys.Env) : option string :=
  match Sys.prismaPackageError env with
  | Some e => Some e
  | None =>
      match Sys.documentError env with
      | Some e => Some e
      | None => Sys.blocksError env
      end
  end.

(** What the callback of [generateAllBlocks] takes from the metrics of a
    block: its directly written paths, and, when its elapsed time is truthy,
    one metric. *)
Definition blockPaths (run : Sys.BlockRun) : list string :=
  match Sys.directWrittenFilePaths (Sys.blockMetrics run) with
  | Some paths => paths
  | None => []
  end.

Definition blockIsTimed (run : Sys.BlockRun) : bool :=
  match Sys.timeElapsed (Sys.blockMetrics run) with
  | Some t => negb (t =? 0)%Z
  | None => false
  end.

Definition blockMetric (run : Sys.BlockRun) : Sys.Metric :=
  Sys.mkMetric (Sys.blockName run ++ "-generation")
    (match Sys.timeElapsed (Sys.blockMetrics run) with
     | Some t => t
     | None => 0%Z
     end)
    (Some (Sys.itemsGenerated (Sys.blockMetrics run))).

(** The four files staged after the blocks. *)
Definition auxiliaryFiles (baseDirPath : string) : list string :=
  [ baseDirPath ++ "/enhance.ts"; baseDirPath ++ "/scalars.ts";
    baseDirPath ++ "/helpers.ts"; baseDirPath ++ "/index.ts" ].

(** The error that ends the staging of the auxiliary files: that of the
    first of them that cannot be created. *)
Fixpoint firstError (errors : list (option string)) : option string :=
  match errors with
  | [] => None
  | Some e :: _ => Some e
  | None :: rest => firstError rest
  end.

Definition auxiliaryError (env : Sys.Env) (baseDirPath : string)
  : option string :=
  firstError (map (Sys.createSourceFileError env) (auxiliaryFiles baseDirPath)).

(** Two worlds that differ at most in the staged files. *)
Definition onlyStaged (w w' : Sys.World) : Prop :=
  Sys.clockReads w' = Sys.clockReads w
  /\ Sys.logs w' = Sys.logs w
  /\ Sys.metrics w' = Sys.metrics w
  /\ Sys.completed w' = Sys.completed w
  /\ Sys.directories w' = Sys.directories w
  /\ Sys.written w' = Sys.written w
  /\ Sys.saved w' = Sys.saved w
  /\ Sys.spawned w' = Sys.spawned w.

(** Every run of [m] ends in a world related to the one it starts from. *)
Definition keeps {A : Type} (R : Sys.World -> Sys.World -> Prop)
  (m : Eff.M Sys.World A) : Prop :=
  forall w, R w (snd (m w)).

(** The listener has been told nothing more. *)
Definition unreported (w w' : Sys.World) : Prop :=
  Sys.metrics w' = Sys.metrics w /\ Sys.completed w' = Sys.completed w.

(** Nothing has left the projects: no file saved, no worker started, no
    completion told, and the disk as the blocks left it. *)
Definition nothingEmitted (w w' : Sys.World) : Prop :=
  Sys.saved w' = Sys.saved w
  /\ Sys.spawned w' = Sys.spawned w
  /\ Sys.completed w' = Sys.completed w
  /\ Sys.written w' = Sys.written w
  /\ Sys.directories w' = Sys.directories w.

End Extra.

(* ===================================================================== *)
(** ** The search for schema files of the command-line entry point *)
(* ===================================================================== *)

Module Cli.
Import JS Eff.

(** What [readdir(dir, { withFileTypes: true })] answers for a directory:
    it rejects, or it lists the entries; an entry is a directory, with what
    [readdir] answers for it in turn, or anything else. *)
Inductive Dirent : Type :=
| fileEntry (name : string)
| directoryEntry (name : string) (listing : Listing)
with Listing : Type :=
| rejects (error : string)
| lists (entries : list Dirent).

(** [entry.name] *)
Definition direntName (entry : Dirent) : string :=
  match entry with
  | fileEntry name => name
  | directoryEntry name _ => name
  end.

(** [s.endsWith(suffix)] *)
Fixpoint endsWith (s suffix : string) : bool :=
  if String.eqb s suffix then true
  else match s with
       | EmptyString => false
       | String _ s' => endsWith s' suffix
       end.

Section Entries.
Variable dir : string.
(** The recursive call. *)
Variable findIn : string -> Listing -> Result (list string).

(** [for (const entry of entries)], with the array [files] it appends
    to. *)
Fixpoint entriesLoop (entries : list Dirent) (files : list string)
  : Result (list string) :=
  match entries with
  | [] => Ok files
  | entry :: rest =>
      let fullPath := Path.join [dir; direntName entry] in
      match entry with
      | directoryEntry _ listing =>
          match findIn fullPath listing with
          | Ok found => entriesLoop rest (files ++ found)%list
          | Throw e => Throw e
          | Hang => Hang
          end
      | fileEntry name =>
          if endsWith name ".prisma" then entriesLoop rest (push files fullPath)
          else entriesLoop rest files
      end
  end.

End Entries.

(** [findPrismaFiles(dir)], on what [readdir] answers for [dir]. *)
Fixpoint findPrismaFiles (dir : string) (listing : Listing)
  : Result (list string) :=
  match listing with
  | rejects error => Throw error
  | lists entries => entriesLoop dir findPrismaFiles entries []
  end.

End Cli.

(** The schema files of a directory tree, for the properties of the
    search. *)
Module CliSpec.
Import Extra.

(** Every directory of the tree can be listed. *)
Fixpoint readable (listing : Cli.Listing) : bool :=
  match listing with
  | Cli.rejects _ => false
  | Cli.lists entries =>
      forallb (fun entry =>
                 match entry with
                 | Cli.fileEntry _ => true
                 | Cli.directoryEntry _ sub => readable sub
                 end) entries
  end.

(** Every entry of the tree has an ordinary name. *)
Fixpoint wellNamed (listing : Cli.Listing) : bool :=
  match listing with
  | Cli.rejects _ => true
  | Cli.lists entries =>
      forallb (fun entry =>
                 match entry with
                 | Cli.fileEntry name => isOrdinarySegment name
                 | Cli.directoryEntry name sub =>
                     isOrdinarySegment name && wellNamed sub
                 end) entries
  end.

(** The files of the tree under [dir] whose name ends in [.prisma], each
    with the path that leads to it, in the order of the listings and with
    the files of a directory at the place of the directory. *)
Fixpoint prismaFilesUnder (dir : string) (listing : Cli.Listing)
  : list string :=
  match listing with
  | Cli.rejects _ => []
  | Cli.lists entries =>
      flat_map (fun entry =>
                  match entry with
                  | Cli.fileEntry name =>
                      if Cli.endsWith name ".prisma"
                      then [appendSegment dir name] else []
                  | Cli.directoryEntry name sub =>
                      prismaFilesUnder (appendSegment dir name) sub
                  end) entries
  end.

(** The number of files of the tree whose name ends in [.prisma]. *)
Fixpoint prismaFileCount (listing : Cli.Listing) : nat :=
  match listing with
  | Cli.rejects _ => 0
  | Cli.lists entries =>
      list_sum
        (map (fun entry =>
                match entry with
                | Cli.fileEntry name =>
                    if Cli.endsWith name ".prisma" then 1 else 0
                | Cli.directoryEntry _ sub => prismaFileCount sub
                end) entries)
  end.

(** A schema directory with a nested folder, a file that is no schema and a
    folder whose name ends in [.prisma]. *)
Definition schemaTree : Cli.Listing :=
  Cli.lists
    [ Cli.fileEntry "schema.prisma";
      Cli.fileEntry "seed.ts";
      Cli.directoryEntry "models"
        (Cli.lists [Cli.fileEntry "user.prisma"; Cli.fileEntry "README.md"]);
      Cli.directoryEntry "old.prisma" (Cli.lists [Cli.fileEntry "post.prisma"]) ].

(** The same directory when the nested folder cannot be read. *)
Definition lockedTree : Cli.Listing :=
  Cli.lists
    [ Cli.fileEntry "schema.prisma";
      Cli.directoryEntry "models" (Cli.rejects "EACCES: permission denied");
      Cli.fileEntry "late.prisma" ].

End CliSpec.

(** Machines on which the disk refuses an operation. *)
Module Scenarios.

(** The machine of [Examples.env0] on which no directory can be made. *)
Definition readOnlyDisk : Sys.Env :=
  Sys.mkEnv "/cwd" (fun n => Z.of_nat (10 * n)) 6
    (fun _ => Some "EACCES: permission denied") (fun _ => None) None None []
    None None None (fun _ => Sys.exited 0) (fun n => n) (Sys.exited 0)
    (fun _ => None) (fun _ => false)
    (fun o => match o with Some l => l | None => ["enums"; "models"; "inputs"] end)
    (fun _ _ => "../client") (fun _ => None) Examples.listedBefore.

(** The machine of [Examples.env0] on which the write of [failing] fails. *)
Definition diskFull (failing : string) : Sys.Env :=
  Sys.mkEnv "/cwd" (fun n => Z.of_nat (10 * n)) 6
    (fun _ => None)
    (fun path => if String.eqb path failing
                 then Some "ENOSPC: no space left on device" else None)
    None None []
    None None None (fun _ => Sys.exited 0) (fun n => n) (Sys.exited 0)
    (fun _ => None) (fun _ => false)
    (fun o => match o with Some l => l | None => ["enums"; "models"; "inputs"] end)
    (fun _ _ => "../client") (fun _ => None) Examples.listedBefore.

(** The machine of [Examples.env0] on which the schema is rejected when the
    document is built. *)
Definition brokenSchema : Sys.Env :=
  Sys.mkEnv "/cwd" (fun n => Z.of_nat (10 * n)) 6
    (fun _ => None) (fun _ => None) None (Some "Invalid schema") []
    None None None (fun _ => Sys.exited 0) (fun n => n) (Sys.exited 0)
    (fun _ => None) (fun _ => false)
    (fun o => match o with Some l => l | None => ["enums"; "models"; "inputs"] end)
    (fun _ _ => "../client") (fun _ => None) Examples.listedBefore.

(** The machine of [Examples.env0] on which the compiler module is not
    found. *)
Definition noCompiler : Sys.Env :=
  Sys.mkEnv "/cwd" (fun n => Z.of_nat (10 * n)) 6
    (fun _ => None) (fun _ => None) None None []
    None None (Some "Cannot find module 'typescript'")
    (fun _ => Sys.exited 0) (fun n => n) (Sys.exited 0)
    (fun _ => None) (fun _ => false)
    (fun o => match o with Some l => l | None => ["enums"; "models"; "inputs"] end)
    (fun _ _ => "../client") (fun _ => None) Examples.listedBefore.

(** The machine of [Examples.env0] on which a file stands where the output
    directory should be: no source file can be created below [/out]. *)
Definition fileInTheWay : Sys.Env :=
  Sys.mkEnv "/cwd" (fun n => Z.of_nat (10 * n)) 6
    (fun _ => None) (fun _ => None) None None []
    None None None (fun _ => Sys.exited 0) (fun n => n) (Sys.exited 0)
    (fun _ => None) (fun _ => false)
    (fun o => match o with Some l => l | None => ["enums"; "models"; "inputs"] end)
    (fun _ _ => "../client")
    (fun path => if String.prefix "/out/" path
                 then Some "ENOTDIR: not a directory" else None)
    Examples.listedBefore.

(** Options of a run into a directory of the project itself, with nothing
    else set: source mode, no formatter. *)
Definition sourceBase : Options.BaseOptions :=
  Options.mkBase "/out" "/app/client" None None None None None None.

End Scenarios.

(* ===================================================================== *)
(** * Properties *)
(* ===================================================================== *)

Local Open Scope string_scope.
Local Open Scope list_scope.

(** Projections of an explicit world. *)
Ltac world_simpl :=
  cbn [Sys.clockReads Sys.logs Sys.metrics Sys.completed Sys.directories
       Sys.written Sys.staged Sys.stagedInput Sys.saved Sys.spawned] in *.

(** One run of straight-line effects on an explicit world. *)
Ltac run_effects :=
  cbv beta iota zeta delta
    [Eff.bind Eff.ret Eff.throw Eff.failWhen Eff.modify Eff.when Eff.tryCatch
     Sys.now Sys.log Sys.recordMetric Sys.onComplete Sys.newProjects fst snd
     Sys.clockReads Sys.logs Sys.metrics Sys.completed Sys.directories
     Sys.written Sys.staged Sys.stagedInput Sys.saved Sys.spawned].

Ltac run_effects_in H :=
  cbv beta iota zeta delta
    [Eff.bind Eff.ret Eff.throw Eff.failWhen Eff.modify Eff.when Eff.tryCatch
     Sys.now Sys.log Sys.recordMetric Sys.onComplete Sys.newProjects fst snd
     Sys.clockReads Sys.logs Sys.metrics Sys.completed Sys.directories
     Sys.written Sys.staged Sys.stagedInput Sys.saved Sys.spawned] in H.

(** ** The built-ins *)

Section Builtins.
Import Spec.

Lemma prefix_app (p s : string) :
  String.prefix p s = true <-> exists t, s = (p ++ t)%string.
Proof.
  revert s. induction p as [|a p IH]; intros s; simpl.
  - destruct s; split; eauto.
  - destruct s as [|b s].
    + split; [discriminate | intros [t Ht]; discriminate].
    + simpl. destruct (ascii_dec a b) as [->|Hab].
      * rewrite IH. split; intros [t Ht]; exists t.
        -- now rewrite Ht.
        -- now inversion Ht.
      * split; [discriminate | intros [t Ht]; inversion Ht; congruence].
Qed.

Lemma includes_unfold (s needle : string) :
  JS.includes s needle =
  if String.prefix needle s then true
  else match s with
       | EmptyString => false
       | String _ s' => JS.includes s' needle
       end.
Proof. destruct s; reflexivity. Qed.

Lemma includes_spec (s needle : string) :
  JS.includes s needle = true
  <-> exists pre post, s = (pre ++ needle ++ post)%string.
Proof.
  induction s as [|c s IH]; rewrite includes_unfold.
  - destruct (String.prefix needle EmptyString) eqn:Hp.
    + apply prefix_app in Hp as [t Ht]. split; auto.
      intros _. exists EmptyString, t. exact Ht.
    + split; [discriminate|]. intros (pre & post & H).
      destruct pre; simpl in H; [|discriminate].
      assert (String.prefix needle EmptyString = true)
        by (apply prefix_app; eauto).
      congruence.
  - destruct (String.prefix needle (String c s)) eqn:Hp.
    + apply prefix_app in Hp as [t Ht]. split; auto.
      intros _. exists EmptyString, t. exact Ht.
    + rewrite IH. split.
      * intros (pre & post & H). exists (String c pre), post. now rewrite H.
      * intros (pre & post & H). destruct pre as [|c' pre]; simpl in H.
        -- assert (String.prefix needle (String c s) = true)
             by (apply prefix_app; eauto).
           congruence.
        -- inversion H. eauto.
Qed.

Lemma codeUnitLt_lts (a b : string) : codeUnitLt a b <-> String_as_OT.lt a b.
Proof.
  unfold codeUnitLt, String.ltb. rewrite <- String_as_OT.cmp_lt.
  unfold String_as_OT.cmp. destruct (String.compare a b); split; congruence.
Qed.

Lemma codeUnitLt_trans (a b c : string) :
  codeUnitLt a b -> codeUnitLt b c -> codeUnitLt a c.
Proof.
  rewrite !codeUnitLt_lts. apply String_as_OT.lt_trans.
Qed.

Lemma codeUnitLt_irrefl (a : string) : ~ codeUnitLt a a.
Proof.
  rewrite codeUnitLt_lts. intros H.
  exact (String_as_OT.lt_not_eq _ _ H eq_refl).
Qed.

Lemma leb_cases (a b : string) :
  String.leb a b = true -> a = b \/ codeUnitLt a b.
Proof.
  unfold String.leb, codeUnitLt, String.ltb.
  destruct (String.compare a b) eqn:E; intros H.
  - left. now apply String.compare_eq_iff.
  - now right.
  - discriminate.
Qed.

Lemma leb_false_lt (a b : string) :
  String.leb a b = false -> codeUnitLt b a.
Proof.
  unfold String.leb, codeUnitLt, String.ltb.
  rewrite (String.compare_antisym b a).
  destruct (String.compare a b); simpl; congruence.
Qed.

Lemma sortInsert_perm (x : string) (l : list string) :
  Permutation (JS.sortInsert x l) (x :: l).
Proof.
  induction l as [|y l IH]; simpl; auto.
  destruct (String.leb x y); auto.
  rewrite IH. apply perm_swap.
Qed.

Lemma sort_perm (l : list string) : Permutation (JS.sort l) l.
Proof.
  induction l as [|x l IH]; simpl; auto.
  rewrite sortInsert_perm. now constructor.
Qed.

Lemma sort_In (l : list string) (x : string) : In x (JS.sort l) <-> In x l.
Proof.
  split; apply Permutation_in; [|symmetry]; apply sort_perm.
Qed.

Lemma sortInsert_sorted (x : string) (l : list string) :
  ~ In x l -> StronglySorted codeUnitLt l ->
  StronglySorted codeUnitLt (JS.sortInsert x l).
Proof.
  induction l as [|y l IH]; simpl; intros Hx Hs.
  - repeat constructor.
  - inversion Hs as [|? ? Hs' Hall]; subst.
    destruct (String.leb x y) eqn:E.
    + apply leb_cases in E as [->|Hlt]; [tauto|].
      constructor; auto. constructor; auto.
      eapply Forall_impl; [|exact Hall].
      intros z Hz. eapply codeUnitLt_trans; eauto.
    + apply leb_false_lt in E. constructor.
      * apply IH; tauto.
      * rewrite Forall_forall. intros z Hz.
        apply (Permutation_in _ (sortInsert_perm x l)) in Hz.
        destruct Hz as [<-|Hz]; auto.
        rewrite Forall_forall in Hall. auto.
Qed.

Lemma sort_sorted (l : list string) :
  NoDup l -> StronglySorted codeUnitLt (JS.sort l).
Proof.
  induction 1 as [|x l Hx Hnd IH]; simpl; [constructor|].
  apply sortInsert_sorted; auto. now rewrite sort_In.
Qed.

Lemma existsb_eqb_In (x : string) (l : list string) :
  existsb (String.eqb x) l = true <-> In x l.
Proof.
  rewrite existsb_exists. split.
  - intros (y & Hy & E). apply String.eqb_eq in E. now subst.
  - intros H. exists x. split; auto. apply String.eqb_refl.
Qed.

Lemma setAdd_spec (arr seen : list string) :
  NoDup seen ->
  NoDup (JS.setAdd seen arr)
  /\ forall x, In x (JS.setAdd seen arr) <-> In x seen \/ In x arr.
Proof.
  revert seen. induction arr as [|a arr IH]; simpl; intros seen Hnd.
  - split; auto. intros x; tauto.
  - destruct (existsb (String.eqb a) seen) eqn:E.
    + apply existsb_eqb_In in E. destruct (IH seen Hnd) as [H1 H2].
      split; auto. intros x. rewrite H2. intuition (subst; auto).
    + assert (Ha : ~ In a seen).
      { intros H. apply existsb_eqb_In in H. congruence. }
      assert (Hnd' : NoDup (JS.push seen a)).
      { unfold JS.push. apply NoDup_app; auto.
        - repeat constructor; simpl; tauto.
        - intros x Hx [<-|[]]. contradiction. }
      destruct (IH _ Hnd') as [H1 H2]. split; auto.
      intros x. rewrite H2. unfold JS.push. rewrite in_app_iff. simpl.
      intuition (subst; auto).
Qed.

Lemma newSet_NoDup (arr : list string) : NoDup (JS.newSet arr).
Proof. apply (setAdd_spec arr []). constructor. Qed.

Lemma newSet_In (arr : list string) (x : string) :
  In x (JS.newSet arr) <-> In x arr.
Proof.
  unfold JS.newSet. destruct (setAdd_spec arr [] (NoDup_nil _)) as [_ H].
  rewrite H. simpl. tauto.
Qed.

(** A strictly sorted list is determined by its elements. *)
Lemma sorted_unique (l1 l2 : list string) :
  StronglySorted codeUnitLt l1 -> StronglySorted codeUnitLt l2 ->
  (forall x, In x l1 <-> In x l2) -> l1 = l2.
Proof.
  intros H1. revert l2. induction H1 as [|a l1 Hs1 IH Ha]; intros l2 H2 Hin.
  - destruct l2 as [|b l2]; auto. exfalso. apply (Hin b). now left.
  - inversion H2 as [|b l2' Hs2 Hb]; subst.
    + exfalso. apply (Hin a). now left.
    + rewrite Forall_forall in Ha, Hb.
      assert (a = b).
      { destruct (proj1 (Hin a) (or_introl eq_refl)) as [E|Hal2]; auto.
        destruct (proj2 (Hin b) (or_introl eq_refl)) as [E|Hbl1]; auto.
        exfalso. apply (codeUnitLt_irrefl a).
        eapply codeUnitLt_trans; [apply Ha|apply Hb]; eauto. }
      subst b. f_equal. apply IH; auto.
      intros x. split; intros Hx.
      * destruct (proj1 (Hin x) (or_intror Hx)) as [<-|]; auto.
        exfalso. exact (codeUnitLt_irrefl _ (Ha _ Hx)).
      * destruct (proj2 (Hin x) (or_intror Hx)) as [<-|]; auto.
        exfalso. exact (codeUnitLt_irrefl _ (Hb _ Hx)).
Qed.

End Builtins.

(* ===================================================================== *)
(** ** Emission mode *)
(* ===================================================================== *)

Section EmissionMode.
Import GenerateCode.

(** C10.  The emission mode of a run on configuration [baseOptions]: when
    [emitTranspiledCode] is set, its value alone is the mode; when it is
    left undefined, compiled mode is chosen exactly when the output directory
    path contains ["node_modules"]. *)
Theorem emission_mode_default (env : Sys.Env) (baseOptions : Options.BaseOptions) :
  emitTranspiledCodeOf (makeOptions env baseOptions) = true
  <-> match Options.baseEmitTranspiledCode baseOptions with
      | Some explicit => explicit = true
      | None =>
          exists pre post,
            Options.baseOutputDirPath baseOptions
            = (pre ++ "node_modules" ++ post)%string
      end.
Proof.
  unfold emitTranspiledCodeOf, makeOptions; simpl.
  destruct (Options.baseEmitTranspiledCode baseOptions) as [b|]; simpl.
  - reflexivity.
  - apply includes_spec.
Qed.

End EmissionMode.

(* ===================================================================== *)
(** ** Transpile batches *)
(* ===================================================================== *)

Section Batches.
Import GenerateCode.

Lemma jsWorkerCount_bounds (cpus : nat) :
  (1 <= jsWorkerCount cpus <= 8)%Z
  /\ (jsWorkerCount cpus <= Z.max 1 (Z.of_nat cpus - 2))%Z.
Proof. unfold jsWorkerCount. lia. Qed.

Lemma ceilDiv_covers (a b : nat) : 1 <= b -> a <= ceilDiv a b * b.
Proof.
  intros Hb. unfold ceilDiv.
  pose proof (Nat.div_mod_eq a b) as E.
  pose proof (Nat.mod_upper_bound a b ltac:(lia)) as U.
  destruct (a mod b =? 0)%nat eqn:Z0.
  - apply Nat.eqb_eq in Z0. nia.
  - nia.
Qed.

Lemma ceilDiv_pos (a b : nat) : 1 <= a -> 1 <= b -> 1 <= ceilDiv a b.
Proof.
  intros Ha Hb. pose proof (ceilDiv_covers a b Hb).
  destruct (ceilDiv a b); simpl in *; lia.
Qed.

Lemma slice_batch {A : Type} (l : list A) (i bs : nat) :
  slice l i (i + bs) = firstn bs (skipn i l).
Proof. unfold slice. f_equal. lia. Qed.

(** The loop ends within [fuel] iterations, and what it appends is a
    splitting of the rest of the list into non-empty pieces of at most
    [batchSize] paths. *)
Lemma batchLoop_spec (fuel : nat) (l : list string) (bs : nat) :
  1 <= bs ->
  forall i acc, length l - i <= fuel ->
  exists bl,
    batchLoop fuel l bs i acc = Some (acc ++ bl)
    /\ concat bl = skipn i l
    /\ Forall (fun b => b <> [] /\ length b <= bs) bl
    /\ length bl * bs < length l - i + bs.
Proof.
  intros Hbs. induction fuel as [|fuel IH]; intros i acc Hfuel.
  - exists []. simpl. destruct (i <? length l)%nat eqn:E.
    + apply Nat.ltb_lt in E. lia.
    + apply Nat.ltb_ge in E. rewrite app_nil_r, skipn_all2 by lia.
      repeat split; auto. simpl. lia.
  - simpl. destruct (i <? length l)%nat eqn:E.
    + apply Nat.ltb_lt in E.
      destruct (IH (i + bs) (JS.push acc (slice l i (i + bs))) ltac:(lia))
        as (bl & Hrun & Hcat & Hall & Hlen).
      exists (slice l i (i + bs) :: bl). rewrite Hrun. unfold JS.push.
      rewrite <- app_assoc. simpl. repeat split.
      * rewrite Hcat, slice_batch, Nat.add_comm, <- skipn_skipn.
        apply firstn_skipn.
      * constructor; auto. rewrite slice_batch. split.
        -- intros Hnil. apply (f_equal (@length _)) in Hnil.
           rewrite length_firstn, length_skipn in Hnil. simpl in Hnil. lia.
        -- rewrite length_firstn. lia.
      * destruct (Nat.le_gt_cases bs (length l - i)) as [Hge|Hlt].
        -- lia.
        -- assert (length bl = 0) as -> by nia. lia.
    + apply Nat.ltb_ge in E. exists []. rewrite app_nil_r, skipn_all2 by lia.
      repeat split; auto. simpl. lia.
Qed.

Lemma concat_In_nth {A : Type} (bl : list (list A)) (x : A) :
  In x (concat bl) -> exists i, i < length bl /\ In x (nth i bl []).
Proof.
  induction bl as [|b bl IH]; simpl; [tauto|].
  rewrite in_app_iff. intros [H|H].
  - exists 0. split; [lia|auto].
  - destruct (IH H) as (i & Hi & Hx). exists (S i). split; [lia|auto].
Qed.

Lemma NoDup_app_disjoint {A : Type} (l1 l2 : list A) :
  NoDup (l1 ++ l2) -> NoDup l2 /\ forall x, In x l1 -> ~ In x l2.
Proof.
  induction l1 as [|a l1 IH]; simpl; intros H.
  - split; auto.
  - inversion H as [|? ? Ha Hnd]; subst. destruct (IH Hnd) as [H2 Hdis].
    split; auto. intros x [<-|Hx] Hx2.
    + apply Ha. apply in_app_iff. now right.
    + exact (Hdis x Hx Hx2).
Qed.

Lemma concat_NoDup_nth {A : Type} (bl : list (list A)) (x : A) (i j : nat) :
  NoDup (concat bl) -> i < length bl -> j < length bl ->
  In x (nth i bl []) -> In x (nth j bl []) -> i = j.
Proof.
  revert i j. induction bl as [|b bl IH]; simpl; intros i j Hnd Hi Hj Hxi Hxj.
  - lia.
  - apply NoDup_app_disjoint in Hnd as (Hbl & Hdis).
    assert (Hin : forall k, k < length bl -> In x (nth k bl []) -> In x (concat bl)).
    { intros k Hk Hx. apply in_concat. exists (nth k bl []). split; auto.
      now apply nth_In. }
    destruct i as [|i], j as [|j]; auto.
    + exfalso. apply (Hdis x); auto. apply (Hin j); auto. lia.
    + exfalso. apply (Hdis x); auto. apply (Hin i); auto. lia.
    + f_equal. apply IH; auto; lia.
Qed.

(** The loop that cuts the batches always ends. *)
Lemma makeBatches_total (cpus : nat) (allFilePaths : list string) :
  exists jsBatches, makeBatches cpus allFilePaths = Some jsBatches.
Proof.
  destruct allFilePaths as [|path paths]; [exists []; reflexivity|].
  unfold makeBatches.
  destruct (jsWorkerCount_bounds cpus) as [Hw _].
  destruct (batchLoop_spec (length (path :: paths)) (path :: paths)
              (ceilDiv (length (path :: paths)) (Z.to_nat (jsWorkerCount cpus))))
    with (i := 0) (acc := @nil (list string)) as (bl & Hrun & _).
  - apply ceilDiv_pos; simpl; lia.
  - lia.
  - exists bl. exact Hrun.
Qed.

End Batches.

(* ===================================================================== *)
(** ** The shape of an emitted input type *)
(* ===================================================================== *)

Section EmittedText.
Import DMMF TypeClass Spec.

Lemma pushEach_map (line : string -> string) (xs lines : list string) :
  pushEach line xs lines = lines ++ map line xs.
Proof.
  unfold pushEach. revert lines.
  induction xs as [|x xs IH]; intros lines; simpl.
  - now rewrite app_nil_r.
  - rewrite IH. unfold JS.push. now rewrite <- app_assoc.
Qed.

Lemma intercalate_cons (sep b : list string) (blocks : list (list string)) :
  blocks <> [] ->
  intercalate sep (b :: blocks) = b ++ sep ++ intercalate sep blocks.
Proof. destruct blocks; [congruence | reflexivity]. Qed.

Lemma intercalate_app (sep : list string) (bs1 bs2 : list (list string)) :
  bs2 <> [] ->
  intercalate sep (bs1 ++ bs2)
  = concat (map (fun b => b ++ sep) bs1) ++ intercalate sep bs2.
Proof.
  intros Hne. induction bs1 as [|b bs1 IH]; simpl app; [reflexivity|].
  rewrite intercalate_cons.
  - rewrite IH. simpl. now rewrite <- !app_assoc.
  - destruct bs1; simpl; [assumption | discriminate].
Qed.

(** The first loop, when accessor pairs follow: every field is followed by
    an empty line. *)
Lemma fieldLoop_followed (n m : nat) (rest : list Field.t) :
  m <> 0 ->
  forall i lines,
    fieldLoop n m i rest lines
    = lines ++ concat (map (fun f => fieldLines f ++ [EmptyString]) rest).
Proof.
  intros Hm. induction rest as [|f rest IH]; intros i lines; simpl.
  - now rewrite app_nil_r.
  - rewrite IH. replace (m =? 0)%nat with false
      by (symmetry; now apply Nat.eqb_neq).
    rewrite andb_false_r. simpl. unfold fieldLines, backingFieldLines,
      plainFieldLines, JS.push.
    destruct (Field.hasMappedName f); now rewrite <- !app_assoc.
Qed.

(** The first loop, when no accessor pair follows: the fields are separated
    by empty lines. *)
Lemma fieldLoop_separated (n : nat) (rest : list Field.t) :
  forall i lines, i + length rest = n ->
    fieldLoop n 0 i rest lines
    = lines ++ intercalate [EmptyString] (map fieldLines rest).
Proof.
  induction rest as [|f rest IH]; intros i lines Hn.
  - simpl. now rewrite app_nil_r.
  - cbn [fieldLoop]. rewrite IH by (simpl in Hn; lia).
    rewrite Nat.eqb_refl, andb_true_r.
    destruct rest as [|g rest].
    + simpl in Hn. replace (i =? n - 1)%nat with true
        by (symmetry; apply Nat.eqb_eq; lia).
      simpl. rewrite app_nil_r. unfold fieldLines, backingFieldLines,
        plainFieldLines, JS.push.
      destruct (Field.hasMappedName f); now rewrite <- ?app_assoc.
    + simpl in Hn. replace (i =? n - 1)%nat with false
        by (symmetry; apply Nat.eqb_neq; lia).
      change (negb false) with true. cbv iota.
      rewrite (map_cons fieldLines f), (intercalate_cons _ (fieldLines f))
        by discriminate.
      unfold fieldLines, backingFieldLines, plainFieldLines, JS.push.
      destruct (Field.hasMappedName f); now rewrite <- !app_assoc.
Qed.

(** The second loop: the accessor pairs, separated by empty lines. *)
Lemma mappedLoop_separated (m : nat) (rest : list Field.t) :
  forall i lines, i + length rest = m ->
    mappedLoop m i rest lines
    = lines ++ intercalate [EmptyString] (map accessorLines rest).
Proof.
  induction rest as [|f rest IH]; intros i lines Hm.
  - simpl. now rewrite app_nil_r.
  - cbn [mappedLoop]. rewrite IH by (simpl in Hm; lia).
    destruct rest as [|g rest].
    + simpl in Hm. replace (i =? m - 1)%nat with true
        by (symmetry; apply Nat.eqb_eq; lia).
      simpl. rewrite app_nil_r. unfold accessorLines, JS.push.
      now rewrite <- !app_assoc.
    + simpl in Hm. replace (i =? m - 1)%nat with false
        by (symmetry; apply Nat.eqb_neq; lia).
      change (negb false) with true. cbv iota.
      rewrite (map_cons accessorLines f), (intercalate_cons _ (accessorLines f))
        by discriminate.
      unfold accessorLines, JS.push. now rewrite <- !app_assoc.
Qed.

Lemma loops_body (fields : list Field.t) (lines : list string) :
  let mapped := filter (fun f => Field.hasMappedName f) fields in
  mappedLoop (length mapped) 0 mapped
    (fieldLoop (length fields) (length mapped) 0 fields lines)
  = lines ++ intercalate [EmptyString] (bodyBlocks fields).
Proof.
  intros mapped. unfold bodyBlocks. fold mapped.
  rewrite mappedLoop_separated by reflexivity.
  destruct mapped as [|g mapped'] eqn:E.
  - simpl length. rewrite fieldLoop_separated by reflexivity.
    simpl. now rewrite !app_nil_r.
  - rewrite fieldLoop_followed by discriminate.
    rewrite intercalate_app by discriminate.
    rewrite <- app_assoc. f_equal. f_equal.
    rewrite map_map. reflexivity.
Qed.

Lemma lines_shape (inputType : InputType.t) (options : Options.GeneratorOptions) :
  generateInputTypeLines inputType options
  = headerLines inputType options
    ++ classHeadLine inputType
    :: intercalate [EmptyString] (bodyBlocks (fieldsToEmit inputType))
    ++ ["}"; EmptyString].
Proof.
  unfold generateInputTypeLines, mappedFields.
  rewrite loops_body, !pushEach_map. unfold JS.push, headerLines.
  simpl. rewrite <- !app_assoc. simpl. reflexivity.
Qed.

Lemma afterClassHead_header (inputType : InputType.t)
  (options : Options.GeneratorOptions) (rest : list string) :
  afterClassHead (headerLines inputType options ++ classHeadLine inputType :: rest)
  = rest.
Proof.
  unfold headerLines.
  assert (Himports : forall (line : string -> string) names tail,
    (forall x, String.prefix "export class " (line x) = false) ->
    afterClassHead (map line names ++ tail) = afterClassHead tail).
  { intros line names tail Hline. induction names as [|x names IH]; simpl; auto.
    now rewrite Hline. }
  cbn [app afterClassHead]. unfold scalarsImportLine.
  replace (String.prefix "export class "
             (if hasBytes inputType
              then ("import { DecimalJSScalar, BytesScalar } from "
                      ++ JS.quoted scalarsPath ++ ";")%string
              else ("import { DecimalJSScalar } from "
                      ++ JS.quoted scalarsPath ++ ";")%string))
    with false by (destruct (hasBytes inputType); reflexivity).
  cbn [append String.prefix]. simpl.
  rewrite <- !app_assoc, !Himports by reflexivity.
  cbn [app afterClassHead].
  replace (String.prefix "export class " (classDecoratorLine inputType options))
    with false by reflexivity.
  replace (String.prefix "export class " (classHeadLine inputType)) with true
    by (symmetry; apply prefix_app; eexists; reflexivity).
  reflexivity.
Qed.

Lemma removelast_end {A : Type} (l : list A) (x : A) :
  removelast (l ++ [x]) = l.
Proof. apply removelast_last. Qed.

Lemma classBody_lines (inputType : InputType.t) (options : Options.GeneratorOptions) :
  classBody (generateInputTypeLines inputType options)
  = intercalate [EmptyString] (bodyBlocks (fieldsToEmit inputType)).
Proof.
  unfold classBody. rewrite lines_shape, afterClassHead_header.
  change ["}"; EmptyString] with (["}"] ++ [EmptyString]).
  rewrite app_assoc, !removelast_end. reflexivity.
Qed.

End EmittedText.

(* ===================================================================== *)
(** ** Imports *)
(* ===================================================================== *)

Section Imports.
Import DMMF TypeClass Spec.

Lemma sorted_set (names : list string) :
  StronglySorted codeUnitLt (JS.sort (JS.newSet names))
  /\ NoDup (JS.sort (JS.newSet names))
  /\ forall name, In name (JS.sort (JS.newSet names)) <-> In name names.
Proof.
  repeat split.
  - apply sort_sorted, newSet_NoDup.
  - eapply Permutation_NoDup; [symmetry; apply sort_perm | apply newSet_NoDup].
  - rewrite sort_In, newSet_In; auto.
  - rewrite sort_In, newSet_In; auto.
Qed.

Lemma inputTypeImports_In (inputType : InputType.t) (name : string) :
  In name (inputTypeImports inputType)
  <-> refersTo inputType isInputObjectTypes name
      /\ name <> InputType.typeName inputType.
Proof.
  unfold inputTypeImports, refersTo.
  rewrite (proj2 (proj2 (sorted_set _))), filter_In, in_map_iff.
  rewrite negb_true_iff, String.eqb_neq.
  split.
  - intros [(f & Hty & Hf) Hne]. apply filter_In in Hf as [Hin Hloc]. eauto.
  - intros [(f & Hin & Hloc & Hty) Hne]. split; auto.
    exists f. rewrite filter_In. auto.
Qed.

Lemma enumImports_In (inputType : InputType.t) (name : string) :
  In name (enumImports inputType) <-> refersTo inputType isEnumTypes name.
Proof.
  unfold enumImports, refersTo.
  rewrite (proj2 (proj2 (sorted_set _))), in_map_iff.
  split.
  - intros (ty & Hty & Hin). apply filter_In in Hin as [Hin Hloc].
    apply in_map_iff in Hin as (f & <- & Hf). eauto.
  - intros (f & Hin & Hloc & Hty). exists (Field.selectedInputType f).
    rewrite filter_In, in_map_iff. eauto.
Qed.


End Imports.

(* ===================================================================== *)
(** ** Custom scalar bindings *)
(* ===================================================================== *)

Section CustomScalars.
Import DMMF TypeClass Spec.

Lemma hasBytes_spec (inputType : InputType.t) :
  hasBytes inputType = true
  <-> exists field,
        In field (InputType.fields inputType)
        /\ type (Field.selectedInputType field) = "Bytes".
Proof.
  unfold hasBytes, JS.some. rewrite existsb_exists.
  split; intros (f & Hin & H); exists f; split; auto;
    now apply String.eqb_eq.
Qed.

Lemma customScalarImports_lines (inputType : InputType.t)
  (options : Options.GeneratorOptions) :
  customScalarImports (generateInputTypeLines inputType options)
  = if hasBytes inputType
    then ["DecimalJSScalar"; "BytesScalar"]
    else ["DecimalJSScalar"].
Proof.
  unfold customScalarImports. rewrite lines_shape. unfold headerLines.
  cbn [app nth]. unfold scalarsImportLine.
  destruct (hasBytes inputType); reflexivity.
Qed.

(** C5, as the code has it.  The file imports [BytesScalar] exactly when
    some field's selected input type is [Bytes]; it imports
    [DecimalJSScalar] whatever the fields are; and it imports no other
    custom scalar binding. *)
Theorem custom_scalar_imports (inputType : InputType.t)
  (options : Options.GeneratorOptions) :
  let imported := customScalarImports (generateInputTypeLines inputType options) in
  (In "BytesScalar" imported
   <-> exists field,
         In field (InputType.fields inputType)
         /\ type (Field.selectedInputType field) = "Bytes")
  /\ In "DecimalJSScalar" imported
  /\ forall binding,
       In binding imported
       <-> binding = "DecimalJSScalar"
           \/ (binding = "BytesScalar" /\ hasBytes inputType = true).
Proof.
  intros imported. subst imported. rewrite customScalarImports_lines.
  rewrite <- hasBytes_spec.
  destruct (hasBytes inputType); simpl.
  - split; [|split]; auto.
    + split; auto.
    + intros binding. intuition congruence.
  - split; [|split]; auto.
    + split; [|discriminate]. intros [H|[]]. discriminate.
    + intros binding. intuition congruence.
Qed.

(** C5, as the claim has it, fails: the creation input of [User] has one
    field, of type [String], and its file imports [DecimalJSScalar]. *)
Lemma decimal_scalar_imported_unused :
  ~ importsOnlyUsedScalars Examples.userCreate Examples.opts.
Proof.
  intros H.
  destruct (H "DecimalJSScalar") as (field & Hin & Hty).
  - vm_compute. left. reflexivity.
  - simpl in Hin. destruct Hin as [<-|[]]. discriminate Hty.
Qed.

End CustomScalars.

(* ===================================================================== *)
(** ** Omitted and renamed fields *)
(* ===================================================================== *)

Section Fields.
Import DMMF TypeClass Spec.

Lemma fieldsToEmit_without (name : string) (pre post : list Field.t)
  (field : Field.t) :
  Field.isOmitted field = true ->
  fieldsToEmit (InputType.mk name (pre ++ field :: post))
  = fieldsToEmit (InputType.mk name (pre ++ post)).
Proof.
  intros Hom. unfold fieldsToEmit. simpl.
  rewrite !filter_app. simpl. now rewrite Hom.
Qed.

Lemma fieldsToEmit_In (inputType : InputType.t) (field : Field.t) :
  In field (fieldsToEmit inputType)
  <-> In field (InputType.fields inputType) /\ Field.isOmitted field = false.
Proof.
  unfold fieldsToEmit. rewrite filter_In, negb_true_iff. tauto.
Qed.

Lemma mappedFields_In (inputType : InputType.t) (field : Field.t) :
  In field (mappedFields inputType)
  <-> In field (fieldsToEmit inputType) /\ Field.hasMappedName field = true.
Proof. unfold mappedFields. now rewrite filter_In. Qed.

(** C2.  Let [field] be omitted in a type.  The class body of the emitted
    text and the class of the staged file are those of the type without the
    field; and every declaration, getter and setter of the class is that of a
    field of the type that is not omitted. *)
Theorem omitted_field_not_rendered (name : string) (pre post : list Field.t)
  (field : Field.t) (options : Options.GeneratorOptions) (cwd dirPath : string) :
  Field.isOmitted field = true ->
  let inputType := InputType.mk name (pre ++ field :: post) in
  let without := InputType.mk name (pre ++ post) in
  let class := sourceFileClass
                 (generateInputTypeClassFromType cwd dirPath inputType options) in
  classBody (generateInputTypeLines inputType options)
  = classBody (generateInputTypeLines without options)
  /\ class
     = sourceFileClass (generateInputTypeClassFromType cwd dirPath without options)
  /\ classBody (generateInputTypeLines inputType options)
     = intercalate [EmptyString]
         (bodyBlocks (filter (fun f => negb (Field.isOmitted f)) (pre ++ post)))
  /\ Forall (fun p => exists f, In f (pre ++ post) /\ Field.isOmitted f = false
                                /\ p = propertyOf f) (classProperties class)
  /\ Forall (fun g => exists f, In f (pre ++ post) /\ Field.isOmitted f = false
                                /\ g = getAccessorOf f) (classGetAccessors class)
  /\ Forall (fun s => exists f, In f (pre ++ post) /\ Field.isOmitted f = false
                                /\ s = setAccessorOf f) (classSetAccessors class).
Proof.
  intros Hom inputType without class.
  pose proof (fieldsToEmit_without name pre post field Hom) as E.
  fold inputType without in E.
  assert (Hsub : forall f, In f (fieldsToEmit inputType) ->
                           In f (pre ++ post) /\ Field.isOmitted f = false).
  { intros f Hf. rewrite E in Hf. now apply fieldsToEmit_In in Hf. }
  split; [|split; [|split; [|split; [|split]]]].
  - rewrite !classBody_lines. now rewrite E.
  - subst class. unfold generateInputTypeClassFromType, mappedFields.
    simpl. now rewrite E.
  - rewrite classBody_lines, E. reflexivity.
  - subst class. simpl. rewrite Forall_forall. intros p Hp.
    apply in_map_iff in Hp as (f & <- & Hf).
    destruct (Hsub f Hf). eauto.
  - subst class. simpl. rewrite Forall_forall. intros g Hg.
    apply in_map_iff in Hg as (f & <- & Hf).
    apply mappedFields_In in Hf as [Hf _]. destruct (Hsub f Hf). eauto.
  - subst class. simpl. rewrite Forall_forall. intros s Hs.
    apply in_map_iff in Hs as (f & <- & Hf).
    apply mappedFields_In in Hf as [Hf _]. destruct (Hsub f Hf). eauto.
Qed.

(** C2 on the creation input of [Post], whose field [secret] is omitted. *)
Lemma omitted_field_not_rendered_witness :
  let secret := Examples.fld "secret" "secret" scalar "Bytes" false true false in
  let kept := [ Examples.fld "content" "content" scalar "String" true false false ] in
  Field.isOmitted secret = true
  /\ classBody (generateInputTypeLines
                  (InputType.mk "PostCreateInput" (kept ++ secret :: [])) Examples.opts)
     = classBody (generateInputTypeLines
                    (InputType.mk "PostCreateInput" (kept ++ [])) Examples.opts).
Proof.
  intros secret kept. split; [reflexivity|].
  exact (proj1 (omitted_field_not_rendered "PostCreateInput" kept [] secret
                  Examples.opts "/cwd" "/out" eq_refl)).
Defined.



End Fields.

(* ===================================================================== *)
(** ** The input block *)
(* ===================================================================== *)

Section InputBlockProperties.
Import DMMF Spec Eff Sys InputBlock.
Variable env : Env.
Variable this : InputBlockGenerator.

Lemma afterWrites_nil (w : World) : afterWrites w [] = w.
Proof. destruct w. unfold afterWrites. simpl. now rewrite app_nil_r. Qed.

(** The loop over the input types: it writes the file of each type in turn
    and ends when a write fails. *)
Lemma writeInputTypes_run (types : list InputType.t) :
  forall allInputTypes directWritten w,
    match writeInputTypes env this (inputsDirPath env this) types
            allInputTypes directWritten w with
    | (Ok (names, paths), w') =>
        names = allInputTypes ++ map InputType.typeName types
        /\ paths = directWritten ++ map (inputTypePath env this) types
        /\ w' = afterWrites w (map (inputTypeFile env this) types)
    | (Throw e, _) =>
        exists t, In t types
                  /\ writeFileError env (inputTypePath env this t) = Some e
    | (Hang, _) => False
    end.
Proof.
  induction types as [|t types IH]; intros names paths w.
  - simpl. unfold ret. now rewrite !app_nil_r, afterWrites_nil.
  - cbn [writeInputTypes]. unfold bind at 1. unfold writeFileSync.
    unfold bind at 1. unfold failWhen.
    fold (inputTypePath env this t).
    destruct (writeFileError env (inputTypePath env this t)) as [e|] eqn:E.
    + unfold throw. exists t. split; [now left | assumption].
    + unfold ret, modify.
      match goal with
      | |- context [writeInputTypes _ _ _ _ ?a ?b ?w1] =>
          specialize (IH a b w1);
          destruct (writeInputTypes env this (inputsDirPath env this) types a b w1)
            as [[[names' paths']|e|] w']
      end.
      * destruct IH as (-> & -> & ->). unfold JS.push.
        rewrite <- !app_assoc. repeat split.
        unfold afterWrites. simpl. now rewrite <- app_assoc.
      * destruct IH as (t' & Hin & He). exists t'. split; [now right | assumption].
      * assumption.
Qed.

End InputBlockProperties.

(* ===================================================================== *)
(** ** Determinism *)
(* ===================================================================== *)

Section Determinism.
Import DMMF Spec Eff Sys InputBlock.


(** What a returning run of the generator has done, whatever the clock, the
    file system's answers and the world it started from. *)
Lemma generate_returns (env : Env) (this : InputBlockGenerator)
  (w w' : World) (m : GenerationMetrics) :
  generate env this w = (Ok m, w') ->
  let types := schemaInputTypes (dmmfDocument this) in
  if shouldGenerate this then
    itemsGenerated m = length types
    /\ directWrittenFilePaths m = Some (map (inputTypePath env this) types)
    /\ written w' = written w ++ map (inputTypeFile env this) types
    /\ stagedOf (project this) w'
       = stageUpdate env (Some (barrelPath env this,
                                inputsBarrel (map InputType.typeName types)))
           (stagedOf (project this) w)
  else
    m = mkGenerationMetrics 0 None None /\ w' = w.
Proof.
  intros Hrun types. unfold generate in Hrun.
  destruct (shouldGenerate this); cbn [negb] in Hrun.
  - unfold bind at 1 in Hrun. unfold now at 1 in Hrun.
    unfold bind at 1 in Hrun. unfold mkdirSync in Hrun.
    unfold bind at 1 in Hrun.
    destruct (mkdirError env (inputsDirPath env this));
      unfold failWhen, throw, ret, modify in Hrun; [discriminate|].
    world_simpl. unfold bind at 1 in Hrun.
    match type of Hrun with
    | context [writeInputTypes _ _ _ _ [] [] ?w1] =>
        pose proof (writeInputTypes_run env this types [] [] w1) as Hloop;
        fold types in Hrun;
        destruct (writeInputTypes env this (inputsDirPath env this) types [] [] w1)
          as [[[names paths]|e|] w1']
    end; try discriminate.
    destruct Hloop as (-> & -> & ->). simpl app in Hrun.
    unfold afterWrites in Hrun. world_simpl.
    unfold bind at 1 in Hrun. unfold createSourceFile in Hrun.
    unfold bind at 1 in Hrun. fold (barrelPath env this) in Hrun.
    destruct (createSourceFileError env (barrelPath env this));
      unfold failWhen, throw, ret in Hrun; [discriminate|].
    unfold stageSourceFile, modify in Hrun.
    unfold bind at 1 in Hrun. unfold now, ret in Hrun.
    destruct (project this); world_simpl;
      inversion Hrun; subst; clear Hrun;
      cbn [stagedOf stageUpdate itemsGenerated directWrittenFilePaths];
      world_simpl; repeat split; reflexivity.
  - unfold ret in Hrun. inversion Hrun. auto.
Qed.

(** Where a staged file goes depends on the machine through the order of
    [getSourceFiles()] alone. *)
Lemma stageUpdate_same_order (env1 env2 : Env)
  (update : option (string * SourceText)) :
  sourceFileBefore env1 = sourceFileBefore env2 ->
  forall files, stageUpdate env1 update files = stageUpdate env2 update files.
Proof.
  intros Horder files. destruct update as [[path text]|]; [|reflexivity].
  cbn [stageUpdate]. unfold overwrite.
  generalize (filter (fun f => negb (String.eqb (fst f) path)) files).
  intros l. induction l as [|f l IH]; [reflexivity|].
  cbn [place]. now rewrite Horder, IH.
Qed.

(** C1.  Two runs of the input block on the same document and options, in
    the same working directory, that both return: whatever the two clocks
    read, whatever the worlds they start from, they write the same files with
    the same contents in the same order, stage the same barrel file, at the
    same place among the files of the project when the two machines list
    source files in the same order, and report the same count and paths.
    And [generateInputTypeText] is a function of its two arguments: equal
    arguments give equal texts. *)
Theorem generation_deterministic (env1 env2 : Env) (this : InputBlockGenerator)
  (w1 w2 w1' w2' : World) (m1 m2 : GenerationMetrics) :
  cwd env1 = cwd env2 ->
  generate env1 this w1 = (Ok m1, w1') ->
  generate env2 this w2 = (Ok m2, w2') ->
  (exists files,
     written w1' = written w1 ++ files /\ written w2' = written w2 ++ files)
  /\ (exists update,
        stagedOf (project this) w1'
        = stageUpdate env1 update (stagedOf (project this) w1)
        /\ stagedOf (project this) w2'
           = stageUpdate env2 update (stagedOf (project this) w2)
        /\ (sourceFileBefore env1 = sourceFileBefore env2 ->
            forall files,
              stageUpdate env1 update files = stageUpdate env2 update files))
  /\ itemsGenerated m1 = itemsGenerated m2
  /\ directWrittenFilePaths m1 = directWrittenFilePaths m2
  /\ forall inputType1 inputType2 options1 options2,
       inputType1 = inputType2 -> options1 = options2 ->
       TypeClass.generateInputTypeText inputType1 options1
       = TypeClass.generateInputTypeText inputType2 options2.
Proof.
  intros Hcwd H1 H2.
  apply generate_returns in H1, H2. cbv zeta in H1, H2.
  assert (Hpath : forall t, inputTypePath env1 this t = inputTypePath env2 this t).
  { intros t. unfold inputTypePath, inputsDirPath. now rewrite Hcwd. }
  assert (Hfile : forall t, inputTypeFile env1 this t = inputTypeFile env2 this t).
  { intros t. unfold inputTypeFile. now rewrite Hpath. }
  assert (Hbarrel : barrelPath env1 this = barrelPath env2 this).
  { unfold barrelPath, inputsDirPath. now rewrite Hcwd. }
  split; [|split; [|split; [|split]]].
  - destruct (shouldGenerate this).
    + destruct H1 as (_ & _ & Hw1 & _), H2 as (_ & _ & Hw2 & _).
      eexists. split; [exact Hw1|]. rewrite Hw2. f_equal.
      apply map_ext. auto.
    + destruct H1 as [_ ->], H2 as [_ ->]. exists []. now rewrite !app_nil_r.
  - destruct (shouldGenerate this).
    + destruct H1 as (_ & _ & _ & Hs1), H2 as (_ & _ & _ & Hs2).
      eexists. split; [exact Hs1|]. split; [now rewrite Hs2, Hbarrel|].
      apply stageUpdate_same_order.
    + destruct H1 as [_ ->], H2 as [_ ->]. exists None.
      split; [reflexivity|]. split; [reflexivity|].
      apply stageUpdate_same_order.
  - destruct (shouldGenerate this).
    + destruct H1 as (-> & _), H2 as (-> & _). reflexivity.
    + destruct H1 as [-> _], H2 as [-> _]. reflexivity.
  - destruct (shouldGenerate this).
    + destruct H1 as (_ & -> & _), H2 as (_ & -> & _). f_equal.
      apply map_ext. auto.
    + destruct H1 as [-> _], H2 as [-> _]. reflexivity.
  - intros ? ? ? ? -> ->. reflexivity.
Qed.

(** C1 on two runs over the types of the end-to-end scenario: one from the
    empty world, one with another clock from a world in which the enums block
    has already run. *)
Lemma generation_deterministic_witness :
  exists m1 m2 w1' w2',
    cwd Examples.env0 = cwd Examples.env1
    /\ generate Examples.env0 Examples.inputsGenerator emptyWorld = (Ok m1, w1')
    /\ generate Examples.env1 Examples.inputsGenerator Examples.world1 = (Ok m2, w2')
    /\ itemsGenerated m1 = itemsGenerated m2
    /\ directWrittenFilePaths m1 = directWrittenFilePaths m2.
Proof.
  pose (r1 := generate Examples.env0 Examples.inputsGenerator emptyWorld).
  pose (r2 := generate Examples.env1 Examples.inputsGenerator Examples.world1).
  pose (dummy := mkGenerationMetrics 0 None None).
  pose (m1 := match fst r1 with Ok m => m | _ => dummy end).
  pose (m2 := match fst r2 with Ok m => m | _ => dummy end).
  assert (H1 : generate Examples.env0 Examples.inputsGenerator emptyWorld
               = (Ok m1, snd r1)) by (vm_compute; reflexivity).
  assert (H2 : generate Examples.env1 Examples.inputsGenerator Examples.world1
               = (Ok m2, snd r2)) by (vm_compute; reflexivity).
  exists m1, m2, (snd r1), (snd r2).
  split; [reflexivity|]. split; [exact H1|]. split; [exact H2|].
  destruct (generation_deterministic Examples.env0 Examples.env1
              Examples.inputsGenerator emptyWorld Examples.world1
              (snd r1) (snd r2) m1 m2 eq_refl H1 H2)
    as (_ & _ & Hitems & Hpaths & _).
  split; assumption.
Defined.

End Determinism.

(* ===================================================================== *)
(** ** The run of the code generator *)
(* ===================================================================== *)

Section Run.
Import Spec Eff Sys GenerateCode.

Lemma bind_assoc {W A B C : Type} (m : M W A) (f : A -> M W B)
  (g : B -> M W C) (w : W) :
  bind (bind m f) g w = bind m (fun x => bind (f x) g) w.
Proof. unfold bind. destruct (m w) as [[a|e|] w']; reflexivity. Qed.

Lemma bind_cong {W A B : Type} (m : M W A) (k1 k2 : A -> M W B) (w : W) :
  (forall a w', k1 a w' = k2 a w') -> bind m k1 w = bind m k2 w.
Proof.
  intros H. unfold bind. destruct (m w) as [[a|e|] w']; auto.
Qed.

Lemma bind_ret {W A B : Type} (a : A) (k : A -> M W B) (w : W) :
  bind (ret a) k w = k a w.
Proof. reflexivity. Qed.

(** [generate] is its three phases in sequence. *)
Lemma generate_phases (env : Env) (hasMetrics : bool)
  (baseOptions : Options.BaseOptions) (w : World) :
  generate env hasMetrics baseOptions w
  = bind (stagePhase env hasMetrics baseOptions)
      (fun '(startTime, directWrittenFilePaths, emitStart) =>
         bind (emitPhase env hasMetrics (makeOptions env baseOptions)
                 directWrittenFilePaths)
           (fun _ =>
              finishPhase env hasMetrics (makeOptions env baseOptions)
                startTime emitStart)) w.
Proof.
  unfold generate, stagePhase. cbv zeta. revert w.
  repeat (intros ?w; rewrite bind_assoc; apply bind_cong; intros ?).
  intros ?w. rewrite bind_ret. reflexivity.
Qed.

Lemma bind_Ok_inv {W A B : Type} (m : M W A) (k : A -> M W B)
  (w w' : W) (b : B) :
  bind m k w = (Ok b, w') ->
  exists a w1, m w = (Ok a, w1) /\ k a w1 = (Ok b, w').
Proof.
  unfold bind. destruct (m w) as [[a|e|] w1]; try discriminate. eauto.
Qed.

Lemma place_In (env : Env) (file x : string * SourceText)
  (files : list (string * SourceText)) :
  In x (place env file files) <-> x = file \/ In x files.
Proof.
  induction files as [|f files IH]; simpl.
  - split; [intros [H|[]]; auto | intros [H|[]]; auto].
  - destruct (sourceFileBefore env (fst file) (fst f)); simpl.
    + split; [intros [H|H]; auto | intros [H|H]; auto].
    + rewrite IH. split; [intros [H|[H|H]]; auto | intros [H|[H|H]]; auto].
Qed.

Lemma overwrite_In (env : Env) (files : list (string * SourceText))
  (path : string) (text : SourceText) :
  In path (map fst (overwrite env files path text)).
Proof.
  unfold overwrite. apply in_map_iff. exists (path, text).
  split; [reflexivity|]. apply place_In. now left.
Qed.

Lemma overwrite_keeps (env : Env) (files : list (string * SourceText))
  (path p : string) (text : SourceText) :
  In p (map fst files) -> In p (map fst (overwrite env files path text)).
Proof.
  intros Hin. destruct (String.eqb_spec p path) as [->|Hne];
    [apply overwrite_In|].
  unfold overwrite. apply in_map_iff in Hin as (f & <- & Hf).
  apply in_map. apply place_In. right.
  apply filter_In. split; [exact Hf|].
  apply negb_true_iff. now apply String.eqb_neq.
Qed.

(** When the staging returns, the root re-export file is among the staged
    files: the file list of the emission is not empty. *)
Lemma stagePhase_files (env : Env) (hasMetrics : bool)
  (baseOptions : Options.BaseOptions) (w0 w1 : World)
  (startTime emitStart : Z) (directWritten : list string) :
  stagePhase env hasMetrics baseOptions w0
  = (Ok (startTime, directWritten, emitStart), w1) ->
  In (Options.outputDirPath (makeOptions env baseOptions) ++ "/index.ts")%string
     (flatPaths w1).
Proof.
  unfold stagePhase. cbv zeta. intros H.
  do 8 (apply bind_Ok_inv in H as (? & ? & _ & H)).
  unfold emitMetric, createSourceFile, stageSourceFile in H.
  set (out := Options.outputDirPath (makeOptions env baseOptions)) in *.
  destruct (createSourceFileError env (out ++ "/enhance.ts"));
    [destruct hasMetrics; run_effects_in H; discriminate|].
  destruct (createSourceFileError env (out ++ "/scalars.ts"));
    [destruct hasMetrics; run_effects_in H; discriminate|].
  destruct (createSourceFileError env (out ++ "/helpers.ts"));
    [destruct hasMetrics; run_effects_in H; discriminate|].
  destruct (createSourceFileError env (out ++ "/index.ts"));
    [destruct hasMetrics; run_effects_in H; discriminate|].
  destruct hasMetrics; run_effects_in H; inversion H; subst; clear H;
    unfold flatPaths; world_simpl; apply in_app_iff; left;
    apply overwrite_In.
Qed.

(** **** Workers and [Promise.all] *)

Lemma workerPromise_None (label : string) (outcome : WorkerOutcome) :
  workerPromise label outcome = None <-> outcome = exited 0.
Proof.
  destruct outcome as [code|reason]; simpl.
  - destruct (Z.eqb_spec code 0) as [->|Hne].
    + split; auto.
    + split; [discriminate|]. intros H. inversion H. contradiction.
  - split; discriminate.
Qed.

Lemma firstRejection_None (rank : nat -> nat) (promises : list (option string)) :
  forall i best,
    firstRejection rank i promises best = None
    <-> best = None /\ Forall (fun p => p = None) promises.
Proof.
  induction promises as [|p promises IH]; intros i best; simpl.
  - split; [auto | tauto].
  - rewrite IH. destruct p as [reason|].
    + split.
      * intros [H _]. destruct best as [[r ?]|]; [|discriminate].
        destruct (rank i <? r)%nat; discriminate.
      * intros [_ H]. inversion H. discriminate.
    + split.
      * intros [H1 H2]. auto.
      * intros [H1 H2]. inversion H2. auto.
Qed.

Lemma firstRejection_Some (rank : nat -> nat) (promises : list (option string)) :
  forall i best r reason,
    firstRejection rank i promises best = Some (r, reason) ->
    best = Some (r, reason) \/ In (Some reason) promises.
Proof.
  induction promises as [|p promises IH]; intros i best r reason; simpl.
  - auto.
  - intros H. apply IH in H. destruct H as [H|H]; [|auto].
    destruct p as [reason'|]; [|auto].
    destruct best as [[r' reason'']|].
    + destruct (rank i <? r')%nat; [|auto]. inversion H. auto.
    + inversion H. auto.
Qed.

Lemma promiseAll_None (rank : nat -> nat) (promises : list (option string)) :
  promiseAll rank promises = None <-> Forall (fun p => p = None) promises.
Proof.
  unfold promiseAll.
  destruct (firstRejection rank 0 promises None) as [[r reason]|] eqn:E; simpl.
  - split; [discriminate|]. intros H.
    assert (firstRejection rank 0 promises None = None)
      by (apply firstRejection_None; auto).
    congruence.
  - apply firstRejection_None in E. tauto.
Qed.

Lemma promiseAll_Some (rank : nat -> nat) (promises : list (option string))
  (reason : string) :
  promiseAll rank promises = Some reason -> In (Some reason) promises.
Proof.
  unfold promiseAll.
  destruct (firstRejection rank 0 promises None) as [[r reason']|] eqn:E;
    simpl; [|discriminate].
  intros H. inversion H; subst.
  apply firstRejection_Some in E as [E|E]; [discriminate | assumption].
Qed.

Lemma jsPromises_None (env : Env) (n : nat) :
  Forall (fun p => p = None)
    (map (fun i => workerPromise "JS" (jsWorkerOutcome env i)) (seq 0 n))
  <-> forall i, i < n -> jsWorkerOutcome env i = exited 0.
Proof.
  rewrite Forall_forall. split.
  - intros H i Hi. apply (workerPromise_None "JS"). apply H.
    apply in_map_iff. exists i. split; auto. apply in_seq. lia.
  - intros H p Hp. apply in_map_iff in Hp as (i & <- & Hi).
    apply in_seq in Hi. apply workerPromise_None. apply H. lia.
Qed.

(** The emission succeeds exactly when every worker exits with code 0;
    otherwise it throws, naming the stage and the reason of a failed
    worker. *)
Lemma emissionResult_spec (env : Env) (n : nat) :
  (emissionResult env n = Ok tt <-> allWorkersExitZero env n)
  /\ emissionResult env n <> Hang
  /\ forall message,
       emissionResult env n = Throw message ->
       (exists i reason,
          i < n
          /\ workerPromise "JS" (jsWorkerOutcome env i) = Some reason
          /\ message = "JS emission failed: " ++ reason)%string
       \/ (exists reason,
             (forall i, i < n -> jsWorkerOutcome env i = exited 0)
             /\ workerPromise "DTS" (dtsWorkerOutcome env) = Some reason
             /\ message = "DTS emission failed: " ++ reason)%string.
Proof.
  unfold emissionResult, allWorkersExitZero.
  destruct (promiseAll _ _) as [reason|] eqn:Ejs.
  - split; [|split]; try discriminate.
    + split; [discriminate|]. intros [Hall _].
      apply jsPromises_None in Hall.
      apply (promiseAll_None (jsWorkerRank env)) in Hall.
      rewrite Hall in Ejs. discriminate.
    + intros message H. inversion H; subst. left.
      apply promiseAll_Some, in_map_iff in Ejs as (i & Hi & Hin).
      apply in_seq in Hin. exists i, reason. repeat split; auto. lia.
  - apply promiseAll_None in Ejs.
    pose proof (proj1 (jsPromises_None env n) Ejs) as Hjs. clear Ejs.
    destruct (workerPromise "DTS" (dtsWorkerOutcome env)) as [reason|] eqn:Edts.
    + split; [|split]; try discriminate.
      * split; [discriminate|]. intros [_ Hdts].
        apply (workerPromise_None "DTS") in Hdts. congruence.
      * intros message H. inversion H; subst. right. eauto.
    + apply workerPromise_None in Edts.
      split; [|split]; try discriminate.
      split; auto.
Qed.

(** **** The emission *)

Lemma forEach_spawn (kind : WorkerKind) (batches : list (list string)) :
  forall w,
    forEach batches (fun batch => spawn kind batch) w
    = (Ok tt,
       mkWorld (clockReads w) (logs w) (metrics w) (completed w)
         (directories w) (written w) (staged w) (stagedInput w) (saved w)
         (spawned w ++ map (pair kind) batches)).
Proof.
  induction batches as [|b batches IH]; intros w.
  - simpl. unfold ret. rewrite app_nil_r. now destruct w.
  - cbn [forEach]. unfold bind at 1. unfold spawn at 1, modify.
    rewrite IH. world_simpl. unfold JS.push.
    rewrite <- app_assoc. reflexivity.
Qed.

(** With the sources saved and the compiler found, the emission spawns one
    transpile worker per batch and the declaration worker over all files,
    and ends as the workers' outcomes say. *)
Lemma fastEmit_result (env : Env) (hasMetrics : bool)
  (additionalFilePaths : list string) (baseDirPath : string) (w : World)
  (jsBatches : list (list string)) :
  saveError env = None ->
  typescriptResolveError env = None ->
  makeBatches (cpuCount env) (flatPaths w ++ additionalFilePaths) = Some jsBatches ->
  exists w',
    fastEmitTranspiledCode env hasMetrics additionalFilePaths baseDirPath w
    = (emissionResult env (length jsBatches), w')
    /\ spawned w'
       = spawned w ++ map (pair jsWorker) jsBatches
           ++ [(dtsWorker, flatPaths w ++ additionalFilePaths)]
    /\ saved w' = saved w ++ flatPaths w
    /\ completed w' = completed w.
Proof.
  intros Hsave Hts Hb. unfold fastEmitTranspiledCode.
  rewrite Hb. unfold saveProjects. rewrite Hsave, Hts.
  unfold emissionResult, emitMetric.
  set (announce := ("  Emitting .js (" ++ _)%string).
  set (allFilePaths := flatPaths w ++ additionalFilePaths).
  destruct hasMetrics; run_effects;
    rewrite forEach_spawn; unfold spawn; run_effects;
    destruct (promiseAll _ _) as [r1|];
    destruct (workerPromise "DTS" (dtsWorkerOutcome env)) as [r2|];
    (eexists; split; [reflexivity|]); world_simpl; unfold JS.push, flatPaths;
    rewrite <- ?app_assoc; repeat split; reflexivity.
Qed.

(** Once the emission has thrown, the run has: nothing after it happens. *)
Lemma emission_aborts_run (env : Env) (hasMetrics : bool)
  (baseOptions : Options.BaseOptions) (w0 w1 w2 : World)
  (startTime emitStart : Z) (directWritten : list string) (message : string) :
  stagePhase env hasMetrics baseOptions w0
  = (Ok (startTime, directWritten, emitStart), w1) ->
  emitPhase env hasMetrics (makeOptions env baseOptions) directWritten w1
  = (Throw message, w2) ->
  generate env hasMetrics baseOptions w0 = (Throw message, w2).
Proof.
  intros Hstage Hemit. rewrite generate_phases.
  unfold bind at 1. rewrite Hstage. unfold bind at 1. now rewrite Hemit.
Qed.

(** C8, as the code has it.  In compiled mode, once the sources are saved
    and the compiler is found, [fastEmitTranspiledCode] returns exactly when
    every transpile worker and the declaration worker exit with code 0.
    Otherwise it throws an error that names the failed stage, JS or DTS, and
    the reason of a failed worker of that stage (its exit code or its error),
    the transpile stage being reported first; the error does not say which
    batch failed.  An emission that throws ends the run with that error. *)
Theorem emission_fails_iff_worker_fails (env : Env) (hasMetrics : bool)
  (additionalFilePaths : list string) (baseDirPath : string) (w : World) :
  saveError env = None ->
  typescriptResolveError env = None ->
  let emitted :=
    fastEmitTranspiledCode env hasMetrics additionalFilePaths baseDirPath w in
  exists jsBatches,
    makeBatches (cpuCount env) (flatPaths w ++ additionalFilePaths) = Some jsBatches
    /\ spawned (snd emitted)
       = spawned w ++ map (pair jsWorker) jsBatches
           ++ [(dtsWorker, flatPaths w ++ additionalFilePaths)]
    /\ (fst emitted = Ok tt <-> allWorkersExitZero env (length jsBatches))
    /\ fst emitted <> Hang
    /\ (forall message,
          fst emitted = Throw message ->
          (exists i reason,
             i < length jsBatches
             /\ workerPromise "JS" (jsWorkerOutcome env i) = Some reason
             /\ message = "JS emission failed: " ++ reason)%string
          \/ (exists reason,
                (forall i, i < length jsBatches -> jsWorkerOutcome env i = exited 0)
                /\ workerPromise "DTS" (dtsWorkerOutcome env) = Some reason
                /\ message = "DTS emission failed: " ++ reason)%string)
    /\ (forall baseOptions w0 w1 startTime emitStart message,
          stagePhase env hasMetrics baseOptions w0
          = (Ok (startTime, additionalFilePaths, emitStart), w1) ->
          emitTranspiledCodeOf (makeOptions env baseOptions) = true ->
          baseDirPath = Options.outputDirPath (makeOptions env baseOptions) ->
          w = snd (log "Transpiling generated code" w1) ->
          fst emitted = Throw message ->
          generate env hasMetrics baseOptions w0 = (Throw message, snd emitted)).
Proof.
  intros Hsave Hts emitted.
  destruct (makeBatches_total (cpuCount env) (flatPaths w ++ additionalFilePaths))
    as [jsBatches Hb].
  destruct (fastEmit_result env hasMetrics additionalFilePaths baseDirPath w
              jsBatches Hsave Hts Hb) as (w' & Hrun & Hspawn & _).
  destruct (emissionResult_spec env (length jsBatches)) as (Hok & Hhang & Hthrow).
  exists jsBatches.
  split; [exact Hb|]. split; [subst emitted; now rewrite Hrun|].
  split; [subst emitted; now rewrite Hrun|].
  split; [subst emitted; now rewrite Hrun|].
  split; [subst emitted; now rewrite Hrun|].
  intros baseOptions w0 w1 startTime emitStart message Hstage Hmode Hdir Hw Hmsg.
  eapply emission_aborts_run; [exact Hstage|].
  unfold emitPhase. rewrite Hmode. unfold bind at 1.
  change (log "Transpiling generated code" w1)
    with (Ok tt, snd (log "Transpiling generated code" w1)).
  rewrite <- Hw, <- Hdir. fold emitted.
  rewrite <- Hmsg. now destruct emitted.
Qed.

(** C8 on a run in compiled mode whose first transpile worker exits with
    code 1: the run ends with the error of the transpile stage. *)
Lemma emission_fails_iff_worker_fails_witness :
  saveError (Examples.failingBatch 0) = None
  /\ typescriptResolveError (Examples.failingBatch 0) = None
  /\ fst (generate (Examples.failingBatch 0) false Examples.base0 emptyWorld)
     = Throw "JS emission failed: Error: JS worker exited with code 1".
Proof.
  split; [reflexivity|]. split; [reflexivity|].
  set (env := Examples.failingBatch 0).
  pose (w1 := snd (stagePhase env false Examples.base0 emptyWorld)).
  pose (w := snd (log "Transpiling generated code" w1)).
  pose (baseDir := Options.outputDirPath (makeOptions env Examples.base0)).
  assert (Hstage : stagePhase env false Examples.base0 emptyWorld
                   = (Ok (0%Z, [], 30%Z), w1)) by (vm_compute; reflexivity).
  destruct (emission_fails_iff_worker_fails env false [] baseDir w
              eq_refl eq_refl)
    as (jsBatches & _ & _ & _ & _ & _ & Habort).
  rewrite (Habort Examples.base0 emptyWorld w1 0%Z 30%Z
             "JS emission failed: Error: JS worker exited with code 1"
             Hstage eq_refl eq_refl eq_refl).
  - reflexivity.
  - vm_compute. reflexivity.
Defined.

(** C8, as the claim has it, fails: whether the first batch alone fails or
    the second alone, the error is the same. *)
Lemma error_does_not_identify_batch : ~ errorCarriesBatchIdentity.
Proof.
  intros [batchOf H].
  assert (Hb : makeBatches 6 (flatPaths Examples.stagedWorld ++ [])
               = Some [["/out/enhance.ts"]; ["/out/helpers.ts"];
                       ["/out/index.ts"]; ["/out/scalars.ts"]])
    by reflexivity.
  assert (Hfails : forall i, i < 4 ->
            onlyBatchFails (Examples.failingBatch i) 4 i).
  { intros i Hi. unfold onlyBatchFails. simpl.
    rewrite Nat.eqb_refl. repeat split; auto; try discriminate.
    intros j _ Hne. apply Nat.eqb_neq in Hne. now rewrite Hne. }
  pose proof (H (Examples.failingBatch 0) false [] "/out" Examples.stagedWorld
                _ 0 _ Hb (Hfails 0 ltac:(lia)) eq_refl) as H0.
  pose proof (H (Examples.failingBatch 1) false [] "/out" Examples.stagedWorld
                _ 1 _ Hb (Hfails 1 ltac:(lia)) eq_refl) as H1.
  vm_compute in H0, H1. rewrite H0 in H1. discriminate H1.
Qed.

(** **** The formatting step *)

(** The body of the [try] block: it logs its start, runs the command, and
    returns or throws as the command does; it touches no file. *)
Lemma runFormatter_spec (env : Env) (hasMetrics : bool)
  (formatter : Options.Formatter) (baseDirPath : string) (w : World) :
  exists w',
    runFormatter env hasMetrics formatter baseDirPath w
    = (match execError env (formatCommand env formatter baseDirPath) with
       | Some message => Throw message
       | None => Ok tt
       end, w')
    /\ sameFiles w w'
    /\ completed w' = completed w
    /\ logs w' = logs w ++ ["Formatting generated code with " ++ formatterName formatter]%string
    /\ reported w' = reported w.
Proof.
  unfold runFormatter, formatCommand, execa, emitMetric, reported, sameFiles.
  destruct formatter;
    [ destruct (accessFails env _) | | ];
    match goal with
    | |- context [execError env ?cmd] =>
        set (command := cmd); destruct (execError env command)
    end;
    destruct hasMetrics;
    run_effects;
    (eexists; split; [reflexivity|]); run_effects; unfold JS.push;
    rewrite ?filter_app, ?map_app, ?app_nil_r; cbn [filter map app];
    rewrite ?app_nil_r; repeat split; reflexivity.
Qed.

Lemma sameFiles_trans (w1 w2 w3 : World) :
  sameFiles w1 w2 -> sameFiles w2 w3 -> sameFiles w1 w3.
Proof. unfold sameFiles. intuition congruence. Qed.

Lemma sameFiles_sym (w1 w2 : World) : sameFiles w1 w2 -> sameFiles w2 w1.
Proof. unfold sameFiles. intuition congruence. Qed.

(** The formatting step returns, whatever the formatter does: a failure
    becomes a warning in the log. *)
Lemma formatStep_spec (env : Env) (hasMetrics : bool)
  (options : Options.GeneratorOptions) (w : World) :
  exists w',
    formatStep env hasMetrics options (Options.outputDirPath options) w
    = (Ok tt, w')
    /\ sameFiles w w'
    /\ completed w' = completed w
    /\ logs w' = logs w ++ formatLogs env options
    /\ reported w' = reported w.
Proof.
  unfold formatStep, formatLogs, formatterFailure.
  destruct (Options.formatGeneratedCode options) as [formatter|].
  - destruct (runFormatter_spec env hasMetrics formatter
                (Options.outputDirPath options) w)
      as (w1 & Hrun & Hfiles & Hdone & Hlogs & Hrep).
    unfold tryCatch. rewrite Hrun.
    destruct (execError env _) as [message|].
    + unfold log, modify. eexists. split; [reflexivity|].
      unfold sameFiles, reported in *. world_simpl. unfold JS.push.
      rewrite Hlogs, <- app_assoc. repeat split; tauto.
    + exists w1. rewrite Hlogs. unfold sameFiles in *. tauto.
  - exists w. unfold ret. rewrite app_nil_r. unfold sameFiles. tauto.
Qed.

Lemma emitMetric_spec (env : Env) (hasMetrics : bool) (name : string)
  (start : Z) (count : option nat) (w : World) :
  isFormattingMetric name = false ->
  exists w',
    emitMetric env hasMetrics name start count w = (Ok tt, w')
    /\ sameFiles w w'
    /\ completed w' = completed w
    /\ logs w' = logs w
    /\ reported w' = reported w ++ (if hasMetrics then [(name, count)] else []).
Proof.
  intros Hname. unfold emitMetric, reported, sameFiles.
  destruct hasMetrics; run_effects; (eexists; split; [reflexivity|]);
    run_effects; unfold JS.push;
    rewrite ?filter_app, ?map_app, ?app_nil_r; cbn [filter map metricName];
    rewrite ?Hname; cbn [negb map metricName metricCount];
    repeat split; reflexivity.
Qed.

(** The last phase always returns: nothing the formatter does makes the run
    fail, and the closing metrics and the completion callback are reached. *)
Lemma finishPhase_spec (env : Env) (hasMetrics : bool)
  (options : Options.GeneratorOptions) (startTime emitStart : Z) (w : World) :
  exists w',
    finishPhase env hasMetrics options startTime emitStart w = (Ok tt, w')
    /\ sameFiles w w'
    /\ completed w' = (hasMetrics || completed w)%bool
    /\ logs w' = logs w ++ formatLogs env options
    /\ reported w'
       = reported w
         ++ (if hasMetrics
             then [("code-emission", None); ("total-generation", None)]
             else []).
Proof.
  unfold finishPhase.
  destruct (formatStep_spec env hasMetrics options w)
    as (w1 & H1 & F1 & C1 & L1 & R1).
  destruct (emitMetric_spec env hasMetrics "code-emission" emitStart None w1
              eq_refl) as (w2 & H2 & F2 & C2 & L2 & R2).
  destruct (emitMetric_spec env hasMetrics "total-generation" startTime None w2
              eq_refl) as (w3 & H3 & F3 & C3 & L3 & R3).
  unfold bind. rewrite H1, H2, H3.
  unfold onComplete, when, modify, ret.
  destruct hasMetrics; (eexists; split; [reflexivity|]);
    unfold sameFiles, reported in *; world_simpl;
    rewrite ?L3, ?L2, ?L1, ?C3, ?C2, ?C1, ?R3, ?R2, ?R1, <- ?app_assoc,
      ?app_nil_r;
    repeat split; try reflexivity; intuition congruence.
Qed.

Lemma isFormattingWarning_warning (message : string) :
  isFormattingWarning (formattingWarning message) = true.
Proof.
  unfold isFormattingWarning, formattingWarning. apply prefix_app. eauto.
Qed.

(** Apart from the warning, the formatting step logs the same whatever the
    formatter does. *)
Lemma formatLogs_filter (env : Env) (options : Options.GeneratorOptions) :
  filter (fun line => negb (isFormattingWarning line)) (formatLogs env options)
  = match Options.formatGeneratedCode options with
    | Some formatter =>
        ["Formatting generated code with " ++ formatterName formatter]%string
    | None => []
    end.
Proof.
  unfold formatLogs.
  destruct (Options.formatGeneratedCode options) as [formatter|]; [|reflexivity].
  cbn [filter].
  replace (isFormattingWarning
             ("Formatting generated code with " ++ formatterName formatter))
    with false by reflexivity.
  cbn [negb]. f_equal.
  destruct (formatterFailure env options); [|reflexivity].
  cbn [filter]. now rewrite isFormattingWarning_warning.
Qed.

(** The staging and the emission do not ask the formatter anything. *)
Lemma beforeFormatting_formatter (env : Env) (hasMetrics : bool)
  (baseOptions : Options.BaseOptions)
  (execError' : string -> option string) (accessFails' : string -> bool) :
  let env' := withFormatterOutcome env execError' accessFails' in
  makeOptions env' baseOptions = makeOptions env baseOptions
  /\ stagePhase env' hasMetrics baseOptions = stagePhase env hasMetrics baseOptions
  /\ emitPhase env' hasMetrics (makeOptions env' baseOptions)
     = emitPhase env hasMetrics (makeOptions env baseOptions).
Proof. repeat split; reflexivity. Qed.

(** C7.  Take a run and the same run with any other outcome of the
    formatter.  Each ends as its stages before the formatting step end, so
    both end alike: a failure of the formatter never makes [generate] fail.
    When those stages succeed the run returns, the closing metrics and the
    completion callback are reached, the files are those the emission left,
    and a failure of the formatter shows as a warning passed to the logging
    callback.  The two runs agree on every file, on the log apart from that
    warning and on the reported metrics apart from the formatter's own
    timings. *)
Theorem formatter_failure_not_fatal (env : Env) (hasMetrics : bool)
  (baseOptions : Options.BaseOptions) (w : World)
  (execError' : string -> option string) (accessFails' : string -> bool) :
  let options := makeOptions env baseOptions in
  let run := generate env hasMetrics baseOptions w in
  let run' :=
    generate (withFormatterOutcome env execError' accessFails') hasMetrics
      baseOptions w in
  let before :=
    beforeFormatting (stagePhase env hasMetrics baseOptions)
      (emitPhase env hasMetrics options) w in
  fst run = fst before
  /\ fst run' = fst run
  /\ sameApartFromFormatting (snd run) (snd run')
  /\ (fst before = Ok tt ->
      fst run = Ok tt
      /\ sameFiles (snd before) (snd run)
      /\ completed (snd run) = (hasMetrics || completed (snd before))%bool
      /\ logs (snd run) = logs (snd before) ++ formatLogs env options
      /\ forall message,
           formatterFailure env options = Some message ->
           exists earlier,
             logs (snd run) = earlier ++ [formattingWarning message]).
Proof.
  intros options run run' before.
  destruct (beforeFormatting_formatter env hasMetrics baseOptions
              execError' accessFails') as (Hopt & Hstage & Hemit).
  cbv zeta in Hopt, Hstage, Hemit.
  subst run run' before. rewrite !generate_phases.
  rewrite Hstage, Hemit, Hopt. fold options.
  unfold beforeFormatting, bind.
  destruct (stagePhase env hasMetrics baseOptions w)
    as [[[[startTime directWritten] emitStart]|e|] w1];
    cbn [fst snd];
    try (split; [reflexivity|]; split; [reflexivity|];
         split; [unfold sameApartFromFormatting, sameFiles; tauto | discriminate]).
  destruct (emitPhase env hasMetrics options directWritten w1)
    as [[[]|e|] w2];
    cbn [fst snd];
    try (split; [reflexivity|]; split; [reflexivity|];
         split; [unfold sameApartFromFormatting, sameFiles; tauto | discriminate]).
  destruct (finishPhase_spec env hasMetrics options startTime emitStart w2)
    as (w3 & H3 & F3 & C3 & L3 & R3).
  destruct (finishPhase_spec (withFormatterOutcome env execError' accessFails')
              hasMetrics options startTime emitStart w2)
    as (w3' & H3' & F3' & C3' & L3' & R3').
  rewrite H3, H3'. cbn [fst snd].
  split; [reflexivity|]. split; [reflexivity|]. split.
  - unfold sameApartFromFormatting. split; [|split; [|split]].
    + eapply sameFiles_trans; [apply sameFiles_sym; exact F3 | exact F3'].
    + congruence.
    + rewrite L3, L3', !filter_app, !formatLogs_filter. reflexivity.
    + congruence.
  - intros _. split; [reflexivity|]. split; [exact F3|].
    split; [exact C3|]. split; [exact L3|].
    intros message Hfail. rewrite L3. unfold formatLogs.
    unfold formatterFailure in Hfail |- *.
    destruct (Options.formatGeneratedCode options) as [formatter|];
      [|discriminate].
    rewrite Hfail.
    exists (logs w2 ++ ["Formatting generated code with " ++ formatterName formatter]%string).
    rewrite <- app_assoc. reflexivity.
Qed.

(** C7 on [Examples.env0], whose formatter fails: the run in compiled mode
    returns, completes, and the warning is the last line logged. *)
Example formatter_failure_run :
  let run := generate Examples.env0 true Examples.base0 emptyWorld in
  fst run = Ok tt
  /\ completed (snd run) = true
  /\ last (logs (snd run)) EmptyString
     = "Warning: Code formatting failed: Command failed: tsc".
Proof. vm_compute. repeat split; reflexivity. Qed.

End Run.

(* ===================================================================== *)
(** ** The transpile batches of a run *)
(* ===================================================================== *)

Section TranspileBatches.
Import Spec Eff Sys GenerateCode.

(** C9.  In compiled mode the file list of a run is never empty, the
    auxiliary files being staged before the emission; and a file list that
    is not empty is cut into N transpile batches with 1 <= N <= 8 and
    N <= max(1, cpus - 2): the batches are non-empty, their concatenation is
    the file list, and when the paths are pairwise distinct every path lies
    in exactly one batch. *)
Theorem batches_partition (cpus : nat) (allFilePaths : list string) :
  (forall env hasMetrics baseOptions w0 w1 startTime directWritten emitStart,
     stagePhase env hasMetrics baseOptions w0
     = (Ok (startTime, directWritten, emitStart), w1) ->
     flatPaths (snd (log "Transpiling generated code" w1)) ++ directWritten <> [])
  /\
  (allFilePaths <> [] ->
  exists jsBatches,
    makeBatches cpus allFilePaths = Some jsBatches
    /\ 1 <= length jsBatches <= 8
    /\ (Z.of_nat (length jsBatches) <= Z.max 1 (Z.of_nat cpus - 2))%Z
    /\ concat jsBatches = allFilePaths
    /\ Forall (fun batch => batch <> []) jsBatches
    /\ (NoDup allFilePaths ->
        forall path, In path allFilePaths ->
        exists i, i < length jsBatches /\ In path (nth i jsBatches [])
          /\ forall j, j < length jsBatches -> In path (nth j jsBatches []) -> j = i)).
Proof.
  split.
  { intros env hasMetrics baseOptions w0 w1 startTime directWritten emitStart H.
    apply stagePhase_files in H. unfold log, modify. cbn [snd].
    unfold flatPaths in *. world_simpl.
    destruct (map fst (staged w1) ++ map fst (stagedInput w1)); [contradiction|].
    discriminate. }
  intros Hne. unfold makeBatches.
  destruct (jsWorkerCount_bounds cpus) as [Hw Hmax].
  set (w := Z.to_nat (jsWorkerCount cpus)) in *.
  assert (Hw1 : 1 <= w <= 8) by lia.
  assert (Hlen : 1 <= length allFilePaths).
  { destruct allFilePaths; [congruence | simpl; lia]. }
  set (bs := ceilDiv (length allFilePaths) w).
  assert (Hbs : 1 <= bs) by (apply ceilDiv_pos; lia).
  assert (Hcov : length allFilePaths <= bs * w) by (apply ceilDiv_covers; lia).
  destruct (batchLoop_spec (length allFilePaths) allFilePaths bs Hbs 0 [] ltac:(lia))
    as (bl & Hrun & Hcat & Hall & Hcount).
  simpl in Hrun, Hcat. exists bl. split; [exact Hrun|].
  assert (HN : length bl <= w) by nia.
  assert (H1 : 1 <= length bl).
  { destruct bl; simpl in *; [congruence | lia]. }
  repeat split; try lia; auto.
  - eapply Forall_impl; [|exact Hall]. simpl. tauto.
  - intros Hnd path Hin. rewrite <- Hcat in Hin, Hnd.
    destruct (concat_In_nth _ _ Hin) as (i & Hi & Hx).
    exists i. repeat split; auto.
    intros j Hj Hxj. eapply concat_NoDup_nth; eauto.
Qed.

(** C9, on the batches of [Examples.env0]'s machine (6 processors). *)
Lemma batches_partition_witness :
  ["a"; "b"; "c"; "d"; "e"] <> []
  /\ exists jsBatches,
       makeBatches 6 ["a"; "b"; "c"; "d"; "e"] = Some jsBatches
       /\ 1 <= length jsBatches <= 8.
Proof.
  split; [discriminate|].
  destruct (proj2 (batches_partition 6 ["a"; "b"; "c"; "d"; "e"])
              ltac:(discriminate))
    as (bl & H1 & H2 & _).
  exists bl. split; assumption.
Defined.

End TranspileBatches.

(* ===================================================================== *)
(** * Further properties of the code *)
(* ===================================================================== *)

Local Open Scope string_scope.
Local Open Scope list_scope.

(** ** Paths *)

Section Paths.
Import Extra.

Lemma append_assoc (a b c : string) :
  ((a ++ b) ++ c = a ++ (b ++ c))%string.
Proof. induction a as [|x a IH]; simpl; [reflexivity | now rewrite IH]. Qed.

Lemma append_empty_r (a : string) : (a ++ EmptyString)%string = a.
Proof. induction a as [|x a IH]; simpl; [reflexivity | now rewrite IH]. Qed.

Lemma append_inv_l (a b c : string) :
  (a ++ b = a ++ c)%string -> b = c.
Proof.
  induction a as [|x a IH]; simpl; intros H; [assumption|].
  inversion H. auto.
Qed.

Lemma splitSlash_nonempty (s : string) : Path.splitSlash s <> [].
Proof.
  induction s as [|c s IH]; simpl; [discriminate|].
  destruct (Ascii.eqb c Path.slash); [discriminate|].
  destruct (Path.splitSlash s); [contradiction | discriminate].
Qed.

Lemma splitSlash_noslash (s : string) :
  hasSlash s = false -> Path.splitSlash s = [s].
Proof.
  induction s as [|c s IH]; simpl; [reflexivity|].
  intros H. apply orb_false_iff in H as [Hc Hs].
  rewrite Hc, (IH Hs). reflexivity.
Qed.

(** Splitting at a separator splits the list of segments. *)
Lemma splitSlash_app (a b : string) :
  Path.splitSlash (a ++ "/" ++ b)
  = Path.splitSlash a ++ Path.splitSlash b.
Proof.
  induction a as [|c a IH].
  - reflexivity.
  - change ((String c a ++ "/" ++ b)%string)
      with (String c (a ++ "/" ++ b)%string).
    cbn [Path.splitSlash]. rewrite IH.
    destruct (Ascii.eqb c Path.slash); [reflexivity|].
    pose proof (splitSlash_nonempty a) as Hne.
    destruct (Path.splitSlash a); [contradiction | reflexivity].
Qed.

Lemma splitSlash_segments (s : string) :
  Forall (fun seg => hasSlash seg = false) (Path.splitSlash s).
Proof.
  induction s as [|c s IH]; simpl; [repeat constructor|].
  destruct (Ascii.eqb c Path.slash) eqn:E.
  - constructor; auto.
  - pose proof (splitSlash_nonempty s) as Hne.
    destruct (Path.splitSlash s) as [|seg segs]; [contradiction|].
    inversion IH; subst. constructor; auto. simpl. now rewrite E.
Qed.

(** Joining segments and splitting again gives the segments back. *)
Lemma splitSlash_join (segs : list string) :
  segs <> [] -> Forall (fun seg => hasSlash seg = false) segs ->
  Path.splitSlash (JS.join "/" segs) = segs.
Proof.
  induction segs as [|x segs IH]; [congruence|].
  intros _ Hall. inversion Hall as [|? ? Hx Hrest]; subst.
  destruct segs as [|y segs].
  - simpl. now apply splitSlash_noslash.
  - change (JS.join "/" (x :: y :: segs))
      with (x ++ "/" ++ JS.join "/" (y :: segs))%string.
    rewrite splitSlash_app, splitSlash_noslash by assumption.
    rewrite IH by (auto; discriminate). reflexivity.
Qed.

Lemma join_snoc (segs : list string) (seg : string) :
  JS.join "/" (segs ++ [seg])
  = match segs with
    | [] => seg
    | _ => (JS.join "/" segs ++ "/" ++ seg)%string
    end.
Proof.
  induction segs as [|x segs IH]; [reflexivity|].
  destruct segs as [|y segs].
  - reflexivity.
  - change (JS.join "/" ((x :: y :: segs) ++ [seg]))
      with (x ++ "/" ++ JS.join "/" ((y :: segs) ++ [seg]))%string.
    rewrite IH.
    change (JS.join "/" (x :: y :: segs))
      with (x ++ "/" ++ JS.join "/" (y :: segs))%string.
    now rewrite !append_assoc.
Qed.

Lemma ordinary_step (allowAboveRoot : bool) (res : list string) (seg : string) :
  isOrdinarySegment seg = true ->
  Path.normalizeStep allowAboveRoot res seg = res ++ [seg].
Proof.
  unfold isOrdinarySegment, Path.normalizeStep. intros H.
  apply andb_true_iff in H as [H Hdd]. apply andb_true_iff in H as [H Hd].
  apply andb_true_iff in H as [He _].
  apply negb_true_iff in He, Hd, Hdd. now rewrite He, Hd, Hdd.
Qed.

Lemma ordinary_fold (allowAboveRoot : bool) (segs res : list string) :
  Forall (fun seg => isOrdinarySegment seg = true) segs ->
  fold_left (Path.normalizeStep allowAboveRoot) segs res = res ++ segs.
Proof.
  revert res. induction segs as [|x segs IH]; intros res H; simpl.
  - now rewrite app_nil_r.
  - inversion H; subst. rewrite ordinary_step, IH by assumption.
    now rewrite <- app_assoc.
Qed.

Lemma empty_step (allowAboveRoot : bool) (res : list string) :
  Path.normalizeStep allowAboveRoot res EmptyString = res.
Proof. reflexivity. Qed.

Lemma ordinary_parts (seg : string) :
  isOrdinarySegment seg = true ->
  seg <> EmptyString /\ hasSlash seg = false /\ seg <> "." /\ seg <> "..".
Proof.
  unfold isOrdinarySegment. intros H.
  apply andb_true_iff in H as [H Hdd]. apply andb_true_iff in H as [H Hd].
  apply andb_true_iff in H as [He Hs].
  apply negb_true_iff in He, Hs, Hd, Hdd.
  apply String.eqb_neq in Hd, Hdd.
  repeat split; auto. intros ->. discriminate.
Qed.

Lemma ordinary_noslash (segs : list string) :
  Forall (fun seg => isOrdinarySegment seg = true) segs ->
  Forall (fun seg => hasSlash seg = false) segs.
Proof.
  apply Forall_impl. intros seg H. now apply ordinary_parts in H.
Qed.

Lemma hasSlash_app (a b : string) :
  hasSlash (a ++ b) = hasSlash a || hasSlash b.
Proof.
  induction a as [|c a IH]; simpl; [reflexivity|].
  now rewrite IH, orb_assoc.
Qed.

Lemma noslash_start (s : string) :
  hasSlash s = false -> Path.startsWithSlash s = false.
Proof.
  destruct s as [|c s]; simpl; [reflexivity|].
  intros H. now apply orb_false_iff in H.
Qed.

Lemma endsWithSlash_noslash (s : string) :
  hasSlash s = false -> Path.endsWithSlash s = false.
Proof.
  induction s as [|c s IH]; [reflexivity|].
  simpl. intros H. apply orb_false_iff in H as [Hc Hs].
  destruct s; [exact Hc | now apply IH].
Qed.

Lemma endsWithSlash_app (a b : string) :
  b <> EmptyString -> Path.endsWithSlash (a ++ b) = Path.endsWithSlash b.
Proof.
  intros Hb. induction a as [|c a IH]; [reflexivity|].
  change ((String c a ++ b)%string) with (String c (a ++ b)%string).
  cbn [Path.endsWithSlash]. rewrite IH.
  destruct (a ++ b)%string eqn:E; [|reflexivity].
  destruct a; simpl in E; [contradiction | discriminate].
Qed.

(** A file name made of a slash-free name and the extension is an ordinary
    segment. *)
Lemma file_name_ordinary (name : string) :
  hasSlash name = false -> isOrdinarySegment (name ++ ".ts") = true.
Proof.
  intros H. unfold isOrdinarySegment.
  rewrite hasSlash_app, H.
  assert (Hlen : 3 <= String.length (name ++ ".ts")).
  { clear H. induction name as [|c name IH]; simpl in *; lia. }
  destruct (String.eqb_spec (name ++ ".ts") ".") as [E|_];
    [rewrite E in Hlen; simpl in Hlen; lia|].
  destruct (String.eqb_spec (name ++ ".ts") "..") as [E|_];
    [rewrite E in Hlen; simpl in Hlen; lia|].
  destruct (name ++ ".ts")%string; [simpl in Hlen; lia | reflexivity].
Qed.

Lemma join_ordinary_nonempty (segs : list string) :
  segs <> [] -> Forall (fun seg => isOrdinarySegment seg = true) segs ->
  JS.join "/" segs <> EmptyString.
Proof.
  destruct segs as [|x segs]; [congruence|]. intros _ H.
  inversion H as [|? ? Hx _]; subst. apply ordinary_parts in Hx as [Hx _].
  destruct segs; simpl; destruct x; try congruence; discriminate.
Qed.

(** **** [path.posix.join] on ordinary segments *)

Lemma dots_step (n : nat) :
  Path.normalizeStep true (repeat ".." n) ".." = repeat ".." (S n).
Proof.
  unfold Path.normalizeStep. simpl.
  destruct (rev (repeat ".." n)) as [|last rest] eqn:E.
  - destruct n; [reflexivity|]. simpl in E.
    apply app_eq_nil in E as [_ E]. discriminate.
  - assert (Hlast : last = "..").
    { assert (H : In last (rev (repeat ".." n))) by (rewrite E; now left).
      apply in_rev in H. now apply repeat_spec in H. }
    subst last. simpl. now rewrite <- repeat_cons.
Qed.

Lemma dots_fold (k n : nat) :
  fold_left (Path.normalizeStep true) (repeat ".." k) (repeat ".." n)
  = repeat ".." (n + k).
Proof.
  revert n. induction k as [|k IH]; intros n; simpl.
  - now rewrite Nat.add_0_r.
  - rewrite dots_step, IH. f_equal. lia.
Qed.

(** Joining some [..] and then ordinary segments changes nothing: the
    result is the segments separated by slashes. *)
Lemma join_relative (k : nat) (segs : list string) :
  segs <> [] ->
  Forall (fun seg => isOrdinarySegment seg = true) segs ->
  Path.join (repeat ".." (S k) ++ segs)
  = JS.join "/" (repeat ".." (S k) ++ segs).
Proof.
  intros Hne Hord.
  assert (Hnoslash : Forall (fun seg => hasSlash seg = false)
                       (repeat ".." (S k) ++ segs)).
  { apply Forall_app. split; [|now apply ordinary_noslash].
    apply Forall_forall. intros x Hx. apply repeat_spec in Hx. now subst. }
  assert (Hfilter : filter (fun a => negb (Path.isEmpty a))
                      (repeat ".." (S k) ++ segs)
                    = repeat ".." (S k) ++ segs).
  { apply forallb_filter_id. apply forallb_forall. intros x Hx.
    apply in_app_iff in Hx as [Hx|Hx].
    - apply repeat_spec in Hx. now subst.
    - rewrite Forall_forall in Hord. apply Hord, ordinary_parts in Hx.
      destruct x; [tauto | reflexivity]. }
  assert (Hfold : fold_left (Path.normalizeStep true)
                    (repeat ".." (S k) ++ segs) []
                  = repeat ".." (S k) ++ segs).
  { rewrite fold_left_app.
    change (fold_left (Path.normalizeStep true) (repeat ".." (S k)) [])
      with (fold_left (Path.normalizeStep true) (repeat ".." (S k))
              (repeat ".." 0)).
    rewrite (dots_fold (S k) 0). cbn [Nat.add].
    apply ordinary_fold. exact Hord. }
  destruct (exists_last Hne) as (front & lastSeg & Hlast).
  assert (HlastOrd : isOrdinarySegment lastSeg = true).
  { rewrite Forall_forall in Hord. apply Hord. rewrite Hlast.
    apply in_app_iff. right. now left. }
  assert (Hend : Path.endsWithSlash (JS.join "/" (repeat ".." (S k) ++ segs))
                 = false).
  { rewrite Hlast, app_assoc, join_snoc.
    apply ordinary_parts in HlastOrd as (Hne' & Hns & _).
    destruct (repeat ".." (S k) ++ front).
    - now apply endsWithSlash_noslash.
    - rewrite endsWithSlash_app.
      + rewrite endsWithSlash_app by assumption. now apply endsWithSlash_noslash.
      + destruct lastSeg; [congruence | discriminate]. }
  unfold Path.join. rewrite Hfilter.
  revert Hnoslash Hfold Hend. cbn [repeat app].
  set (rest := repeat ".." k ++ segs). intros Hnoslash Hfold Hend.
  assert (Htail : exists tail,
            JS.join "/" (".." :: rest) = String "." (String "." tail)).
  { destruct rest; eexists; reflexivity. }
  destruct Htail as [tail Htail].
  unfold Path.normalize, Path.normalizeString.
  assert (Hstart : Path.startsWithSlash (JS.join "/" (".." :: rest)) = false)
    by (rewrite Htail; reflexivity).
  assert (Hempty : Path.isEmpty (JS.join "/" (".." :: rest)) = false)
    by (rewrite Htail; reflexivity).
  rewrite Hend, Hstart, Hempty. cbn [negb].
  rewrite splitSlash_join by (assumption || discriminate).
  now rewrite Hfold, Hempty.
Qed.

(** X1.  For a referenced name that is an ordinary path segment (every
    identifier is), the import line of an input type reads from
    [../inputs/<name>] and that of an enum from [../../enums/<name>]: the
    joined path is not altered by normalization. *)
Theorem import_lines_shape (name : string) :
  isOrdinarySegment name = true ->
  TypeClass.inputImportLine name
  = ("import { " ++ name ++ " } from "
       ++ JS.quoted ("../inputs/" ++ name) ++ ";")%string
  /\ TypeClass.enumImportLine name
     = ("import { " ++ name ++ " } from "
          ++ JS.quoted ("../../enums/" ++ name) ++ ";")%string.
Proof.
  intros Hord. unfold TypeClass.inputImportLine, TypeClass.enumImportLine.
  assert (H1 : Path.join [".."; "inputs"; name] = ("../inputs/" ++ name)%string).
  { apply (join_relative 0 ["inputs"; name]); [discriminate|].
    repeat constructor; assumption. }
  assert (H2 : Path.join [".."; ".."; "enums"; name]
               = ("../../enums/" ++ name)%string).
  { apply (join_relative 1 ["enums"; name]); [discriminate|].
    repeat constructor; assumption. }
  now rewrite H1, H2.
Qed.

(** X1 on the enum [Color] of the end-to-end scenario. *)
Lemma import_lines_shape_witness :
  isOrdinarySegment "Color" = true
  /\ TypeClass.enumImportLine "Color"
     = ("import { Color } from " ++ JS.quoted "../../enums/Color" ++ ";")%string.
Proof.
  split; [reflexivity|].
  exact (proj2 (import_lines_shape "Color" eq_refl)).
Defined.

(** **** [path.resolve] *)

Lemma resolveFrom_acc (args : list string) (acc : string) :
  Path.resolveFrom args acc
  = ((fst (Path.resolveFrom args EmptyString) ++ acc)%string,
     snd (Path.resolveFrom args EmptyString)).
Proof.
  revert acc. induction args as [|path args IH]; intros acc.
  - reflexivity.
  - cbn [Path.resolveFrom]. destruct (Path.isEmpty path); [apply IH|].
    destruct (Path.startsWithSlash path).
    + cbn [fst snd]. now rewrite !append_assoc.
    + rewrite IH. rewrite (IH (path ++ "/" ++ EmptyString)%string).
      cbn [fst snd]. now rewrite !append_assoc.
Qed.

Lemma resolveFrom_cwd (args : list string) (cwd acc : string) :
  Path.startsWithSlash cwd = true ->
  snd (Path.resolveFrom (args ++ [cwd]) acc) = true.
Proof.
  intros Hcwd. revert acc. induction args as [|path args IH]; intros acc.
  - simpl. destruct cwd; [discriminate|]. cbn [Path.isEmpty]. now rewrite Hcwd.
  - cbn [app Path.resolveFrom]. destruct (Path.isEmpty path); [apply IH|].
    destruct (Path.startsWithSlash path); [reflexivity | apply IH].
Qed.

(** What is resolved so far is empty or ends with a separator. *)
Lemma resolveFrom_trailing (args : list string) :
  fst (Path.resolveFrom args EmptyString) = EmptyString
  \/ exists q, fst (Path.resolveFrom args EmptyString) = (q ++ "/")%string.
Proof.
  induction args as [|path args IH]; [now left|].
  cbn [Path.resolveFrom]. destruct (Path.isEmpty path); [exact IH|].
  right. destruct (Path.startsWithSlash path).
  - exists path. reflexivity.
  - rewrite resolveFrom_acc. cbn [fst].
    exists (fst (Path.resolveFrom args EmptyString) ++ path)%string.
    now rewrite !append_assoc.
Qed.

Lemma resolveFrom_cwd_nonempty (args : list string) (cwd : string) :
  Path.startsWithSlash cwd = true ->
  exists q, fst (Path.resolveFrom (args ++ [cwd]) EmptyString) = (q ++ "/")%string.
Proof.
  intros Hcwd.
  destruct (resolveFrom_trailing (args ++ [cwd])) as [E|H]; [|exact H].
  exfalso. revert E. induction args as [|path args IH].
  - simpl. destruct cwd; [discriminate|]. cbn [Path.isEmpty].
    rewrite Hcwd. discriminate.
  - cbn [app Path.resolveFrom]. destruct (Path.isEmpty path) eqn:Ep; [exact IH|].
    destruct (Path.startsWithSlash path).
    + destruct path; discriminate.
    + rewrite resolveFrom_acc. cbn [fst]. intros E.
      destruct (fst (Path.resolveFrom (args ++ [cwd]) EmptyString));
        [|discriminate].
      destruct path; discriminate.
Qed.

(** Normalization without leave to climb above the root keeps only ordinary
    segments. *)
Lemma normalize_fold_ordinary (segs res : list string) :
  Forall (fun seg => hasSlash seg = false) segs ->
  Forall (fun seg => isOrdinarySegment seg = true) res ->
  Forall (fun seg => isOrdinarySegment seg = true)
    (fold_left (Path.normalizeStep false) segs res).
Proof.
  revert res. induction segs as [|seg segs IH]; intros res Hsegs Hres;
    [exact Hres|].
  inversion Hsegs as [|? ? Hseg Hrest]; subst. simpl. apply IH; [exact Hrest|].
  unfold Path.normalizeStep.
  destruct (Path.isEmpty seg) eqn:Ee; [exact Hres|].
  destruct (String.eqb seg ".") eqn:Ed; [exact Hres|].
  destruct (String.eqb seg "..") eqn:Edd; simpl.
  - destruct (rev res) as [|last rest]; [constructor|].
    destruct (String.eqb last ".."); [exact Hres|].
    rewrite Forall_forall in *. intros x Hx. apply Hres.
    destruct res as [|r res]; [contradiction|].
    rewrite (app_removelast_last EmptyString (l := r :: res)) by discriminate.
    apply in_app_iff. now left.
  - apply Forall_app. split; [exact Hres|]. constructor; [|constructor].
    unfold isOrdinarySegment. now rewrite Ee, Hseg, Ed, Edd.
Qed.

(** With an absolute working directory, [path.resolve] returns the root
    followed by ordinary segments. *)
Lemma resolve_resolved (cwd : string) (args : list string) :
  Path.startsWithSlash cwd = true -> isResolved (Path.resolve cwd args).
Proof.
  intros Hcwd. unfold Path.resolve.
  destruct (Path.resolveFrom (rev args ++ [cwd]) EmptyString) as [p abs] eqn:E.
  pose proof (resolveFrom_cwd (rev args) cwd EmptyString Hcwd) as Habs.
  rewrite E in Habs. cbn [snd] in Habs. subst abs. cbn [negb].
  unfold Path.normalizeString. eexists. split; [|reflexivity].
  apply normalize_fold_ordinary; [apply splitSlash_segments | constructor].
Qed.

Lemma resolved_split (segs : list string) :
  Forall (fun seg => isOrdinarySegment seg = true) segs ->
  fold_left (Path.normalizeStep false)
    (Path.splitSlash ("/" ++ JS.join "/" segs)) []
  = segs.
Proof.
  intros Hord.
  change ("/" ++ JS.join "/" segs)%string
    with (EmptyString ++ "/" ++ JS.join "/" segs)%string.
  rewrite splitSlash_app. cbn [Path.splitSlash app fold_left].
  rewrite empty_step. destruct segs as [|x segs]; [reflexivity|].
  rewrite splitSlash_join by (discriminate || now apply ordinary_noslash).
  now apply (ordinary_fold false (x :: segs) []).
Qed.

(** Appending an ordinary segment to a resolved path. *)
Lemma appendSegment_resolved (segs : list string) (seg : string) :
  Forall (fun s => isOrdinarySegment s = true) segs ->
  ("/" ++ JS.join "/" (segs ++ [seg]))%string
  = appendSegment ("/" ++ JS.join "/" segs) seg.
Proof.
  intros Hord. rewrite join_snoc. unfold appendSegment.
  destruct segs as [|x segs]; [reflexivity|].
  pose proof (join_ordinary_nonempty (x :: segs) ltac:(discriminate) Hord) as Hne.
  destruct (String.eqb_spec ("/" ++ JS.join "/" (x :: segs)) "/") as [E|_].
  - exfalso. apply Hne. simpl in E. now inversion E.
  - now rewrite append_assoc.
Qed.

(** Resolving one more ordinary segment appends it. *)
Lemma resolve_snoc (cwd : string) (args : list string) (seg : string) :
  Path.startsWithSlash cwd = true ->
  isOrdinarySegment seg = true ->
  Path.resolve cwd (args ++ [seg]) = appendSegment (Path.resolve cwd args) seg.
Proof.
  intros Hcwd Hseg. unfold Path.resolve.
  rewrite rev_app_distr. cbn [rev app].
  pose proof (ordinary_parts seg Hseg) as (Hne & Hns & _).
  cbn [Path.resolveFrom].
  replace (Path.isEmpty seg) with false
    by (destruct seg; [contradiction | reflexivity]).
  rewrite (noslash_start seg Hns), resolveFrom_acc.
  pose proof (resolveFrom_cwd (rev args) cwd EmptyString Hcwd) as Habs.
  destruct (resolveFrom_cwd_nonempty (rev args) cwd Hcwd) as [q Hq].
  destruct (Path.resolveFrom (rev args ++ [cwd]) EmptyString) as [p abs].
  cbn [fst snd] in *. subst abs p. cbn [negb].
  unfold Path.normalizeString.
  assert (Hnew : Path.splitSlash ((q ++ "/") ++ seg ++ "/" ++ EmptyString)
                 = Path.splitSlash q ++ [seg; EmptyString]).
  { rewrite append_assoc, (splitSlash_app q), (splitSlash_app seg EmptyString).
    now rewrite (splitSlash_noslash seg Hns). }
  assert (Hold : Path.splitSlash (q ++ "/")
                 = Path.splitSlash q ++ [EmptyString])
    by exact (splitSlash_app q EmptyString).
  rewrite Hnew, Hold, !fold_left_app.
  cbn [fold_left]. rewrite !empty_step, ordinary_step by assumption.
  apply appendSegment_resolved.
  apply normalize_fold_ordinary; [apply splitSlash_segments | constructor].
Qed.

(** Resolving a resolved path gives it back. *)
Lemma resolve_idempotent (cwd dir : string) :
  Path.startsWithSlash cwd = true -> isResolved dir ->
  Path.resolve cwd [dir] = dir.
Proof.
  intros Hcwd (segs & Hord & ->). unfold Path.resolve.
  cbn [rev app Path.resolveFrom append Path.isEmpty Path.startsWithSlash].
  replace (Ascii.eqb "/" Path.slash) with true by reflexivity. cbn [negb].
  unfold Path.normalizeString.
  assert (Hsplit : Path.splitSlash (String "/" (JS.join "/" segs ++ "/"))
                   = Path.splitSlash ("/" ++ JS.join "/" segs) ++ [EmptyString])
    by exact (splitSlash_app ("/" ++ JS.join "/" segs) EmptyString).
  rewrite Hsplit, fold_left_app, resolved_split by assumption.
  reflexivity.
Qed.

(** Resolving an ordinary segment against a resolved directory appends
    it. *)
Lemma resolve_in_directory (cwd dir seg : string) :
  Path.startsWithSlash cwd = true -> isResolved dir ->
  isOrdinarySegment seg = true ->
  Path.resolve cwd [dir; seg] = appendSegment dir seg.
Proof.
  intros Hcwd Hdir Hseg.
  change [dir; seg] with ([dir] ++ [seg]).
  rewrite (resolve_snoc cwd [dir] seg Hcwd Hseg).
  now rewrite resolve_idempotent.
Qed.

End Paths.

(** ** Where the input block puts its files *)

Section InputFiles.
Import Extra Spec DMMF Sys InputBlock.

Lemma string_length_app (a b : string) :
  String.length (a ++ b) = String.length a + String.length b.
Proof. induction a as [|c a IH]; simpl; [reflexivity | now rewrite IH]. Qed.

Lemma append_inv_r (a b c : string) :
  (a ++ c = b ++ c)%string -> a = b.
Proof.
  revert b. induction a as [|x a IH]; intros [|y b] H.
  - reflexivity.
  - apply (f_equal String.length) in H. simpl in H.
    rewrite string_length_app in H. lia.
  - apply (f_equal String.length) in H. simpl in H.
    rewrite string_length_app in H. lia.
  - simpl in H. inversion H. f_equal. now apply IH.
Qed.

Lemma appendSegment_not_root (dir seg : string) :
  seg <> EmptyString -> appendSegment dir seg <> "/".
Proof.
  intros Hseg. unfold appendSegment.
  destruct (String.eqb dir "/"); intros H;
    apply (f_equal String.length) in H;
    rewrite ?string_length_app in H; simpl in H;
    destruct seg; simpl in H; try congruence; lia.
Qed.

Lemma appendSegment_below (dir seg : string) :
  dir <> "/" -> appendSegment dir seg = (dir ++ "/" ++ seg)%string.
Proof.
  intros H. unfold appendSegment.
  now destruct (String.eqb_spec dir "/").
Qed.

Variable env : Env.
Variable this : InputBlockGenerator.
Hypothesis absolute_cwd : Path.startsWithSlash (cwd env) = true.

Lemma inputsDirPath_shape :
  inputsDirPath env this
  = (appendSegment (Path.resolve (cwd env) [baseDirPath this]) "resolvers"
       ++ "/inputs")%string.
Proof.
  unfold inputsDirPath, TypeClass.resolversFolderName, TypeClass.inputsFolderName.
  change [baseDirPath this; "resolvers"; "inputs"]
    with (([baseDirPath this] ++ ["resolvers"]) ++ ["inputs"]).
  rewrite !resolve_snoc by (assumption || reflexivity).
  apply appendSegment_below. apply appendSegment_not_root. discriminate.
Qed.

Lemma inputsDirPath_below : inputsDirPath env this <> "/".
Proof.
  rewrite inputsDirPath_shape. intros H.
  apply (f_equal String.length) in H. rewrite string_length_app in H.
  simpl in H. lia.
Qed.

Lemma barrelPath_shape :
  barrelPath env this = (inputsDirPath env this ++ "/index.ts")%string.
Proof.
  pose proof (resolve_resolved (cwd env)
                [baseDirPath this; TypeClass.resolversFolderName;
                 TypeClass.inputsFolderName] absolute_cwd) as Hdir.
  fold (inputsDirPath env this) in Hdir.
  unfold barrelPath.
  rewrite resolve_in_directory by (assumption || reflexivity).
  apply appendSegment_below, inputsDirPath_below.
Qed.

Lemma inputTypePath_shape (inputType : InputType.t) :
  hasSlash (InputType.typeName inputType) = false ->
  inputTypePath env this inputType
  = (inputsDirPath env this ++ "/"
       ++ InputType.typeName inputType ++ ".ts")%string.
Proof.
  pose proof (resolve_resolved (cwd env)
                [baseDirPath this; TypeClass.resolversFolderName;
                 TypeClass.inputsFolderName] absolute_cwd) as Hdir.
  fold (inputsDirPath env this) in Hdir.
  intros Hname. unfold inputTypePath.
  rewrite resolve_in_directory
    by (assumption || now apply file_name_ordinary).
  apply appendSegment_below, inputsDirPath_below.
Qed.

(** X2.  With an absolute working directory, the inputs directory is the
    resolved base directory followed by [resolvers/inputs]; the barrel file
    is [index.ts] in it; and the file of an input type whose name holds no
    separator is [<name>.ts] in it. *)
Theorem input_files_location :
  inputsDirPath env this
  = (appendSegment (Path.resolve (cwd env) [baseDirPath this]) "resolvers"
       ++ "/inputs")%string
  /\ barrelPath env this = (inputsDirPath env this ++ "/index.ts")%string
  /\ forall inputType,
       hasSlash (InputType.typeName inputType) = false ->
       inputTypePath env this inputType
       = (inputsDirPath env this ++ "/"
            ++ InputType.typeName inputType ++ ".ts")%string.
Proof.
  split; [exact inputsDirPath_shape|]. split.
  - exact barrelPath_shape.
  - exact inputTypePath_shape.
Qed.

Lemma inputTypePaths_distinct (types : list InputType.t) :
  Forall (fun t => hasSlash (InputType.typeName t) = false) types ->
  NoDup (map InputType.typeName types) ->
  NoDup (map (inputTypePath env this) types)
  /\ (~ In "index" (map InputType.typeName types) ->
      ~ In (barrelPath env this) (map (inputTypePath env this) types)).
Proof.
  pose proof barrelPath_shape as Hbarrel.
  pose proof inputTypePath_shape as Hfile.
  intros Hnames Hnodup.
  assert (Hinj : forall t1 t2, In t1 types -> In t2 types ->
            inputTypePath env this t1 = inputTypePath env this t2 ->
            InputType.typeName t1 = InputType.typeName t2).
  { intros t1 t2 H1 H2 E. rewrite Forall_forall in Hnames.
    rewrite !Hfile in E by auto.
    apply append_inv_l in E. apply append_inv_l in E.
    now apply append_inv_r in E. }
  split.
  - clear Hbarrel. induction types as [|t types IH]; [constructor|].
    inversion Hnodup as [|? ? Hnotin Hnd]; subst.
    inversion Hnames; subst. simpl. constructor.
    + intros Hin. apply in_map_iff in Hin as (t' & E & Hin').
      apply Hnotin. apply in_map_iff. exists t'. split; [|assumption].
      apply Hinj; [now right | now left | assumption].
    + apply IH; auto. intros t1 t2 Hin1 Hin2. apply Hinj; now right.
  - intros Hindex Hin. apply in_map_iff in Hin as (t & E & Hin).
    rewrite Forall_forall in Hnames.
    rewrite Hbarrel, Hfile in E by auto.
    apply append_inv_l in E.
    change "/index.ts" with ("/" ++ "index" ++ ".ts")%string in E.
    apply append_inv_l, append_inv_r in E.
    apply Hindex. apply in_map_iff. exists t. auto.
Qed.

(** X3.  With an absolute working directory, input types with pairwise
    distinct names that hold no separator get pairwise distinct files, so no
    write of the block replaces an earlier one; and the barrel file is none
    of them unless a type is named [index]. *)
Theorem input_files_distinct (types : list InputType.t) :
  Forall (fun t => hasSlash (InputType.typeName t) = false) types ->
  NoDup (map InputType.typeName types) ->
  NoDup (map (inputTypePath env this) types)
  /\ (~ In "index" (map InputType.typeName types) ->
      ~ In (barrelPath env this) (map (inputTypePath env this) types)).
Proof.
  intros Hnames Hnodup. split.
  - now apply inputTypePaths_distinct.
  - intros Hindex. now apply inputTypePaths_distinct.
Qed.

End InputFiles.

(** X2 on the generator of the scenario. *)
Lemma input_files_location_witness :
  Path.startsWithSlash (Sys.cwd Examples.env0) = true
  /\ InputBlock.inputsDirPath Examples.env0 Examples.inputsGenerator
     = "/out/resolvers/inputs".
Proof.
  split; [reflexivity|].
  rewrite (proj1 (input_files_location Examples.env0 Examples.inputsGenerator
                    eq_refl)).
  reflexivity.
Defined.

(** X3 on the two input types of the scenario. *)
Lemma input_files_distinct_witness :
  Path.startsWithSlash (Sys.cwd Examples.env0) = true
  /\ Forall (fun t => Extra.hasSlash (DMMF.InputType.typeName t) = false)
       [Examples.postCreate; Examples.userCreate]
  /\ NoDup (map DMMF.InputType.typeName [Examples.postCreate; Examples.userCreate])
  /\ NoDup (map (Spec.inputTypePath Examples.env0 Examples.inputsGenerator)
              [Examples.postCreate; Examples.userCreate]).
Proof.
  assert (H1 : Forall (fun t => Extra.hasSlash (DMMF.InputType.typeName t) = false)
                 [Examples.postCreate; Examples.userCreate])
    by (repeat constructor).
  assert (H2 : NoDup (map DMMF.InputType.typeName
                        [Examples.postCreate; Examples.userCreate])).
  { simpl. constructor; [|constructor; [|constructor]]; simpl;
      [intros [H|[]]; discriminate H | tauto]. }
  split; [reflexivity|]. split; [exact H1|]. split; [exact H2|].
  exact (proj1 (input_files_distinct Examples.env0 Examples.inputsGenerator
                  eq_refl _ H1 H2)).
Defined.

(** ** Failures of the input block *)

Section InputBlockFailures.
Import DMMF Spec Eff Sys InputBlock.
Variable env : Env.
Variable this : InputBlockGenerator.

(** The loop stops at the first write that fails: the files before it are on
    disk, the ones after it are not tried. *)
Lemma writeInputTypes_fails (before after : list InputType.t)
  (failing : InputType.t) (e : string) :
  (forall t, In t before -> writeFileError env (inputTypePath env this t) = None) ->
  writeFileError env (inputTypePath env this failing) = Some e ->
  forall allInputTypes directWritten w,
    writeInputTypes env this (inputsDirPath env this)
      (before ++ failing :: after) allInputTypes directWritten w
    = (Throw e, afterWrites w (map (inputTypeFile env this) before)).
Proof.
  intros Hbefore Hfail.
  induction before as [|t before IH]; intros names paths w.
  - cbn [app writeInputTypes map]. unfold bind at 1. unfold writeFileSync.
    unfold bind at 1. unfold failWhen.
    fold (inputTypePath env this failing). rewrite Hfail.
    unfold throw. now rewrite afterWrites_nil.
  - cbn [app writeInputTypes map]. unfold bind at 1. unfold writeFileSync.
    unfold bind at 1. unfold failWhen.
    fold (inputTypePath env this t).
    rewrite (Hbefore t) by now left.
    unfold ret, modify. rewrite IH by (intros; apply Hbefore; now right).
    f_equal. unfold afterWrites, JS.push, inputTypeFile. simpl.
    now rewrite <- app_assoc.
Qed.

(** X4.  When the block is to be generated and the inputs directory cannot
    be made, [generate] throws the error of the creation, and no file is
    written, no directory recorded and nothing staged. *)
Theorem input_block_mkdir_failure (w : World) (e : string) :
  In "inputs" (Options.blocksToEmit (documentOptions (dmmfDocument this))) ->
  mkdirError env (inputsDirPath env this) = Some e ->
  exists w',
    generate env this w = (Throw e, w')
    /\ written w' = written w /\ directories w' = directories w
    /\ staged w' = staged w /\ stagedInput w' = stagedInput w.
Proof.
  intros Hyes Hmk. unfold generate, shouldGenerate, shouldGenerateBlock.
  replace (existsb _ _) with true by (symmetry; now apply existsb_eqb_In).
  cbn [negb]. unfold bind at 1. unfold now at 1.
  unfold bind at 1. unfold mkdirSync. unfold bind at 1.
  rewrite Hmk. unfold failWhen, throw.
  eexists. split; [reflexivity|]. world_simpl. tauto.
Qed.

(** X5.  When the write of one input type fails and the writes of the types
    before it do not, [generate] throws the error of that write; the files of
    the types before it are on disk, those of the types after it are not, and
    the barrel file is not staged. *)
Theorem input_block_write_failure (w : World)
  (before after : list InputType.t) (failing : InputType.t) (e : string) :
  In "inputs" (Options.blocksToEmit (documentOptions (dmmfDocument this))) ->
  mkdirError env (inputsDirPath env this) = None ->
  schemaInputTypes (dmmfDocument this) = before ++ failing :: after ->
  (forall t, In t before -> writeFileError env (inputTypePath env this t) = None) ->
  writeFileError env (inputTypePath env this failing) = Some e ->
  exists w',
    generate env this w = (Throw e, w')
    /\ written w' = written w ++ map (inputTypeFile env this) before
    /\ directories w' = directories w ++ [inputsDirPath env this]
    /\ staged w' = staged w /\ stagedInput w' = stagedInput w.
Proof.
  intros Hyes Hmk Htypes Hbefore Hfail.
  unfold generate, shouldGenerate, shouldGenerateBlock.
  replace (existsb _ _) with true by (symmetry; now apply existsb_eqb_In).
  cbn [negb]. unfold bind at 1. unfold now at 1.
  unfold bind at 1. unfold mkdirSync. unfold bind at 1.
  rewrite Hmk. unfold failWhen, ret, modify. world_simpl.
  unfold bind at 1. rewrite Htypes.
  rewrite (writeInputTypes_fails before after failing e Hbefore Hfail).
  eexists. split; [reflexivity|].
  unfold afterWrites, JS.push. world_simpl. tauto.
Qed.

End InputBlockFailures.

(** ** What the input block writes and what it stages *)

Section InputBlockWrites.
Import Extra DMMF Spec Eff Sys InputBlock.
Variable env : Env.
Variable this : InputBlockGenerator.

(** The run of the block once the directory is made. *)
Lemma generate_allowed (w : World) :
  In "inputs" (Options.blocksToEmit (documentOptions (dmmfDocument this))) ->
  mkdirError env (inputsDirPath env this) = None ->
  (forall t, In t (schemaInputTypes (dmmfDocument this)) ->
             writeFileError env (inputTypePath env this t) = None) ->
  exists w1 : World,
    let types := schemaInputTypes (dmmfDocument this) in
    clockReads w1 = S (clockReads w)
    /\ logs w1 = logs w /\ metrics w1 = metrics w
    /\ completed w1 = completed w
    /\ directories w1 = directories w ++ [inputsDirPath env this]
    /\ written w1 = written w ++ map (inputTypeFile env this) types
    /\ staged w1 = staged w /\ stagedInput w1 = stagedInput w
    /\ saved w1 = saved w /\ spawned w1 = spawned w
    /\ generate env this w
       = bind (createSourceFile env (project this) (barrelPath env this)
                 (inputsBarrel (map InputType.typeName types)))
           (fun _ =>
              bind (now env)
                (fun endTime =>
                   ret (mkGenerationMetrics (length types)
                          (Some (endTime - perfNow env (clockReads w))%Z)
                          (Some (map (inputTypePath env this) types))))) w1.
Proof.
  intros Hyes Hmk Hwr. unfold generate, shouldGenerate, shouldGenerateBlock.
  replace (existsb _ _) with true by (symmetry; now apply existsb_eqb_In).
  cbn [negb]. unfold bind at 1. unfold now at 1.
  unfold bind at 1. unfold mkdirSync. unfold bind at 1.
  rewrite Hmk. unfold failWhen, ret, modify. world_simpl.
  unfold bind at 1.
  match goal with
  | |- context [writeInputTypes _ _ _ ?types [] [] ?W] =>
      pose proof (writeInputTypes_run env this types [] [] W) as Hrun;
      destruct (writeInputTypes env this (inputsDirPath env this) types [] [] W)
        as [[[names paths]|e|] w1]
  end.
  - destruct Hrun as (-> & -> & ->). cbn [app].
    unfold afterWrites, JS.push. world_simpl.
    exists (mkWorld (S (clockReads w)) (logs w) (metrics w) (completed w)
              (directories w ++ [inputsDirPath env this])
              (written w
                 ++ map (inputTypeFile env this)
                      (schemaInputTypes (dmmfDocument this)))
              (staged w) (stagedInput w) (saved w) (spawned w)).
    cbv zeta. world_simpl.
    repeat (split; [reflexivity|]). reflexivity.
  - exfalso. destruct Hrun as (t & Hin & He). rewrite (Hwr t Hin) in He.
    discriminate.
  - contradiction.
Qed.

(** C6.  When the block allow-list does not name [inputs], [generate]
    returns [itemsGenerated = 0] with no written paths and leaves the world as
    it was.  When it does, and neither the creation of the directory nor a
    write fails: if the barrel file can be created, [generate] makes the
    inputs directory, writes the file of each input type of the document,
    one write per type and in their order, stages the barrel file [index.ts]
    listing their names in its project without writing it, and returns
    [itemsGenerated] equal to the number of input types together with the
    written paths, nothing else of the world changing; if the barrel file
    cannot be created, it throws that error after the writes, with nothing
    staged.  In an absolute working directory, for types of pairwise
    distinct names that hold no separator, the writes go to pairwise distinct
    files, none of which is the barrel file unless a type is named [index]. *)
Theorem input_block_writes (w : World) :
  let types := schemaInputTypes (dmmfDocument this) in
  let allowed := Options.blocksToEmit (documentOptions (dmmfDocument this)) in
  (~ In "inputs" allowed ->
   generate env this w = (Ok (mkGenerationMetrics 0 None None), w))
  /\ (In "inputs" allowed ->
      mkdirError env (inputsDirPath env this) = None ->
      (forall t, In t types ->
                 writeFileError env (inputTypePath env this t) = None) ->
      match createSourceFileError env (barrelPath env this) with
      | None =>
          exists elapsed w',
            generate env this w
            = (Ok (mkGenerationMetrics (length types) (Some elapsed)
                     (Some (map (inputTypePath env this) types))), w')
            /\ written w' = written w ++ map (inputTypeFile env this) types
            /\ length (written w') = length (written w) + length types
            /\ directories w' = directories w ++ [inputsDirPath env this]
            /\ stagedOf (project this) w'
               = overwrite env (stagedOf (project this) w) (barrelPath env this)
                   (inputsBarrel (map InputType.typeName types))
            /\ In (barrelPath env this)
                 (map fst (stagedOf (project this) w'))
            /\ stagedOf (otherProject (project this)) w'
               = stagedOf (otherProject (project this)) w
            /\ logs w' = logs w /\ metrics w' = metrics w
            /\ completed w' = completed w
            /\ saved w' = saved w /\ spawned w' = spawned w
      | Some e =>
          exists w',
            generate env this w = (Throw e, w')
            /\ written w' = written w ++ map (inputTypeFile env this) types
            /\ staged w' = staged w /\ stagedInput w' = stagedInput w
            /\ saved w' = saved w
      end)
  /\ (Path.startsWithSlash (cwd env) = true ->
      Forall (fun t => hasSlash (InputType.typeName t) = false) types ->
      NoDup (map InputType.typeName types) ->
      NoDup (map (inputTypePath env this) types)
      /\ (~ In "index" (map InputType.typeName types) ->
          ~ In (barrelPath env this) (map (inputTypePath env this) types))).
Proof.
  intros types allowed. split; [|split].
  - intros Hno. unfold generate, shouldGenerate, shouldGenerateBlock.
    fold allowed.
    replace (existsb (String.eqb "inputs") allowed) with false; [reflexivity|].
    symmetry. apply not_true_is_false. now rewrite existsb_eqb_In.
  - intros Hyes Hmk Hwr.
    destruct (generate_allowed w Hyes Hmk Hwr)
      as (w1 & Hc & Hl & Hm & Hd & Hdir & Hwritten & Hst & Hsti & Hsv & Hsp
          & Hrun).
    cbv zeta in Hrun. fold types in Hrun, Hwritten. rewrite Hrun.
    unfold bind at 1. unfold createSourceFile. unfold bind at 1.
    destruct (createSourceFileError env (barrelPath env this)) as [e|];
      unfold failWhen, throw, ret.
    + exists w1. tauto.
    + unfold stageSourceFile, modify. unfold bind, now, ret.
      destruct (project this) eqn:Hproject;
        (eexists _, _; split; [reflexivity|]);
        cbn [stagedOf otherProject]; world_simpl;
        rewrite ?Hwritten, ?Hst, ?Hsti, ?length_app, ?length_map;
        repeat (split; [solve [auto | apply overwrite_In]|]); auto.
  - intros Hcwd Hnames Hnodup.
    exact (inputTypePaths_distinct env this Hcwd types Hnames Hnodup).
Qed.

End InputBlockWrites.

(** C6 on the document of [Examples.postCreate]: with [inputs] allowed, one
    file is written for its one type and the barrel file is staged; with the
    allow-list [enums, models], nothing is done. *)
Lemma input_block_writes_witness :
  let gen := InputBlock.mkGenerator Sys.inputProject
               (InputBlock.mkDocument Examples.opts [Examples.postCreate])
               Examples.opts "/out" in
  let off := InputBlock.mkGenerator Sys.inputProject
               (InputBlock.mkDocument Examples.optsNoInputs [Examples.postCreate])
               Examples.optsNoInputs "/out" in
  (In "inputs" (Options.blocksToEmit Examples.opts)
   /\ Sys.mkdirError Examples.env0 (InputBlock.inputsDirPath Examples.env0 gen)
      = None
   /\ (forall t, In t [Examples.postCreate] ->
         Sys.writeFileError Examples.env0
           (Spec.inputTypePath Examples.env0 gen t) = None)
   /\ exists m w',
        InputBlock.generate Examples.env0 gen Sys.emptyWorld = (Eff.Ok m, w')
        /\ Sys.itemsGenerated m = 1
        /\ map fst (Sys.written w')
           = ["/out/resolvers/inputs/PostCreateInput.ts"]
        /\ map fst (Sys.stagedInput w') = ["/out/resolvers/inputs/index.ts"]
        /\ Sys.saved w' = [])
  /\ (~ In "inputs" (Options.blocksToEmit Examples.optsNoInputs)
      /\ InputBlock.generate Examples.env0 off Examples.world1
         = (Eff.Ok (Sys.mkGenerationMetrics 0 None None), Examples.world1)).
Proof.
  intros gen off.
  assert (Hin : In "inputs" (Options.blocksToEmit Examples.opts))
    by (simpl; auto).
  assert (Hwr : forall t, In t [Examples.postCreate] ->
            Sys.writeFileError Examples.env0
              (Spec.inputTypePath Examples.env0 gen t) = None)
    by (intros t _; reflexivity).
  assert (Hout : ~ In "inputs" (Options.blocksToEmit Examples.optsNoInputs)).
  { simpl. intros [H|[H|[]]]; discriminate H. }
  split.
  - split; [exact Hin|]. split; [reflexivity|]. split; [exact Hwr|].
    pose proof (proj1 (proj2 (input_block_writes Examples.env0 gen
                                Sys.emptyWorld)) Hin eq_refl Hwr) as H.
    change (Sys.createSourceFileError Examples.env0
              (Spec.barrelPath Examples.env0 gen)) with (@None string) in H.
    destruct H as (elapsed & w' & Hrun & Hwritten & _ & _ & Hstaged & _
                   & _ & _ & _ & _ & Hsaved & _).
    eexists _, w'. split; [exact Hrun|]. split; [reflexivity|].
    split; [rewrite Hwritten; reflexivity|].
    split; [|exact Hsaved].
    change (Sys.stagedInput w') with (Spec.stagedOf Sys.inputProject w').
    change Sys.inputProject with (InputBlock.project gen).
    rewrite Hstaged. reflexivity.
  - split; [exact Hout|].
    exact (proj1 (input_block_writes Examples.env0 off Examples.world1) Hout).
Defined.

(** C6, as the claim has it, fails: the run over the two input types of the
    scenario writes their two files, and the barrel file is not among the
    files written; it is staged in the project and reaches the disk when the
    caller saves the project. *)
Lemma barrel_staged_not_written :
  ~ Spec.writesBarrelFile Examples.env0 Examples.inputsGenerator Sys.emptyWorld.
Proof.
  unfold Spec.writesBarrelFile. vm_compute.
  intros [H|[H|[]]]; discriminate H.
Qed.

(** ** The sizes of the transpile batches *)

Section BalancedBatches.
Import GenerateCode.

Lemma ceilDiv_upper (a b : nat) : 1 <= b -> ceilDiv a b * b < a + b.
Proof.
  intros Hb. unfold ceilDiv.
  pose proof (Nat.div_mod_eq a b) as E.
  pose proof (Nat.mod_upper_bound a b ltac:(lia)) as U.
  destruct (a mod b =? 0)%nat eqn:Z0.
  - apply Nat.eqb_eq in Z0. nia.
  - apply Nat.eqb_neq in Z0. nia.
Qed.

Lemma ceilDiv_unique (a b q : nat) :
  1 <= b -> a <= q * b -> q * b < a + b -> ceilDiv a b = q.
Proof.
  intros Hb Hlo Hhi.
  pose proof (ceilDiv_covers a b Hb) as Hc.
  pose proof (ceilDiv_upper a b Hb) as Hu.
  destruct (Nat.lt_trichotomy (ceilDiv a b) q) as [Hlt|[Heq|Hgt]]; [|exact Heq|].
  - exfalso. assert (S (ceilDiv a b) * b <= q * b) by (apply Nat.mul_le_mono_r; lia).
    simpl in *. lia.
  - exfalso. assert (S q * b <= ceilDiv a b * b) by (apply Nat.mul_le_mono_r; lia).
    simpl in *. lia.
Qed.

(** The loop in closed form: batch [k] of the ones it appends is the slice
    of [batchSize] paths that starts [k] batches after [i]. *)
Lemma batchLoop_nth (fuel : nat) (l : list string) (bs : nat) :
  1 <= bs ->
  forall i acc, length l - i <= fuel ->
  exists bl,
    batchLoop fuel l bs i acc = Some (acc ++ bl)
    /\ length bl = ceilDiv (length l - i) bs
    /\ forall k, k < length bl ->
         nth k bl [] = slice l (i + k * bs) (i + k * bs + bs).
Proof.
  intros Hbs. induction fuel as [|fuel IH]; intros i acc Hfuel.
  - exists []. simpl. destruct (i <? length l)%nat eqn:E.
    + apply Nat.ltb_lt in E. lia.
    + rewrite app_nil_r. repeat split.
      * symmetry. apply ceilDiv_unique; lia.
      * intros k Hk. simpl in Hk. lia.
  - simpl. destruct (i <? length l)%nat eqn:E.
    + apply Nat.ltb_lt in E.
      destruct (IH (i + bs) (JS.push acc (slice l i (i + bs))) ltac:(lia))
        as (bl & Hrun & Hlen & Hnth).
      exists (slice l i (i + bs) :: bl). rewrite Hrun. unfold JS.push.
      rewrite <- app_assoc. simpl. repeat split.
      * rewrite Hlen. symmetry.
        pose proof (ceilDiv_covers (length l - (i + bs)) bs Hbs) as Hc.
        pose proof (ceilDiv_upper (length l - (i + bs)) bs Hbs) as Hu.
        apply ceilDiv_unique; [assumption| |]; simpl.
        -- lia.
        -- destruct (Nat.le_gt_cases bs (length l - i)) as [Hge|Hlt]; [lia|].
           replace (length l - (i + bs)) with 0 in * by lia.
           assert (ceilDiv 0 bs = 0) as -> by (apply ceilDiv_unique; lia).
           lia.
      * intros [|k] Hk.
        -- now rewrite Nat.add_0_r.
        -- rewrite (Hnth k) by lia. simpl. f_equal; lia.
    + apply Nat.ltb_ge in E. exists []. rewrite app_nil_r. repeat split.
      * symmetry. apply ceilDiv_unique; simpl; lia.
      * intros k Hk. simpl in Hk. lia.
Qed.

(** X6.  The transpile batches in closed form.  With [batchSize] the
    ceiling of the number of paths over the number of workers, there are
    [ceil(paths / batchSize)] batches, batch [k] is the slice of the file
    list from [k * batchSize] to [(k + 1) * batchSize], every batch but the
    last holds exactly [batchSize] paths, and an empty file list gives no
    batch. *)
Theorem batches_balanced (cpus : nat) (allFilePaths : list string) :
  let batchSize :=
    ceilDiv (length allFilePaths) (Z.to_nat (jsWorkerCount cpus)) in
  exists jsBatches,
    makeBatches cpus allFilePaths = Some jsBatches
    /\ length jsBatches = ceilDiv (length allFilePaths) batchSize
    /\ (forall k, k < length jsBatches ->
          nth k jsBatches []
          = slice allFilePaths (k * batchSize) (k * batchSize + batchSize))
    /\ (forall k, S k < length jsBatches ->
          length (nth k jsBatches []) = batchSize)
    /\ (forall batch, In batch jsBatches -> length batch <= batchSize)
    /\ (allFilePaths = [] <-> jsBatches = []).
Proof.
  intros batchSize. unfold makeBatches. fold batchSize.
  destruct allFilePaths as [|path paths].
  { exists []. split; [reflexivity|]. split.
    { assert (batchSize = 0) as ->; [|reflexivity].
      pose proof (jsWorkerCount_bounds cpus) as [Hw _].
      apply ceilDiv_unique; simpl; lia. }
    split; [intros k Hk; simpl in Hk; lia|].
    split; [intros k Hk; simpl in Hk; lia|].
    split; [intros batch []|tauto]. }
  set (l := path :: paths) in *.
  destruct (jsWorkerCount_bounds cpus) as [Hw _].
  assert (Hbs : 1 <= batchSize) by (apply ceilDiv_pos; simpl; lia).
  destruct (batchLoop_nth (length l) l batchSize Hbs 0 [] ltac:(lia))
    as (bl & Hrun & Hlen & Hnth).
  simpl app in Hrun. rewrite Nat.sub_0_r in Hlen.
  exists bl. split; [exact Hrun|]. split; [exact Hlen|].
  assert (Hsize : forall k, k < length bl ->
            length (nth k bl []) <= batchSize
            /\ (S k < length bl -> length (nth k bl []) = batchSize)).
  { intros k Hk. rewrite (Hnth k Hk). simpl. rewrite slice_batch.
    rewrite length_firstn, length_skipn. split; [lia|].
    intros Hk'. pose proof (ceilDiv_upper (length l) batchSize Hbs) as Hu.
    rewrite <- Hlen in Hu.
    assert (S (S k) * batchSize <= length bl * batchSize)
      by (apply Nat.mul_le_mono_r; lia).
    rewrite !Nat.mul_succ_l in H. lia. }
  split; [exact Hnth|]. split; [|split].
  - intros k Hk. apply Hsize; lia.
  - intros batch Hin. apply (In_nth _ _ []) in Hin as (k & Hk & <-).
    now apply Hsize.
  - split; [discriminate|]. intros E. rewrite E in Hlen.
    assert (Hl : 1 <= length l) by (unfold l; simpl; lia).
    pose proof (ceilDiv_pos (length l) batchSize Hl Hbs) as Hpos.
    change (length (@nil (list string))) with 0 in Hlen. lia.
Qed.

(** Nine files on a machine with ten processors: eight workers are
    announced, and the batches of two files each are five. *)
Example fewer_batches_than_workers :
  jsWorkerCount 10 = 8%Z
  /\ option_map (@length _)
       (makeBatches 10 ["a"; "b"; "c"; "d"; "e"; "f"; "g"; "h"; "i"])
     = Some 5.
Proof. split; reflexivity. Qed.

End BalancedBatches.

(** ** The files the transpilation writes *)

Section TranspiledFiles.
Import SequentialEmit.

Lemma append_inv_suffix (a b c d : string) :
  String.length c = String.length d ->
  (a ++ c = b ++ d)%string -> a = b /\ c = d.
Proof.
  intros Hlen. revert b. induction a as [|x a IH]; intros [|y b] H.
  - now split.
  - apply (f_equal String.length) in H. simpl in H.
    rewrite string_length_app in H. lia.
  - apply (f_equal String.length) in H. simpl in H.
    rewrite string_length_app in H. lia.
  - simpl in H. inversion H. destruct (IH b) as [-> ->]; auto.
Qed.

Lemma replaceTsSuffix_ts (stem : string) :
  replaceTsSuffix (stem ++ ".ts") = (stem ++ ".js")%string.
Proof.
  induction stem as [|c stem IH]; [reflexivity|].
  cbn [append replaceTsSuffix].
  destruct (String.eqb_spec (String c (stem ++ ".ts")) ".ts") as [E|_].
  - apply (f_equal String.length) in E. simpl in E.
    rewrite string_length_app in E. simpl in E. lia.
  - now rewrite IH.
Qed.

Lemma replaceTsSuffix_other (filePath : string) :
  (forall stem, filePath <> (stem ++ ".ts")%string) ->
  replaceTsSuffix filePath = filePath.
Proof.
  induction filePath as [|c rest IH]; intros Hno; [reflexivity|].
  cbn [replaceTsSuffix].
  destruct (String.eqb_spec (String c rest) ".ts") as [E|_].
  - exfalso. apply (Hno EmptyString). exact E.
  - f_equal. apply IH. intros stem ->. apply (Hno (String c stem)). reflexivity.
Qed.

(** X7.  The name of a transpiled file: a path that ends in [.ts] gets
    [.js] in place of that ending and keeps everything before it, also
    earlier occurrences of [.ts]; any other path is returned as it is. *)
Theorem replaceTsSuffix_spec (filePath : string) :
  (forall stem, filePath = (stem ++ ".ts")%string ->
                replaceTsSuffix filePath = (stem ++ ".js")%string)
  /\ ((forall stem, filePath <> (stem ++ ".ts")%string) ->
      replaceTsSuffix filePath = filePath).
Proof.
  split.
  - intros stem ->. apply replaceTsSuffix_ts.
  - apply replaceTsSuffix_other.
Qed.

Lemma workerOutputs_NoDup (filePaths : list string) :
  Forall (fun p => exists stem, p = (stem ++ ".ts")%string) filePaths ->
  NoDup filePaths ->
  NoDup (workerOutputs filePaths).
Proof.
  intros Hts Hnd. unfold workerOutputs.
  induction filePaths as [|p filePaths IH]; [constructor|].
  inversion Hts as [|? ? (stem & ->) Hts']; subst.
  inversion Hnd as [|? ? Hnotin Hnd']; subst.
  simpl. constructor; [|now apply IH].
  intros Hin. apply in_map_iff in Hin as (q & E & Hq).
  rewrite Forall_forall in Hts'. destruct (Hts' q Hq) as (stem' & ->).
  rewrite !replaceTsSuffix_ts in E.
  apply append_inv_suffix in E as [-> _]; [|reflexivity].
  contradiction.
Qed.

(** X8.  For pairwise distinct paths that all end in [.ts], the files a
    transpile worker writes are pairwise distinct, and none of them is one
    of the sources. *)
Theorem worker_outputs_distinct (filePaths : list string) :
  Forall (fun p => exists stem, p = (stem ++ ".ts")%string) filePaths ->
  NoDup filePaths ->
  NoDup (workerOutputs filePaths)
  /\ forall p, In p filePaths -> ~ In p (workerOutputs filePaths).
Proof.
  intros Hts Hnd. split; [now apply workerOutputs_NoDup|].
  unfold workerOutputs.
  intros p Hp Hin. apply in_map_iff in Hin as (q & E & Hq).
  rewrite Forall_forall in Hts.
  destruct (Hts p Hp) as (stem & ->). destruct (Hts q Hq) as (stem' & ->).
  rewrite replaceTsSuffix_ts in E.
  apply append_inv_suffix in E as [_ E]; [discriminate|reflexivity].
Qed.

(** X24.  No two transpile workers write the same file: when the paths of
    the file list are pairwise distinct and end in [.ts], a [.js] file
    written by the worker of one batch is written by the worker of no other
    batch. *)
Theorem transpile_workers_never_collide (cpus : nat)
  (allFilePaths : list string) (jsBatches : list (list string)) :
  Forall (fun p => exists stem, p = (stem ++ ".ts")%string) allFilePaths ->
  NoDup allFilePaths ->
  GenerateCode.makeBatches cpus allFilePaths = Some jsBatches ->
  forall i j output,
    i < length jsBatches -> j < length jsBatches ->
    In output (workerOutputs (nth i jsBatches [])) ->
    In output (workerOutputs (nth j jsBatches [])) ->
    i = j.
Proof.
  intros Hts Hnd Hb i j output Hi Hj Hini Hinj.
  pose proof (workerOutputs_NoDup allFilePaths Hts Hnd) as Hout.
  assert (Hcat : concat jsBatches = allFilePaths).
  { destruct allFilePaths as [|path paths].
    - revert Hb. cbv. now intros [= <-].
    - unfold GenerateCode.makeBatches in Hb.
      destruct (jsWorkerCount_bounds cpus) as [Hw _].
      destruct (batchLoop_spec (length (path :: paths)) (path :: paths)
                  (GenerateCode.ceilDiv (length (path :: paths))
                     (Z.to_nat (GenerateCode.jsWorkerCount cpus))))
        with (i := 0) (acc := @nil (list string)) as (bl & Hrun & Hc & _).
      + apply ceilDiv_pos; simpl; lia.
      + lia.
      + rewrite Hb in Hrun. injection Hrun as ->. exact Hc. }
  rewrite <- Hcat in Hout. unfold workerOutputs in Hout.
  rewrite concat_map in Hout.
  apply (concat_NoDup_nth (map (map replaceTsSuffix) jsBatches) output i j Hout);
    rewrite ?length_map; auto.
  - change (@nil string) with (map replaceTsSuffix []).
    rewrite map_nth. exact Hini.
  - change (@nil string) with (map replaceTsSuffix []).
    rewrite map_nth. exact Hinj.
Qed.

End TranspiledFiles.

(** X7 on a path in which [.ts] also occurs before the end. *)
Lemma replaceTsSuffix_spec_witness :
  "/out/a.ts/b.ts" = ("/out/a.ts/b" ++ ".ts")%string
  /\ SequentialEmit.replaceTsSuffix "/out/a.ts/b.ts" = "/out/a.ts/b.js".
Proof.
  split; [reflexivity|].
  exact (proj1 (replaceTsSuffix_spec "/out/a.ts/b.ts") "/out/a.ts/b" eq_refl).
Defined.

(** X8 on two files of the scenario. *)
Lemma worker_outputs_distinct_witness :
  Forall (fun p => exists stem, p = (stem ++ ".ts")%string)
    ["/out/index.ts"; "/out/enhance.ts"]
  /\ NoDup ["/out/index.ts"; "/out/enhance.ts"]
  /\ NoDup (SequentialEmit.workerOutputs ["/out/index.ts"; "/out/enhance.ts"]).
Proof.
  assert (H1 : Forall (fun p => exists stem, p = (stem ++ ".ts")%string)
                 ["/out/index.ts"; "/out/enhance.ts"]).
  { constructor; [now exists "/out/index"|].
    constructor; [now exists "/out/enhance"|constructor]. }
  assert (H2 : NoDup ["/out/index.ts"; "/out/enhance.ts"]).
  { constructor; [|constructor; [|constructor]]; simpl;
      [intros [H|[]]; discriminate H | tauto]. }
  split; [exact H1|]. split; [exact H2|].
  exact (proj1 (worker_outputs_distinct _ H1 H2)).
Defined.

(** ** The transpilation in the main thread *)

Section SequentialEmission.
Import Spec Eff Sys SequentialEmit.
Variable env : Env.
Variable hasMetrics : bool.
Variable transpileOutput : string -> string.
Variable writeRank : string -> nat.

(** The [.js] file of a source file. *)
Let jsFile (filePath : string) : string * string :=
  (replaceTsSuffix filePath, transpileOutput filePath).

Let writable (filePath : string) : Prop :=
  writeFileError env (replaceTsSuffix filePath) = None.

Lemma afterWrites_app (w : World) (a b : list (string * string)) :
  afterWrites (afterWrites w a) b = afterWrites w (a ++ b).
Proof. unfold afterWrites. simpl. now rewrite app_assoc. Qed.

Lemma filter_all {A : Type} (p : A -> bool) (l : list A) :
  Forall (fun x => p x = true) l -> filter p l = l.
Proof.
  induction 1 as [|x l Hx _ IH]; simpl; [reflexivity|].
  now rewrite Hx, IH.
Qed.

Lemma In_skipn_more {A : Type} (l : list A) (i n : nat) (x : A) :
  In x (skipn (i + n) l) -> In x (skipn i l).
Proof.
  rewrite Nat.add_comm, <- skipn_skipn. intros H.
  rewrite <- (firstn_skipn n (skipn i l)). apply in_app_iff. now right.
Qed.

Lemma In_firstn_skipn {A : Type} (l : list A) (i n : nat) (x : A) :
  In x (firstn n (skipn i l)) -> In x (skipn i l).
Proof.
  intros H. rewrite <- (firstn_skipn n (skipn i l)). apply in_app_iff. now left.
Qed.

(** One batch: it ends well exactly when every write does, with all its
    files on disk; a failure is the failure of one of its writes. *)
Lemma writeBatch_run (batch : list string) (w : World) :
  exists landed,
    snd (writeBatch env transpileOutput writeRank batch w) = afterWrites w landed
    /\ match fst (writeBatch env transpileOutput writeRank batch w) with
       | Ok _ => Forall writable batch /\ landed = map jsFile batch
       | Throw e =>
           exists p, In p batch
                     /\ writeFileError env (replaceTsSuffix p) = Some e
       | Hang => False
       end.
Proof.
  unfold writeBatch. fold jsFile.
  set (transpiled := map jsFile batch).
  set (errors := map (fun f => writeFileError env (fst f)) transpiled).
  set (rank := fun i => writeRank (nth i (map fst transpiled) EmptyString)).
  destruct (GenerateCode.promiseAll rank errors) as [reason|] eqn:E.
  - eexists. split; [reflexivity|]. cbn [fst].
    apply promiseAll_Some in E. unfold errors, transpiled in E.
    rewrite map_map in E. apply in_map_iff in E as (p & Hp & Hin).
    exists p. split; [assumption|]. exact Hp.
  - apply promiseAll_None in E. unfold errors, transpiled in E.
    rewrite map_map in E. rewrite Forall_map in E. cbn [fst jsFile] in E.
    eexists. split; [reflexivity|]. cbn [fst]. split.
    + exact E.
    + apply filter_all. unfold transpiled. rewrite Forall_map.
      eapply Forall_impl; [|exact E]. cbn. intros p Hp. now rewrite Hp.
Qed.

(** The loop over the batches ends within as many iterations as there are
    files left. *)
Lemma transpileLoop_run (sourceFiles : list string) (fuel : nat) :
  forall i w, length sourceFiles - i <= fuel ->
  exists landed,
    snd (transpileLoop env transpileOutput writeRank fuel sourceFiles i w)
    = afterWrites w landed
    /\ match fst (transpileLoop env transpileOutput writeRank fuel sourceFiles i w) with
       | Ok _ =>
           Forall writable (skipn i sourceFiles)
           /\ landed = map jsFile (skipn i sourceFiles)
       | Throw e =>
           exists p, In p (skipn i sourceFiles)
                     /\ writeFileError env (replaceTsSuffix p) = Some e
       | Hang => False
       end.
Proof.
  induction fuel as [|fuel IH]; intros i w Hfuel.
  - cbn [transpileLoop].
    destruct (i <? length sourceFiles)%nat eqn:E;
      [apply Nat.ltb_lt in E; lia|].
    apply Nat.ltb_ge in E. exists []. rewrite afterWrites_nil.
    rewrite skipn_all2 by lia. cbn. repeat split; constructor.
  - cbn [transpileLoop].
    destruct (i <? length sourceFiles)%nat eqn:E.
    + apply Nat.ltb_lt in E. unfold bind.
      rewrite slice_batch.
      destruct (writeBatch_run (firstn JS_BATCH_SIZE (skipn i sourceFiles)) w)
        as (landed1 & Hw1 & Hr1).
      destruct (writeBatch env transpileOutput writeRank
                  (firstn JS_BATCH_SIZE (skipn i sourceFiles)) w)
        as [[[]|e|] w1]; cbn [fst snd] in Hw1, Hr1; subst w1.
      * destruct (IH (i + JS_BATCH_SIZE) (afterWrites w landed1)
                    ltac:(unfold JS_BATCH_SIZE; lia))
          as (landed2 & Hw2 & Hr2).
        exists (landed1 ++ landed2). rewrite Hw2, afterWrites_app.
        split; [reflexivity|].
        destruct (fst (transpileLoop env transpileOutput writeRank fuel
                         sourceFiles (i + JS_BATCH_SIZE)
                         (afterWrites w landed1))) as [[]|e|].
        -- destruct Hr1 as (Hok1 & ->). destruct Hr2 as (Hok2 & ->).
           rewrite Nat.add_comm, <- skipn_skipn in Hok2 |- *.
           rewrite <- map_app, firstn_skipn. split; [|reflexivity].
           rewrite <- (firstn_skipn JS_BATCH_SIZE (skipn i sourceFiles)).
           apply Forall_app. now split.
        -- destruct Hr2 as (p & Hp & He). exists p. split; [|exact He].
           now apply In_skipn_more in Hp.
        -- contradiction.
      * exists landed1. split; [reflexivity|]. cbn [fst].
        destruct Hr1 as (p & Hp & He). exists p. split; [|exact He].
        now apply In_firstn_skipn in Hp.
      * contradiction.
    + apply Nat.ltb_ge in E. exists []. rewrite afterWrites_nil.
      rewrite skipn_all2 by lia. cbn. repeat split; constructor.
Qed.

(** The function up to the loop and from it on. *)
Lemma sequential_emit_run (baseDirPath : string) (w : World) :
  saveError env = None ->
  exists (w1 : World) (landed : list (string * string)),
    let sourceFiles := GenerateCode.flatPaths w in
    let looped :=
      transpileLoop env transpileOutput writeRank (length sourceFiles)
        sourceFiles 0 w1 in
    written w1 = written w
    /\ saved w1 = saved w ++ sourceFiles
    /\ logs w1 = logs w ++ ["  Transpiling .ts → .js (per-file, no type-checking)"]
    /\ spawned w1 = spawned w
    /\ snd looped = afterWrites w1 landed
    /\ match fst looped with
       | Ok _ =>
           exists w',
             fastEmitTranspiledCode env hasMetrics transpileOutput writeRank
               baseDirPath w = (Ok tt, w')
             /\ written w' = written w1 ++ landed
             /\ saved w' = saved w1
             /\ logs w' = logs w1 ++ ["  Generating .d.ts declarations"]
             /\ spawned w' = spawned w1
       | Throw e =>
           fastEmitTranspiledCode env hasMetrics transpileOutput writeRank
             baseDirPath w = (Throw e, afterWrites w1 landed)
       | Hang => False
       end.
Proof.
  intros Hsave.
  unfold fastEmitTranspiledCode, saveProjects, emitMetric. rewrite Hsave.
  unfold GenerateCode.flatPaths.
  destruct hasMetrics; run_effects;
    match goal with
    | |- context [transpileLoop _ _ _ ?n ?l 0 ?W] =>
        destruct (transpileLoop_run l n 0 W ltac:(lia)) as (landed & Hw & Hr);
        exists W, landed;
        destruct (transpileLoop env transpileOutput writeRank n l 0 W)
          as [[[]|e|] w1]
    end;
    cbn [fst snd] in Hw, Hr |- *; subst w1; unfold afterWrites, JS.push;
    world_simpl; rewrite ?map_app;
    repeat (split; [reflexivity|]);
    try contradiction; try reflexivity;
    (eexists; split; [reflexivity|]); world_simpl; repeat split; reflexivity.
Qed.

(** X9.  When the projects can be saved and every [.js] file can be
    written, the transpilation in the main thread returns, whatever the
    number of files; it has saved the staged files, written the [.js] file of
    each of them, in the order of the file list, and has started no worker. *)
Theorem sequential_emit_writes (baseDirPath : string) (w : World) :
  saveError env = None ->
  Forall (fun p => writeFileError env (replaceTsSuffix p) = None)
    (GenerateCode.flatPaths w) ->
  exists w',
    fastEmitTranspiledCode env hasMetrics transpileOutput writeRank
      baseDirPath w = (Ok tt, w')
    /\ written w'
       = written w
         ++ map (fun p => (replaceTsSuffix p, transpileOutput p))
              (GenerateCode.flatPaths w)
    /\ saved w' = saved w ++ GenerateCode.flatPaths w
    /\ logs w'
       = logs w ++ ["  Transpiling .ts → .js (per-file, no type-checking)";
                    "  Generating .d.ts declarations"]
    /\ spawned w' = spawned w.
Proof.
  intros Hsave Hok.
  destruct (sequential_emit_run baseDirPath w Hsave)
    as (w1 & landed & Hwr & Hsv & Hlg & Hsp & Hw & Hr).
  destruct (transpileLoop_run (GenerateCode.flatPaths w)
              (length (GenerateCode.flatPaths w)) 0 w1 ltac:(lia))
    as (landed' & Hw' & Hr').
  destruct (fst (transpileLoop env transpileOutput writeRank
                   (length (GenerateCode.flatPaths w))
                   (GenerateCode.flatPaths w) 0 w1)) as [[]|e|].
  - destruct Hr as (w' & Hrun & Hwr' & Hsv' & Hlg' & Hsp').
    destruct Hr' as (_ & ->). rewrite Hw in Hw'.
    assert (landed = map jsFile (skipn 0 (GenerateCode.flatPaths w))) as ->.
    { apply (f_equal written) in Hw'. unfold afterWrites in Hw'.
      world_simpl. now apply app_inv_head in Hw'. }
    exists w'. split; [exact Hrun|].
    rewrite Hwr', Hsv', Hlg', Hsp', Hwr, Hsv, Hlg, Hsp, <- app_assoc.
    repeat split; reflexivity.
  - exfalso. destruct Hr' as (p & Hp & He). rewrite Forall_forall in Hok.
    rewrite (Hok p Hp) in He. discriminate.
  - contradiction.
Qed.

(** X10.  When the projects can be saved and the [.js] file of some staged
    file cannot be written, the transpilation in the main thread throws the
    error of one of the failing writes; the staged files are saved, and the
    declarations step is not reached. *)
Theorem sequential_emit_failure (baseDirPath : string) (w : World) :
  saveError env = None ->
  (exists p, In p (GenerateCode.flatPaths w)
             /\ writeFileError env (replaceTsSuffix p) <> None) ->
  exists e w',
    fastEmitTranspiledCode env hasMetrics transpileOutput writeRank
      baseDirPath w = (Throw e, w')
    /\ (exists p, In p (GenerateCode.flatPaths w)
                  /\ writeFileError env (replaceTsSuffix p) = Some e)
    /\ saved w' = saved w ++ GenerateCode.flatPaths w
    /\ logs w'
       = logs w ++ ["  Transpiling .ts → .js (per-file, no type-checking)"]
    /\ spawned w' = spawned w.
Proof.
  intros Hsave (p & Hp & Hfail).
  destruct (sequential_emit_run baseDirPath w Hsave)
    as (w1 & landed & Hwr & Hsv & Hlg & Hsp & Hw & Hr).
  destruct (transpileLoop_run (GenerateCode.flatPaths w)
              (length (GenerateCode.flatPaths w)) 0 w1 ltac:(lia))
    as (landed' & Hw' & Hr').
  destruct (fst (transpileLoop env transpileOutput writeRank
                   (length (GenerateCode.flatPaths w))
                   (GenerateCode.flatPaths w) 0 w1)) as [[]|e|].
  - exfalso. destruct Hr' as (Hok & _). rewrite Forall_forall in Hok.
    exact (Hfail (Hok p Hp)).
  - exists e, (afterWrites w1 landed). split; [exact Hr|].
    split; [exact Hr'|]. unfold afterWrites. world_simpl. now rewrite Hsv, Hlg, Hsp.
  - contradiction.
Qed.

End SequentialEmission.

(** X4 on a disk that refuses the directory. *)
Lemma input_block_mkdir_failure_witness :
  In "inputs" (Options.blocksToEmit
                 (InputBlock.documentOptions
                    (InputBlock.dmmfDocument Examples.inputsGenerator)))
  /\ Sys.mkdirError Scenarios.readOnlyDisk
       (InputBlock.inputsDirPath Scenarios.readOnlyDisk Examples.inputsGenerator)
     = Some "EACCES: permission denied"
  /\ exists w',
       InputBlock.generate Scenarios.readOnlyDisk Examples.inputsGenerator
         Sys.emptyWorld
       = (Eff.Throw "EACCES: permission denied", w')
       /\ Sys.written w' = [].
Proof.
  assert (H1 : In "inputs" (Options.blocksToEmit
                 (InputBlock.documentOptions
                    (InputBlock.dmmfDocument Examples.inputsGenerator))))
    by (simpl; tauto).
  split; [exact H1|]. split; [reflexivity|].
  destruct (input_block_mkdir_failure Scenarios.readOnlyDisk
              Examples.inputsGenerator Sys.emptyWorld
              "EACCES: permission denied" H1 eq_refl)
    as (w' & Hrun & Hwr & _).
  exists w'. split; [exact Hrun | exact Hwr].
Defined.

(** X5 on a disk that fills up at the second input type. *)
Lemma input_block_write_failure_witness :
  let env := Scenarios.diskFull "/out/resolvers/inputs/UserCreateInput.ts" in
  In "inputs" (Options.blocksToEmit
                 (InputBlock.documentOptions
                    (InputBlock.dmmfDocument Examples.inputsGenerator)))
  /\ Sys.mkdirError env (InputBlock.inputsDirPath env Examples.inputsGenerator)
     = None
  /\ InputBlock.schemaInputTypes (InputBlock.dmmfDocument Examples.inputsGenerator)
     = [Examples.postCreate] ++ Examples.userCreate :: []
  /\ (forall t, In t [Examples.postCreate] ->
        Sys.writeFileError env
          (Spec.inputTypePath env Examples.inputsGenerator t) = None)
  /\ Sys.writeFileError env
       (Spec.inputTypePath env Examples.inputsGenerator Examples.userCreate)
     = Some "ENOSPC: no space left on device"
  /\ exists w',
       InputBlock.generate env Examples.inputsGenerator Sys.emptyWorld
       = (Eff.Throw "ENOSPC: no space left on device", w')
       /\ Sys.written w'
          = [] ++ map (Spec.inputTypeFile env Examples.inputsGenerator)
                    [Examples.postCreate].
Proof.
  intros env.
  assert (H1 : In "inputs" (Options.blocksToEmit
                 (InputBlock.documentOptions
                    (InputBlock.dmmfDocument Examples.inputsGenerator))))
    by (simpl; tauto).
  assert (H4 : forall t, In t [Examples.postCreate] ->
            Sys.writeFileError env
              (Spec.inputTypePath env Examples.inputsGenerator t) = None)
    by (intros t [<-|[]]; reflexivity).
  split; [exact H1|]. split; [reflexivity|]. split; [reflexivity|].
  split; [exact H4|]. split; [reflexivity|].
  destruct (input_block_write_failure env Examples.inputsGenerator
              Sys.emptyWorld [Examples.postCreate] [] Examples.userCreate
              "ENOSPC: no space left on device" H1 eq_refl eq_refl H4 eq_refl)
    as (w' & Hrun & Hwr & _).
  exists w'. split; [exact Hrun | exact Hwr].
Defined.

(** X9 on the four auxiliary files of a run. *)
Lemma sequential_emit_writes_witness :
  Sys.saveError Examples.env0 = None
  /\ Forall (fun p => Sys.writeFileError Examples.env0
                        (SequentialEmit.replaceTsSuffix p) = None)
       (GenerateCode.flatPaths Examples.stagedWorld)
  /\ exists w',
       SequentialEmit.fastEmitTranspiledCode Examples.env0 false
         (fun p => p) (fun _ => 0) "/out" Examples.stagedWorld
       = (Eff.Ok tt, w')
       /\ map fst (Sys.written w')
          = ["/out/enhance.js"; "/out/helpers.js"; "/out/index.js";
             "/out/scalars.js"].
Proof.
  assert (H2 : Forall (fun p => Sys.writeFileError Examples.env0
                          (SequentialEmit.replaceTsSuffix p) = None)
                 (GenerateCode.flatPaths Examples.stagedWorld))
    by (repeat constructor).
  split; [reflexivity|]. split; [exact H2|].
  destruct (sequential_emit_writes Examples.env0 false (fun p => p)
              (fun _ => 0) "/out" Examples.stagedWorld eq_refl H2)
    as (w' & Hrun & Hwr & _).
  exists w'. split; [exact Hrun|]. rewrite Hwr. reflexivity.
Defined.

(** X10 on a disk that refuses the third [.js] file. *)
Lemma sequential_emit_failure_witness :
  let env := Scenarios.diskFull "/out/helpers.js" in
  Sys.saveError env = None
  /\ (exists p, In p (GenerateCode.flatPaths Examples.stagedWorld)
                /\ Sys.writeFileError env (SequentialEmit.replaceTsSuffix p)
                   <> None)
  /\ exists e w',
       SequentialEmit.fastEmitTranspiledCode env false
         (fun p => p) (fun _ => 0) "/out" Examples.stagedWorld
       = (Eff.Throw e, w').
Proof.
  intros env.
  assert (H2 : exists p, In p (GenerateCode.flatPaths Examples.stagedWorld)
                 /\ Sys.writeFileError env (SequentialEmit.replaceTsSuffix p)
                    <> None).
  { exists "/out/helpers.ts". split; [simpl; tauto | discriminate]. }
  split; [reflexivity|]. split; [exact H2|].
  destruct (sequential_emit_failure env false (fun p => p) (fun _ => 0)
              "/out" Examples.stagedWorld eq_refl H2)
    as (e & w' & Hrun & _).
  exists e, w'. exact Hrun.
Defined.

(** ** The module the Prisma namespace is imported from *)

Section PrismaImport.
Import GenerateCode TypeClass.

(** X11.  The Prisma import of the files of a run, from the options as
    [generate] builds them.  Without a custom import path it is
    [@prisma/client] when the client path contains [node_modules], and
    otherwise two levels above the relative client path; with a custom
    import path it is two levels above that path, except that an empty
    custom path counts as none for the [node_modules] rule and still
    replaces the relative path otherwise, which gives the directory [../..]. *)
Theorem prisma_import_of_run (env : Sys.Env) (baseOptions : Options.BaseOptions) :
  let options := makeOptions env baseOptions in
  let inNodeModules :=
    JS.includes (Options.basePrismaClientPath baseOptions) "node_modules" in
  match Options.baseCustomPrismaImportPath baseOptions with
  | None =>
      prismaModuleSpecifier options
      = if inNodeModules then "@prisma/client"
        else Path.join
               [".."; "..";
                Path.join
                  [Sys.relativeUnixPath env
                     (Options.baseOutputDirPath baseOptions)
                     (Options.basePrismaClientPath baseOptions);
                   "client"]]
  | Some custom =>
      prismaModuleSpecifier options
      = if (Path.isEmpty custom && inNodeModules)%bool then "@prisma/client"
        else if Path.isEmpty custom then "../.."
        else Path.join [".."; ".."; custom]
  end.
Proof.
  unfold prismaModuleSpecifier, makeOptions, truthyString, JS.nullish.
  cbn [Options.absolutePrismaOutputPath Options.customPrismaImportPath
       Options.relativePrismaOutputPath].
  destruct (Options.baseCustomPrismaImportPath baseOptions) as [custom|].
  - destruct custom as [|c custom].
    + cbn [Path.isEmpty negb andb].
      destruct (JS.includes _ _); reflexivity.
    + cbn [Path.isEmpty negb andb]. reflexivity.
  - cbn [negb andb]. destruct (JS.includes _ _); reflexivity.
Qed.

End PrismaImport.

(** ** The two generators of an input type *)

Section TwoGenerators.
Import Extra Spec DMMF Sys InputBlock TypeClass.
Variable env : Env.
Variable this : InputBlockGenerator.
Hypothesis absolute_cwd : Path.startsWithSlash (cwd env) = true.


End TwoGenerators.


(** ** The order of the fields and the imports *)

Section FieldOrder.
Import Spec DMMF TypeClass.

Lemma refersTo_perm (t1 t2 : InputType.t) (isLocation : FieldLocation -> bool)
  (name : string) :
  Permutation (InputType.fields t1) (InputType.fields t2) ->
  refersTo t1 isLocation name -> refersTo t2 isLocation name.
Proof.
  intros Hperm (field & Hin & Hloc & Hty). exists field.
  split; [|now split]. eapply Permutation_in; eassumption.
Qed.

(** X13.  The import lines do not depend on the order of the fields: two
    input types of the same name whose fields are the same up to their order
    have the same input imports, the same enum imports and the same scalars
    import, hence the same lines up to the class head. *)
Theorem imports_independent_of_field_order (t1 t2 : InputType.t)
  (options : Options.GeneratorOptions) :
  InputType.typeName t1 = InputType.typeName t2 ->
  Permutation (InputType.fields t1) (InputType.fields t2) ->
  inputTypeImports t1 = inputTypeImports t2
  /\ enumImports t1 = enumImports t2
  /\ scalarsImportLine t1 = scalarsImportLine t2
  /\ exists body1 body2,
       generateInputTypeLines t1 options
       = (headerLines t1 options ++ classHeadLine t1 :: body1)%list
       /\ generateInputTypeLines t2 options
          = (headerLines t1 options ++ classHeadLine t1 :: body2)%list.
Proof.
  intros Hname Hperm.
  assert (Hin : inputTypeImports t1 = inputTypeImports t2).
  { apply sorted_unique.
    - apply (sorted_set _).
    - apply (sorted_set _).
    - intros name. rewrite !inputTypeImports_In, Hname.
      split; intros [Href Hne]; (split; [|exact Hne]);
        eapply refersTo_perm; try eassumption. now symmetry. }
  assert (Hen : enumImports t1 = enumImports t2).
  { apply sorted_unique.
    - apply (sorted_set _).
    - apply (sorted_set _).
    - intros name. rewrite !enumImports_In.
      split; intros Href; eapply refersTo_perm; try eassumption. now symmetry. }
  assert (Hby : hasBytes t1 = hasBytes t2).
  { apply eq_true_iff_eq. rewrite !hasBytes_spec.
    split; intros (field & Hf & Hty); exists field; (split; [|exact Hty]);
      eapply Permutation_in; try eassumption. now symmetry. }
  assert (Hsc : scalarsImportLine t1 = scalarsImportLine t2)
    by (unfold scalarsImportLine; now rewrite Hby).
  repeat (split; [assumption|]).
  eexists _, _. split; [apply lines_shape|].
  rewrite (lines_shape t2). unfold headerLines, classHeadLine, classDecoratorLine.
  now rewrite <- Hin, <- Hen, <- Hsc, <- Hname.
Qed.

End FieldOrder.

(** X13 on a type with two fields and the type with the fields swapped. *)
Lemma imports_independent_of_field_order_witness :
  let a := Examples.fld "color" "color" DMMF.enumTypes "Color" true false false in
  let b := Examples.fld "author" "author" DMMF.inputObjectTypes "UserCreateInput"
             true false false in
  DMMF.InputType.typeName (DMMF.InputType.mk "PostInput" [a; b])
  = DMMF.InputType.typeName (DMMF.InputType.mk "PostInput" [b; a])
  /\ Permutation (DMMF.InputType.fields (DMMF.InputType.mk "PostInput" [a; b]))
       (DMMF.InputType.fields (DMMF.InputType.mk "PostInput" [b; a]))
  /\ TypeClass.inputTypeImports (DMMF.InputType.mk "PostInput" [a; b])
     = TypeClass.inputTypeImports (DMMF.InputType.mk "PostInput" [b; a]).
Proof.
  intros a b.
  assert (H2 : Permutation
                 (DMMF.InputType.fields (DMMF.InputType.mk "PostInput" [a; b]))
                 (DMMF.InputType.fields (DMMF.InputType.mk "PostInput" [b; a])))
    by apply perm_swap.
  split; [reflexivity|]. split; [exact H2|].
  exact (proj1 (imports_independent_of_field_order
                  (DMMF.InputType.mk "PostInput" [a; b])
                  (DMMF.InputType.mk "PostInput" [b; a])
                  Examples.opts eq_refl H2)).
Defined.

(** ** The class of an output type *)

Section OutputTypes.
Import DMMF TypeClass OutputTypeClass.
Variable pascalCase : string -> string.
Variable isModelTypeName : string -> bool.

Lemma combine_filter_snd {A : Type} (p : A -> bool) (l : list A) :
  forall idx : list nat, length idx = length l ->
  map snd (filter (fun x => p (snd x)) (combine idx l)) = filter p l.
Proof.
  induction l as [|a l IH]; intros [|i idx] Hlen; try discriminate; auto.
  simpl in *. destruct (p a); simpl; rewrite IH by lia; reflexivity.
Qed.

Lemma withIdentity_filter {A : Type} (p : A -> bool) (l : list A) :
  map snd (filter (fun x => p (snd x)) (withIdentity l)) = filter p l.
Proof. apply combine_filter_snd. apply length_seq. Qed.

Lemma withIdentity_NoDup {A : Type} (l : list A) :
  NoDup (map fst (withIdentity l)).
Proof.
  unfold withIdentity.
  assert (H : forall (idx : list nat), length idx = length l ->
            map fst (combine idx l) = idx).
  { induction l as [|a l IH]; intros [|i idx] Hlen; try discriminate; auto.
    simpl in *. now rewrite IH by lia. }
  rewrite H by apply length_seq. apply seq_NoDup.
Qed.

Lemma filter_twice {A : Type} (p q : A -> bool) (l : list A) :
  filter p (filter q l) = filter (fun x => q x && p x)%bool l.
Proof.
  induction l as [|a l IH]; simpl; [reflexivity|].
  destruct (q a); simpl; [destruct (p a)|]; now rewrite IH.
Qed.

Lemma filter_same {A : Type} (p q : A -> bool) (l : list A) :
  (forall x, In x l -> p x = q x) -> filter p l = filter q l.
Proof.
  induction l as [|a l IH]; intros H; simpl; [reflexivity|].
  rewrite (H a) by now left. rewrite IH by (intros; apply H; now right).
  reflexivity.
Qed.

(** [arr.filter(q).includes(x)] for an element [x] of [arr]: the element
    itself decides. *)
Lemma includesObject_filter {A : Type} (q : nat * A -> bool)
  (arr : list (nat * A)) (x : nat * A) :
  NoDup (map fst arr) -> In x arr ->
  includesObject (filter q arr) x = q x.
Proof.
  intros Hnd Hin. unfold includesObject.
  destruct (q x) eqn:Hq.
  - apply existsb_exists. exists x. split; [|apply Nat.eqb_refl].
    apply filter_In. now split.
  - apply not_true_is_false. intros H.
    apply existsb_exists in H as (y & Hy & Heq).
    apply filter_In in Hy as (Hy & Hqy). apply Nat.eqb_eq in Heq.
    assert (y = x); [|congruence].
    clear Hq Hqy. induction arr as [|z arr IH]; [contradiction|].
    simpl in Hnd. inversion Hnd as [|? ? Hz Hnd']; subst.
    destruct Hin as [->|Hin], Hy as [->|Hy]; auto.
    + exfalso. apply Hz. rewrite <- Heq. now apply in_map.
    + exfalso. apply Hz. rewrite Heq. now apply in_map.
Qed.

Lemma filter_split_perm {A : Type} (p : A -> bool) (l : list A) :
  Permutation (filter (fun x => negb (p x)) l ++ filter p l) l.
Proof.
  induction l as [|a l IH]; simpl; [constructor|].
  destruct (p a); simpl.
  - symmetry. apply Permutation_cons_app. now symmetry.
  - now constructor.
Qed.

Let fieldType (field : OutputField.t) : string :=
  DMMF.type (OutputField.outputType field).

Let isObjectField (field : OutputField.t) : bool :=
  isOutputObjectTypes (location (OutputField.outputType field)).

(** X14.  The imports of an output type.  The fields that refer to output
    object types are split by [isModelTypeName]: the types of the model ones
    go to the models import, the types of the others to the outputs import,
    in the order of the fields and with repetitions kept, so that no name
    goes to both; the args import gets the args type of every field that has
    one. *)
Theorem output_imports_split (cwd dirPath : string) (type : OutputType.t)
  (emitIsAbstract simpleResolvers : bool) :
  let staged :=
    generateOutputTypeClassFromType pascalCase isModelTypeName cwd dirPath
      type emitIsAbstract simpleResolvers in
  let objectFields := filter isObjectField (OutputType.fields type) in
  modelsImportsArgument staged
  = map fieldType (filter (fun f => isModelTypeName (fieldType f)) objectFields)
  /\ outputsImportsArgument staged
     = map fieldType
         (filter (fun f => negb (isModelTypeName (fieldType f))) objectFields)
  /\ (forall name, In name (modelsImportsArgument staged) ->
                   ~ In name (outputsImportsArgument staged))
  /\ Permutation
       (outputsImportsArgument staged ++ modelsImportsArgument staged)
       (map fieldType objectFields)
  /\ argsImportsArgument staged
     = map argsTypeNameOf (filter hasArgs (OutputType.fields type)).
Proof.
  intros staged objectFields.
  assert (Hmodels : modelsImportsArgument staged
            = map fieldType
                (filter (fun f => isModelTypeName (fieldType f)) objectFields)).
  { unfold staged, generateOutputTypeClassFromType, objectFields.
    cbn [modelsImportsArgument].
    rewrite !filter_twice.
    rewrite <- (withIdentity_filter
                  (fun f => isObjectField f && isModelTypeName (fieldType f))%bool).
    now rewrite map_map. }
  assert (Houtputs : outputsImportsArgument staged
            = map fieldType
                (filter (fun f => negb (isModelTypeName (fieldType f)))
                   objectFields)).
  { unfold staged, generateOutputTypeClassFromType, objectFields.
    cbn [outputsImportsArgument].
    set (fields := withIdentity (OutputType.fields type)).
    set (isObject := fun field : nat * OutputField.t =>
                       isOutputObjectTypes
                         (location (OutputField.outputType (snd field)))).
    set (isModel := fun field : nat * OutputField.t =>
                      isModelTypeName
                        (DMMF.type (OutputField.outputType (snd field)))).
    rewrite (filter_same
               (fun field => negb (includesObject
                                     (filter isModel (filter isObject fields))
                                     field))
               (fun field => negb (isModel field))).
    - rewrite !filter_twice.
      rewrite <- (withIdentity_filter
                    (fun f => isObjectField f
                              && negb (isModelTypeName (fieldType f)))%bool).
      now rewrite map_map.
    - intros x Hx. f_equal. apply includesObject_filter; [|exact Hx].
      clear Hx. pose proof (withIdentity_NoDup (OutputType.fields type)) as Hnd.
      fold fields in Hnd. induction fields as [|y ys IH]; simpl; [constructor|].
      simpl in Hnd. inversion Hnd as [|? ? Hy Hnd']; subst.
      destruct (isObject y); simpl; [constructor|]; auto.
      intros Hin. apply Hy. apply in_map_iff in Hin as (z & Hz & Hin).
      apply filter_In in Hin as [Hin _]. rewrite <- Hz. now apply in_map. }
  split; [exact Hmodels|]. split; [exact Houtputs|]. split; [|split].
  - rewrite Hmodels, Houtputs. intros name H1 H2.
    apply in_map_iff in H1 as (f1 & <- & H1). apply filter_In in H1 as [_ H1].
    apply in_map_iff in H2 as (f2 & E & H2). apply filter_In in H2 as [_ H2].
    rewrite E, H1 in H2. discriminate.
  - rewrite Hmodels, Houtputs, <- map_app. apply Permutation_map.
    apply (filter_split_perm (fun f => isModelTypeName (fieldType f))).
  - unfold staged, generateOutputTypeClassFromType.
    cbn [argsImportsArgument].
    rewrite <- (withIdentity_filter hasArgs). now rewrite map_map.
Qed.

(** X15.  The members of the class of an output type.  A field without
    arguments becomes a decorated property; a field with arguments becomes an
    undecorated property and a decorated getter method; the properties of
    the fields without arguments come first; and every field is exposed by
    exactly one [Field] decorator. *)
Theorem output_class_members (cwd dirPath : string) (type : OutputType.t)
  (emitIsAbstract simpleResolvers : bool) :
  let class :=
    outputSourceFileClass
      (generateOutputTypeClassFromType pascalCase isModelTypeName cwd dirPath
         type emitIsAbstract simpleResolvers) in
  let fields := OutputType.fields type in
  outputClassProperties class
  = (map plainOutputProperty (filter (fun f => negb (hasArgs f)) fields)
       ++ map backingOutputProperty (filter hasArgs fields))%list
  /\ outputClassMethods class
     = map (getterMethod pascalCase (OutputType.typeName type))
         (filter hasArgs fields)
  /\ Permutation (map propertyName (outputClassProperties class))
       (map OutputField.name fields)
  /\ length (concat (map propertyDecorators (outputClassProperties class)))
     + length (concat (map methodDecorators (outputClassMethods class)))
     = length fields.
Proof.
  intros class fields.
  assert (Hprops : outputClassProperties class
            = (map plainOutputProperty (filter (fun f => negb (hasArgs f)) fields)
                 ++ map backingOutputProperty (filter hasArgs fields))%list).
  { unfold class, generateOutputTypeClassFromType.
    cbn [outputSourceFileClass outputClassProperties].
    rewrite <- (withIdentity_filter hasArgs).
    rewrite <- (withIdentity_filter (fun f => negb (hasArgs f))).
    now rewrite !map_map. }
  assert (Hmethods : outputClassMethods class
            = map (getterMethod pascalCase (OutputType.typeName type))
                (filter hasArgs fields)).
  { unfold class, generateOutputTypeClassFromType.
    cbn [outputSourceFileClass outputClassMethods].
    rewrite <- (withIdentity_filter hasArgs). now rewrite map_map. }
  split; [exact Hprops|]. split; [exact Hmethods|]. split.
  - rewrite Hprops, map_app, !map_map. cbn [plainOutputProperty
      backingOutputProperty propertyName].
    rewrite <- map_app. apply Permutation_map. apply filter_split_perm.
  - rewrite Hprops, Hmethods, map_app, concat_app, length_app.
    rewrite !map_map. cbn [plainOutputProperty backingOutputProperty
      propertyDecorators getterMethod methodDecorators].
    pose proof (Permutation_length (filter_split_perm hasArgs fields)) as Hlen.
    rewrite length_app in Hlen. rewrite <- Hlen.
    assert (Hone : forall (A B : Type) (d : A -> B) (l : list A),
              length (concat (map (fun x => [d x]) l)) = length l).
    { intros A B d l. induction l; simpl; auto. }
    assert (Hnone : forall (A B : Type) (l : list A),
              length (concat (map (fun _ => @nil B) l)) = 0).
    { intros A B l. induction l; simpl; auto. }
    rewrite !Hone, Hnone. lia.
Qed.

End OutputTypes.

(** ** The run up to the emission *)

Section StagedRun.
Import Spec Eff Sys GenerateCode Extra.
Variable env : Env.
Variable hasMetrics : bool.

Lemma forEach_log (msgs : list string) :
  forall w,
    forEach msgs (fun msg => log msg) w
    = (Ok tt,
       mkWorld (clockReads w) (logs w ++ msgs) (metrics w) (completed w)
         (directories w) (written w) (staged w) (stagedInput w) (saved w)
         (spawned w)).
Proof.
  induction msgs as [|msg msgs IH]; intros w.
  - simpl. unfold ret. rewrite app_nil_r. now destruct w.
  - cbn [forEach]. unfold bind at 1. unfold log at 1, modify.
    rewrite IH. world_simpl. unfold JS.push. now rewrite <- app_assoc.
Qed.

Lemma forEach_stage (name : string) (files : list (ProjectId * string)) :
  forall w,
    exists w',
      forEach files
        (fun f => stageSourceFile env (fst f) (snd f) (blockFile name)) w
      = (Ok tt, w')
      /\ onlyStaged w w'.
Proof.
  induction files as [|f files IH]; intros w.
  - exists w. split; [reflexivity|]. unfold onlyStaged. tauto.
  - cbn [forEach]. unfold bind at 1. unfold stageSourceFile at 1, modify.
    match goal with
    | |- context [forEach _ _ ?W] => destruct (IH W) as (w' & Hrun & Hsame)
    end.
    exists w'. split; [exact Hrun|].
    unfold onlyStaged in *. destruct (fst f); world_simpl; exact Hsame.
Qed.

(** The blocks in turn: their log lines, the paths they wrote and the
    metrics of the timed ones accumulate; no block run fails by itself. *)
Lemma runBlocks_run (runs : list BlockRun) :
  forall directWritten w,
    exists w',
      runBlocks env hasMetrics runs directWritten w
      = (Ok (directWritten ++ concat (map blockPaths runs)), w')
      /\ clockReads w' = clockReads w
      /\ logs w' = logs w ++ concat (map blockLogs runs)
      /\ metrics w'
         = metrics w
           ++ (if hasMetrics then map blockMetric (filter blockIsTimed runs)
               else [])
      /\ nothingEmitted w w'.
Proof.
  induction runs as [|run runs IH]; intros directWritten w.
  - exists w. simpl. unfold ret, nothingEmitted.
    rewrite !app_nil_r. destruct hasMetrics; rewrite ?app_nil_r; tauto.
  - cbn [runBlocks]. unfold bind at 1. rewrite forEach_log.
    unfold bind at 1.
    match goal with
    | |- context [forEach (blockStaged run) ?body ?W] =>
        destruct (forEach_stage (blockName run) (blockStaged run) W)
          as (w1 & Hrun1 & Hsame1)
    end.
    rewrite Hrun1. unfold bind at 1. unfold onBlock.
    fold (blockIsTimed run). fold (blockPaths run). fold (blockMetric run).
    unfold onlyStaged in Hsame1. world_simpl.
    destruct Hsame1 as (Hc & Hl & Hm & Hd & Hdir & Hwr & Hsv & Hsp).
    destruct (hasMetrics && blockIsTimed run)%bool eqn:Hemit;
      unfold when, bind at 1, recordMetric, modify, ret;
      match goal with
      | |- context [runBlocks _ _ _ ?paths ?W] =>
          destruct (IH paths W) as (w2 & Hrun2 & Hc2 & Hl2 & Hm2 & He2)
      end;
      exists w2; rewrite Hrun2; unfold nothingEmitted in *; world_simpl;
      destruct He2 as (Hsv2 & Hsp2 & Hd2 & Hwr2 & Hdir2);
      rewrite Hc2, Hl2, Hm2, Hsv2, Hsp2, Hd2, Hwr2, Hdir2,
        ?Hc, ?Hl, ?Hm, ?Hd, ?Hdir, ?Hwr, ?Hsv, ?Hsp;
      cbn [map concat]; rewrite <- !app_assoc;
      (split; [reflexivity|]); (split; [reflexivity|]);
      (split; [reflexivity|]); (split; [|tauto]).
    + apply andb_prop in Hemit as [-> Htimed]. cbn [filter]. rewrite Htimed.
      unfold JS.push. rewrite <- app_assoc. reflexivity.
    + destruct hasMetrics; [|reflexivity].
      cbn [andb] in Hemit. cbn [filter]. now rewrite Hemit.
Qed.

(** X16.  The callback handed to [generateAllBlocks]: the paths the blocks
    wrote directly are collected in the order of the blocks, also those of a
    block that reports no elapsed time; a metric [<block>-generation] is
    emitted for exactly the blocks whose elapsed time is given and not zero,
    and only when a listener is there; a failure of the factory is thrown
    after the blocks have run. *)
Theorem block_callback_collects (w : World) :
  exists w',
    generateAllBlocks env hasMetrics w
    = (match blocksError env with
       | Some e => Throw e
       | None => Ok (concat (map blockPaths (blockRuns env)))
       end, w')
    /\ metrics w'
       = metrics w
         ++ (if hasMetrics
             then map blockMetric (filter blockIsTimed (blockRuns env))
             else [])
    /\ logs w' = logs w ++ concat (map blockLogs (blockRuns env))
    /\ nothingEmitted w w'.
Proof.
  unfold generateAllBlocks. unfold bind at 1.
  destruct (runBlocks_run (blockRuns env) [] w)
    as (w' & Hrun & _ & Hl & Hm & He).
  rewrite Hrun. exists w'. cbn [app].
  destruct (blocksError env); unfold bind, failWhen, throw, ret; tauto.
Qed.

End StagedRun.

(** ** Runs of [generate] *)

Section WholeRun.
Import Spec Eff Sys GenerateCode Extra.
Variable env : Env.
Variable hasMetrics : bool.
Variable baseOptions : Options.BaseOptions.

(** The run up to the emission: it ends with the first fatal error, if
    there is one, then with the first auxiliary file that cannot be created,
    and otherwise with the paths of the blocks and the four auxiliary files
    staged; nothing has left the projects by then. *)
Lemma stagePhase_run (w : World) :
  match firstFatalError env with
  | Some e =>
      exists w1,
        stagePhase env hasMetrics baseOptions w = (Throw e, w1)
        /\ nothingEmitted w w1
  | None =>
      match auxiliaryError env
              (Options.outputDirPath (makeOptions env baseOptions)) with
      | Some e =>
          exists w1,
            stagePhase env hasMetrics baseOptions w = (Throw e, w1)
            /\ nothingEmitted w w1
      | None =>
          exists startTime emitStart w1,
            stagePhase env hasMetrics baseOptions w
            = (Ok (startTime, concat (map blockPaths (blockRuns env)),
                   emitStart), w1)
            /\ nothingEmitted w w1
            /\ Forall (fun p => In p (map fst (staged w1)))
                 (auxiliaryFiles
                    (Options.outputDirPath (makeOptions env baseOptions)))
      end
  end.
Proof.
  unfold stagePhase, firstFatalError, generateAllBlocks, emitMetric,
    createSourceFile, stageSourceFile, auxiliaryError, auxiliaryFiles.
  cbn [map firstError].
  set (out := Options.outputDirPath (makeOptions env baseOptions)).
  destruct (prismaPackageError env) as [e|].
  { run_effects. eexists. split; [reflexivity|].
    unfold nothingEmitted. world_simpl. tauto. }
  destruct (documentError env) as [e|].
  { run_effects. eexists. split; [reflexivity|].
    unfold nothingEmitted. world_simpl. tauto. }
  destruct hasMetrics; run_effects;
    match goal with
    | |- context [runBlocks ?e ?hm ?runs [] ?W] =>
        destruct (runBlocks_run e hm runs [] W)
          as (w1 & Hrun & Hc & Hl & Hm & Hsv & Hsp & Hd & Hwr & Hdir);
        rewrite Hrun; clear Hrun
    end;
    world_simpl; cbn [app];
    (destruct (blocksError env) as [e|]; run_effects;
     [ eexists; split; [reflexivity|]; unfold nothingEmitted; tauto |]);
    (destruct (createSourceFileError env (out ++ "/enhance.ts")) as [e|];
     run_effects;
     [ eexists; split; [reflexivity|]; unfold nothingEmitted; world_simpl;
       tauto |]);
    (destruct (createSourceFileError env (out ++ "/scalars.ts")) as [e|];
     run_effects;
     [ eexists; split; [reflexivity|]; unfold nothingEmitted; world_simpl;
       tauto |]);
    (destruct (createSourceFileError env (out ++ "/helpers.ts")) as [e|];
     run_effects;
     [ eexists; split; [reflexivity|]; unfold nothingEmitted; world_simpl;
       tauto |]);
    (destruct (createSourceFileError env (out ++ "/index.ts")) as [e|];
     run_effects;
     [ eexists; split; [reflexivity|]; unfold nothingEmitted; world_simpl;
       tauto |]);
    (eexists _, _, _; split; [reflexivity|]; unfold nothingEmitted;
     world_simpl; split; [tauto|];
     repeat (apply Forall_cons || apply Forall_nil);
     repeat (apply overwrite_In || apply overwrite_keeps)).
Qed.

(** What follows the staging: the emission, and, when it ends well, the
    formatting step and the closing metrics, which touch no file. *)
Lemma generate_after_stage (w w1 : World) (startTime emitStart : Z)
  (directWritten : list string) :
  stagePhase env hasMetrics baseOptions w
  = (Ok (startTime, directWritten, emitStart), w1) ->
  let emitted :=
    emitPhase env hasMetrics (makeOptions env baseOptions) directWritten w1 in
  match fst emitted with
  | Ok _ =>
      fst (generate env hasMetrics baseOptions w) = Ok tt
      /\ sameFiles (snd emitted) (snd (generate env hasMetrics baseOptions w))
      /\ completed (snd (generate env hasMetrics baseOptions w))
         = (hasMetrics || completed (snd emitted))%bool
  | Throw e =>
      generate env hasMetrics baseOptions w = (Throw e, snd emitted)
  | Hang => generate env hasMetrics baseOptions w = (Hang, snd emitted)
  end.
Proof.
  intros Hstage emitted.
  assert (G : generate env hasMetrics baseOptions w
              = bind (emitPhase env hasMetrics (makeOptions env baseOptions)
                        directWritten)
                  (fun _ => finishPhase env hasMetrics
                              (makeOptions env baseOptions) startTime emitStart)
                  w1).
  { rewrite generate_phases. unfold bind at 1. now rewrite Hstage. }
  rewrite G. unfold bind. fold emitted.
  destruct emitted as [[[]|e|] w2]; cbn [fst snd]; try reflexivity.
  destruct (finishPhase_spec env hasMetrics (makeOptions env baseOptions)
              startTime emitStart w2) as (w3 & Hrun & Hsame & Hdone & _).
  rewrite Hrun. cbn [fst snd]. auto.
Qed.

(** X17.  A failure of the package check, of the construction of the
    document or of a block ends [generate] with that error, the first of the
    three that occurs: no staged file is saved, no worker is started, the
    listener is not told of a completion, and the disk is as the blocks left
    it. *)
Theorem fatal_error_saves_nothing (w : World) (e : string) :
  firstFatalError env = Some e ->
  exists w',
    generate env hasMetrics baseOptions w = (Throw e, w')
    /\ saved w' = saved w /\ spawned w' = spawned w
    /\ completed w' = completed w.
Proof.
  intros Hfatal. pose proof (stagePhase_run w) as Hstage.
  rewrite Hfatal in Hstage. destruct Hstage as (w1 & Hrun & Hsv & Hsp & Hd & _).
  exists w1. rewrite generate_phases. unfold bind at 1. rewrite Hrun. auto.
Qed.

(** The emission in source mode: the projects are saved, or the failure
    to save them is thrown. *)
Lemma sourceEmit_run (directWritten : list string) (w1 : World) :
  emitTranspiledCodeOf (makeOptions env baseOptions) = false ->
  exists w2,
    emitPhase env hasMetrics (makeOptions env baseOptions) directWritten w1
    = (match saveError env with Some e => Throw e | None => Ok tt end, w2)
    /\ spawned w2 = spawned w1
    /\ staged w2 = staged w1 /\ stagedInput w2 = stagedInput w1
    /\ completed w2 = completed w1
    /\ saved w2
       = saved w1
         ++ match saveError env with Some _ => [] | None => flatPaths w1 end.
Proof.
  intros Hmode. unfold emitPhase. rewrite Hmode.
  unfold saveProjects, emitMetric, flatPaths.
  destruct (saveError env) as [e|]; [|destruct hasMetrics]; run_effects;
    (eexists; split; [reflexivity|]); world_simpl;
    rewrite ?app_nil_r; tauto.
Qed.

(** X18.  A run in source mode that no fatal error ends.  No worker is
    started.  When one of the four auxiliary files cannot be created the run
    throws the error of the first such file, before anything is saved; when
    they are created and the projects cannot be saved, it throws that error;
    in both cases no completion is told.  Otherwise the run returns,
    whatever the formatter does, the saved paths are those of the staged
    files of the two projects, the four auxiliary files among them, and a
    listener is told of the completion. *)
Theorem source_mode_run (w : World) :
  firstFatalError env = None ->
  emitTranspiledCodeOf (makeOptions env baseOptions) = false ->
  let run := generate env hasMetrics baseOptions w in
  spawned (snd run) = spawned w
  /\ match auxiliaryError env
             (Options.outputDirPath (makeOptions env baseOptions)) with
     | Some e =>
         fst run = Throw e
         /\ saved (snd run) = saved w
         /\ completed (snd run) = completed w
     | None =>
         match saveError env with
         | Some e =>
             fst run = Throw e
             /\ completed (snd run) = completed w
         | None =>
             fst run = Ok tt
             /\ saved (snd run) = saved w ++ flatPaths (snd run)
             /\ Forall (fun p => In p (saved (snd run)))
                  (auxiliaryFiles
                     (Options.outputDirPath (makeOptions env baseOptions)))
             /\ completed (snd run) = (hasMetrics || completed w)%bool
         end
     end.
Proof.
  intros Hfatal Hmode run. pose proof (stagePhase_run w) as Hstage.
  rewrite Hfatal in Hstage.
  destruct (auxiliaryError env _) as [e|].
  { destruct Hstage as (w1 & Hrun & Hsv & Hsp & Hd & _).
    assert (G : generate env hasMetrics baseOptions w = (Throw e, w1)).
    { rewrite generate_phases. unfold bind at 1. now rewrite Hrun. }
    unfold run. rewrite G. cbn [fst snd]. auto. }
  destruct Hstage as (startTime & emitStart & w1 & Hrun & He & Haux).
  destruct He as (Hsv & Hsp & Hd & _).
  pose proof (generate_after_stage w w1 startTime emitStart _ Hrun) as Hafter.
  cbv zeta in Hafter. fold run in Hafter.
  destruct (sourceEmit_run (concat (map blockPaths (blockRuns env))) w1 Hmode)
    as (w2 & Hemit & Hsp2 & Hst2 & Hsti2 & Hd2 & Hsv2).
  rewrite Hemit in Hafter. cbn [fst snd] in Hafter.
  destruct (saveError env) as [e|].
  - rewrite Hafter. cbn [fst snd]. rewrite Hsp2, Hd2. auto.
  - destruct Hafter as (Hok & Hsame & Hdone).
    destruct Hsame as (_ & _ & Hst & Hsti & Hsaved & Hspawned).
    rewrite <- Hspawned, <- Hsaved, Hdone, Hsv2, Hsp2, Hd2, Hsv, Hsp, Hd.
    unfold flatPaths. rewrite <- Hst, <- Hsti, Hst2, Hsti2.
    split; [reflexivity|]. split; [exact Hok|].
    split; [reflexivity|]. split; [|reflexivity].
    eapply Forall_impl; [|exact Haux]. cbv beta. intros p Hp.
    apply in_app_iff. right. apply in_app_iff. now left.
Qed.

(** The emission in compiled mode, when the projects are saved and the
    compiler is found: the staged files are saved, and the workers are
    started on them and on the files the blocks wrote. *)
Lemma compiledEmit_run (directWritten : list string) (w1 : World)
  (jsBatches : list (list string)) :
  emitTranspiledCodeOf (makeOptions env baseOptions) = true ->
  saveError env = None ->
  typescriptResolveError env = None ->
  makeBatches (cpuCount env) (flatPaths w1 ++ directWritten) = Some jsBatches ->
  exists w2,
    emitPhase env hasMetrics (makeOptions env baseOptions) directWritten w1
    = (emissionResult env (length jsBatches), w2)
    /\ spawned w2
       = spawned w1 ++ map (pair jsWorker) jsBatches
           ++ [(dtsWorker, flatPaths w1 ++ directWritten)]
    /\ staged w2 = staged w1 /\ stagedInput w2 = stagedInput w1
    /\ completed w2 = completed w1
    /\ saved w2 = saved w1 ++ flatPaths w1.
Proof.
  intros Hmode Hsave Hts Hb. unfold emitPhase. rewrite Hmode.
  unfold bind at 1. unfold log at 1, modify.
  unfold fastEmitTranspiledCode, flatPaths in *. world_simpl.
  rewrite Hb. unfold saveProjects. rewrite Hsave, Hts.
  unfold emissionResult, emitMetric.
  set (announce := ("  Emitting .js (" ++ _)%string).
  destruct hasMetrics; run_effects;
    rewrite forEach_spawn; unfold spawn; run_effects;
    destruct (promiseAll _ _) as [r1|];
    destruct (workerPromise "DTS" (dtsWorkerOutcome env)) as [r2|];
    (eexists; split; [reflexivity|]); world_simpl; unfold JS.push;
    rewrite <- ?app_assoc; repeat split; reflexivity.
Qed.

Lemma makeBatches_concat (cpus : nat) (allFilePaths : list string)
  (jsBatches : list (list string)) :
  makeBatches cpus allFilePaths = Some jsBatches ->
  concat jsBatches = allFilePaths.
Proof.
  destruct allFilePaths as [|path paths].
  - cbv. now intros [= <-].
  - unfold makeBatches. intros Hrun.
    destruct (jsWorkerCount_bounds cpus) as [Hw _].
    destruct (batchLoop_spec (length (path :: paths)) (path :: paths)
                (ceilDiv (length (path :: paths)) (Z.to_nat (jsWorkerCount cpus))))
      with (i := 0) (acc := @nil (list string)) as (bl & Hrun' & Hcat & _).
    + apply ceilDiv_pos; simpl; lia.
    + lia.
    + rewrite Hrun in Hrun'. injection Hrun' as ->. exact Hcat.
Qed.

(** X19.  A run in compiled mode that no fatal error ends, when the four
    auxiliary files are created, the projects are saved and the compiler is
    found.  The staged files are saved; the files handed to the workers are
    the staged files of the two projects, as [getSourceFiles()] lists them,
    followed by the files the blocks wrote directly, which are transpiled
    without being saved by a project: the batches of the transpile workers
    cut that list, and the declaration worker gets all of it.  The run
    returns exactly when every worker exits with code 0, and only then is a
    listener told of the completion. *)
Theorem compiled_mode_run (w : World) :
  firstFatalError env = None ->
  auxiliaryError env (Options.outputDirPath (makeOptions env baseOptions))
  = None ->
  emitTranspiledCodeOf (makeOptions env baseOptions) = true ->
  saveError env = None ->
  typescriptResolveError env = None ->
  let run := generate env hasMetrics baseOptions w in
  let allFilePaths :=
    flatPaths (snd run) ++ concat (map blockPaths (blockRuns env)) in
  exists jsBatches,
    makeBatches (cpuCount env) allFilePaths = Some jsBatches
    /\ concat jsBatches = allFilePaths
    /\ spawned (snd run)
       = spawned w ++ map (pair jsWorker) jsBatches
           ++ [(dtsWorker, allFilePaths)]
    /\ saved (snd run) = saved w ++ flatPaths (snd run)
    /\ Forall (fun p => In p (flatPaths (snd run)))
         (auxiliaryFiles (Options.outputDirPath (makeOptions env baseOptions)))
    /\ (fst run = Ok tt <-> allWorkersExitZero env (length jsBatches))
    /\ completed (snd run)
       = match emissionResult env (length jsBatches) with
         | Ok _ => (hasMetrics || completed w)%bool
         | _ => completed w
         end.
Proof.
  intros Hfatal Haux0 Hmode Hsave Hts run allFilePaths.
  pose proof (stagePhase_run w) as Hstage. rewrite Hfatal, Haux0 in Hstage.
  destruct Hstage as (startTime & emitStart & w1 & Hrun & He & Haux).
  destruct He as (Hsv & Hsp & Hd & _).
  set (blockFiles := concat (map blockPaths (blockRuns env))) in *.
  destruct (makeBatches_total (cpuCount env) (flatPaths w1 ++ blockFiles))
    as (jsBatches & Hb).
  destruct (compiledEmit_run blockFiles w1 jsBatches Hmode Hsave Hts Hb)
    as (w2 & Hemit & Hsp2 & Hst2 & Hsti2 & Hd2 & Hsv2).
  pose proof (generate_after_stage w w1 startTime emitStart _ Hrun) as Hafter.
  cbv zeta in Hafter. fold run in Hafter.
  rewrite Hemit in Hafter. cbn [fst snd] in Hafter.
  destruct (emissionResult_spec env (length jsBatches)) as (Hiff & Hhang & _).
  assert (Hflat : flatPaths (snd run) = flatPaths w1
                  /\ spawned (snd run) = spawned w2
                  /\ saved (snd run) = saved w2
                  /\ fst run = emissionResult env (length jsBatches)
                  /\ completed (snd run)
                     = match emissionResult env (length jsBatches) with
                       | Ok _ => (hasMetrics || completed w)%bool
                       | _ => completed w
                       end).
  { destruct (emissionResult env (length jsBatches)) as [[]|e|].
    - destruct Hafter as (Hok & Hsame & Hdone).
      destruct Hsame as (_ & _ & Hst & Hsti & Hsaved & Hspawned).
      unfold flatPaths. rewrite <- Hst, <- Hsti, Hst2, Hsti2, Hdone, Hd2, Hd.
      repeat split; auto.
    - rewrite Hafter. cbn [fst snd]. unfold flatPaths.
      rewrite Hst2, Hsti2, Hd2, Hd. repeat split; auto.
    - contradiction. }
  destruct Hflat as (Hflat & Hspawned & Hsaved & Hres & Hdone).
  exists jsBatches. unfold allFilePaths. rewrite Hflat.
  split; [exact Hb|]. split; [exact (makeBatches_concat _ _ _ Hb)|].
  split; [now rewrite Hspawned, Hsp2, Hsp|].
  split; [now rewrite Hsaved, Hsv2, Hsv|].
  split.
  { eapply Forall_impl; [|exact Haux]. cbv beta. intros p Hp.
    unfold flatPaths. apply in_app_iff. now left. }
  split; [rewrite Hres; exact Hiff | exact Hdone].
Qed.

End WholeRun.

(** ** What the parallel emission needs before it starts a worker *)

Section EmissionPreconditions.
Import Spec Eff Sys GenerateCode.
Variable env : Env.
Variable hasMetrics : bool.

(** X23.  The parallel emission starts no worker unless the projects are
    saved and the compiler module is found: a failure to save is thrown
    with nothing saved, and a failure to find the compiler is thrown after
    the staged files are saved; in both cases no worker is started and
    nothing is logged. *)
Theorem emission_starts_no_worker_on_failure
  (additionalFilePaths : list string) (baseDirPath : string) (w : World)
  (e : string) :
  (saveError env = Some e
   \/ (saveError env = None /\ typescriptResolveError env = Some e)) ->
  exists w',
    fastEmitTranspiledCode env hasMetrics additionalFilePaths baseDirPath w
    = (Throw e, w')
    /\ spawned w' = spawned w
    /\ logs w' = logs w
    /\ saved w'
       = saved w ++ match saveError env with
                    | Some _ => []
                    | None => flatPaths w
                    end.
Proof.
  intros [Hsave|[Hsave Hts]]; unfold fastEmitTranspiledCode, saveProjects,
    emitMetric, flatPaths; rewrite Hsave; rewrite ?Hts;
    destruct hasMetrics; run_effects;
    (eexists; split; [reflexivity|]); world_simpl;
    rewrite ?app_nil_r; repeat split; reflexivity.
Qed.

End EmissionPreconditions.

(** ** Runs without a listener *)

Section NoListener.
Import Spec Eff Sys GenerateCode Extra.

Section Keeps.
Variable R : World -> World -> Prop.
Hypothesis R_refl : forall w, R w w.
Hypothesis R_trans : forall w1 w2 w3, R w1 w2 -> R w2 w3 -> R w1 w3.

Lemma keeps_ret {A : Type} (a : A) : keeps R (ret a).
Proof. intros w. apply R_refl. Qed.

Lemma keeps_throw {A : Type} (e : string) : keeps R (@throw World A e).
Proof. intros w. apply R_refl. Qed.

Lemma keeps_hang {A : Type} : keeps R (@hang World A).
Proof. intros w. apply R_refl. Qed.

Lemma keeps_failWhen (e : option string) : keeps R (failWhen e).
Proof. destruct e; [apply keeps_throw | apply keeps_ret]. Qed.

Lemma keeps_modify (f : World -> World) :
  (forall w, R w (f w)) -> keeps R (modify f).
Proof. intros H w. apply H. Qed.

Lemma keeps_bind {A B : Type} (m : M World A) (k : A -> M World B) :
  keeps R m -> (forall a, keeps R (k a)) -> keeps R (bind m k).
Proof.
  intros Hm Hk w. unfold bind. specialize (Hm w).
  destruct (m w) as [[a|e|] w1]; cbn [snd] in *; auto.
  eapply R_trans; [exact Hm | apply Hk].
Qed.

Lemma keeps_tryCatch {A : Type} (m : M World A) (handler : string -> M World A) :
  keeps R m -> (forall e, keeps R (handler e)) -> keeps R (tryCatch m handler).
Proof.
  intros Hm Hh w. unfold tryCatch. specialize (Hm w).
  destruct (m w) as [[a|e|] w1]; cbn [snd] in *; auto.
  eapply R_trans; [exact Hm | apply Hh].
Qed.

Lemma keeps_forEach {A : Type} (xs : list A) (body : A -> M World unit) :
  (forall x, keeps R (body x)) -> keeps R (forEach xs body).
Proof.
  intros Hbody. induction xs as [|x xs IH]; cbn [forEach].
  - apply keeps_ret.
  - apply keeps_bind; auto.
Qed.

End Keeps.

Lemma unreported_refl (w : World) : unreported w w.
Proof. split; reflexivity. Qed.

Lemma unreported_trans (w1 w2 w3 : World) :
  unreported w1 w2 -> unreported w2 w3 -> unreported w1 w3.
Proof. intros [H1 H2] [H3 H4]. split; congruence. Qed.

Variable env : Env.

Lemma unreported_now : keeps unreported (now env).
Proof. intros w. split; reflexivity. Qed.

Lemma unreported_log (msg : string) : keeps unreported (log msg).
Proof. intros w. split; reflexivity. Qed.

Lemma unreported_newProjects : keeps unreported newProjects.
Proof. intros w. split; reflexivity. Qed.

Lemma unreported_saveProjects : keeps unreported (saveProjects env).
Proof.
  unfold saveProjects.
  apply (keeps_bind unreported unreported_trans);
    [apply (keeps_failWhen unreported unreported_refl)|].
  intros _ w. split; reflexivity.
Qed.

Lemma unreported_stageSourceFile (project : ProjectId) (path : string)
  (text : SourceText) :
  keeps unreported (stageSourceFile env project path text).
Proof. intros w. destruct project; split; reflexivity. Qed.

Lemma unreported_createSourceFile (project : ProjectId) (path : string)
  (text : SourceText) :
  keeps unreported (createSourceFile env project path text).
Proof.
  unfold createSourceFile.
  apply (keeps_bind unreported unreported_trans);
    [apply (keeps_failWhen unreported unreported_refl)|].
  intros _. apply unreported_stageSourceFile.
Qed.

Lemma unreported_spawn (kind : WorkerKind) (filePaths : list string) :
  keeps unreported (spawn kind filePaths).
Proof. intros w. split; reflexivity. Qed.

Lemma unreported_emitMetric (name : string) (start : Z) (count : option nat) :
  keeps unreported (emitMetric env false name start count).
Proof. intros w. split; reflexivity. Qed.

Lemma unreported_onComplete : keeps unreported (onComplete false).
Proof. intros w. split; reflexivity. Qed.

(** The steps of a run without a listener. *)
Ltac unreported_run :=
  repeat first
    [ apply unreported_now | apply unreported_log
    | apply unreported_newProjects | apply unreported_saveProjects
    | apply unreported_createSourceFile | apply unreported_stageSourceFile
    | apply unreported_spawn
    | apply unreported_emitMetric | apply unreported_onComplete
    | apply (keeps_ret unreported unreported_refl)
    | apply (keeps_throw unreported unreported_refl)
    | apply (keeps_hang unreported unreported_refl)
    | apply (keeps_failWhen unreported unreported_refl)
    | apply (keeps_forEach unreported unreported_refl unreported_trans);
      intros ?
    | apply (keeps_tryCatch unreported unreported_trans); [|intros ?]
    | apply (keeps_bind unreported unreported_trans); [|intros ?]
    | match goal with
      | |- keeps _ (match ?x with _ => _ end) => destruct x
      end ].

Lemma unreported_runBlocks (runs : list BlockRun) :
  forall directWritten,
    keeps unreported (runBlocks env false runs directWritten).
Proof.
  induction runs as [|run runs IH]; intros directWritten; cbn [runBlocks].
  - unreported_run.
  - unfold onBlock. cbn [andb when]. unreported_run. apply IH.
Qed.

Lemma unreported_emit (additionalFilePaths : list string)
  (baseDirPath : string) :
  keeps unreported
    (fastEmitTranspiledCode env false additionalFilePaths baseDirPath).
Proof.
  intros w. unfold fastEmitTranspiledCode. cbv zeta.
  generalize (flatPaths w) as sourceFiles. intros sourceFiles. revert w.
  unreported_run.
Qed.

Lemma unreported_format (options : Options.GeneratorOptions)
  (baseDirPath : string) :
  keeps unreported (formatStep env false options baseDirPath).
Proof.
  unfold formatStep, runFormatter, execa. unreported_run.
Qed.

(** X20.  Without a listener no metric is recorded and no completion is
    told, however the run ends. *)
Theorem no_listener_no_metrics (baseOptions : Options.BaseOptions) (w : World) :
  let run := generate env false baseOptions w in
  metrics (snd run) = metrics w /\ completed (snd run) = completed w.
Proof.
  cbv zeta. revert w. change (keeps unreported (generate env false baseOptions)).
  unfold generate, generateAllBlocks. cbv zeta.
  unreported_run;
    first [ apply unreported_runBlocks | apply unreported_emit
          | apply unreported_format ].
Qed.

End NoListener.

(** X17 on a schema that is rejected. *)
Lemma fatal_error_saves_nothing_witness :
  Extra.firstFatalError Scenarios.brokenSchema = Some "Invalid schema"
  /\ exists w',
       GenerateCode.generate Scenarios.brokenSchema true Examples.base0
         Examples.world1
       = (Eff.Throw "Invalid schema", w')
       /\ Sys.saved w' = [].
Proof.
  split; [reflexivity|].
  destruct (fatal_error_saves_nothing Scenarios.brokenSchema true
              Examples.base0 Examples.world1 "Invalid schema" eq_refl)
    as (w' & Hrun & Hsaved & _).
  exists w'. split; [exact Hrun | exact Hsaved].
Defined.

(** X18 on the machine of the scenario, and on a machine on which a file
    stands where the output directory should be. *)
Lemma source_mode_run_witness :
  Extra.firstFatalError Examples.env0 = None
  /\ GenerateCode.emitTranspiledCodeOf
       (GenerateCode.makeOptions Examples.env0 Scenarios.sourceBase) = false
  /\ fst (GenerateCode.generate Examples.env0 false Scenarios.sourceBase
            Sys.emptyWorld) = Eff.Ok tt
  /\ Sys.spawned
       (snd (GenerateCode.generate Examples.env0 false Scenarios.sourceBase
               Sys.emptyWorld)) = []
  /\ Extra.firstFatalError Scenarios.fileInTheWay = None
  /\ fst (GenerateCode.generate Scenarios.fileInTheWay false
            Scenarios.sourceBase Sys.emptyWorld)
     = Eff.Throw "ENOTDIR: not a directory".
Proof.
  split; [reflexivity|]. split; [reflexivity|].
  pose proof (source_mode_run Examples.env0 false Scenarios.sourceBase
                Sys.emptyWorld eq_refl eq_refl) as H.
  pose proof (source_mode_run Scenarios.fileInTheWay false Scenarios.sourceBase
                Sys.emptyWorld eq_refl eq_refl) as H'.
  split; [exact (proj1 (proj2 H))|]. split; [exact (proj1 H)|].
  split; [reflexivity | exact (proj1 (proj2 H'))].
Defined.

(** X19 on the machine of the scenario: the declaration worker gets the
    staged files of the main project, those of the inputs project and the
    file the inputs block wrote. *)
Lemma compiled_mode_run_witness :
  Extra.firstFatalError Examples.env0 = None
  /\ Extra.auxiliaryError Examples.env0
       (Options.outputDirPath
          (GenerateCode.makeOptions Examples.env0 Examples.base0)) = None
  /\ GenerateCode.emitTranspiledCodeOf
       (GenerateCode.makeOptions Examples.env0 Examples.base0) = true
  /\ Sys.saveError Examples.env0 = None
  /\ Sys.typescriptResolveError Examples.env0 = None
  /\ exists jsBatches,
       Sys.spawned
         (snd (GenerateCode.generate Examples.env0 false Examples.base0
                 Sys.emptyWorld))
       = map (pair Sys.jsWorker) jsBatches
           ++ [(Sys.dtsWorker,
                [ "/out/enums/Color.ts";
                  "/out/node_modules/x/enhance.ts";
                  "/out/node_modules/x/helpers.ts";
                  "/out/node_modules/x/index.ts";
                  "/out/node_modules/x/scalars.ts";
                  "/out/resolvers/inputs/index.ts";
                  "/out/resolvers/inputs/PostCreateInput.ts" ])].
Proof.
  split; [reflexivity|]. split; [reflexivity|]. split; [reflexivity|].
  split; [reflexivity|]. split; [reflexivity|].
  destruct (compiled_mode_run Examples.env0 false Examples.base0
              Sys.emptyWorld eq_refl eq_refl eq_refl eq_refl eq_refl)
    as (jsBatches & _ & _ & Hspawned & _).
  exists jsBatches. rewrite Hspawned. reflexivity.
Defined.

(** ** The search for schema files *)

Section SchemaFiles.
Import Eff Extra Cli CliSpec.

(** Induction on a directory tree. *)
Lemma Listing_nested_ind (P : Listing -> Prop) :
  (forall error, P (rejects error)) ->
  (forall entries,
     Forall (fun entry =>
               match entry with
               | fileEntry _ => True
               | directoryEntry _ sub => P sub
               end) entries ->
     P (lists entries)) ->
  forall listing, P listing.
Proof.
  intros Hrejects Hlists.
  refine (fix IH (listing : Listing) : P listing :=
            match listing with
            | rejects error => Hrejects error
            | lists entries =>
                Hlists entries
                  ((fix go (es : list Dirent) : Forall _ es :=
                      match es with
                      | [] => Forall_nil _
                      | entry :: rest =>
                          Forall_cons entry
                            (match entry as e
                                   return match e with
                                          | fileEntry _ => True
                                          | directoryEntry _ sub => P sub
                                          end
                             with
                             | fileEntry _ => I
                             | directoryEntry _ sub => IH sub
                             end)
                            (go rest)
                      end) entries)
            end).
Qed.

Lemma endsWith_app (a b suffix : string) :
  endsWith b suffix = true -> endsWith (a ++ b) suffix = true.
Proof.
  intros H. induction a as [|c a IH]; [exact H|].
  cbn [append endsWith]. rewrite IH. now destruct (String.eqb _ _).
Qed.

Lemma appendSegment_under (dir name : string) :
  String.prefix dir (appendSegment dir name) = true
  /\ (forall suffix, endsWith name suffix = true ->
                     endsWith (appendSegment dir name) suffix = true).
Proof.
  unfold appendSegment. destruct (String.eqb_spec dir "/") as [->|_].
  - split; [apply prefix_app; now eexists|].
    intros suffix H. now apply endsWith_app.
  - split; [apply prefix_app; now eexists|].
    intros suffix H. apply endsWith_app. now apply (endsWith_app "/").
Qed.

Lemma prefix_trans (a b c : string) :
  String.prefix a b = true -> String.prefix b c = true ->
  String.prefix a c = true.
Proof.
  rewrite !prefix_app. intros (t1 & ->) (t2 & ->).
  exists (t1 ++ t2)%string. apply append_assoc.
Qed.

(** [path.join(dir, name)] below a resolved directory. *)
Lemma join_in_directory (dir name : string) :
  isResolved dir -> isOrdinarySegment name = true ->
  Path.join [dir; name] = appendSegment dir name
  /\ isResolved (appendSegment dir name).
Proof.
  intros (segs & Hsegs & ->) Hname.
  pose proof (ordinary_parts name Hname) as (Hne & Hns & _ & _).
  assert (Hall : Forall (fun seg => isOrdinarySegment seg = true) (segs ++ [name])).
  { apply Forall_app. split; [assumption | now constructor]. }
  rewrite <- appendSegment_resolved by assumption.
  split; [|exists (segs ++ [name]); now split].
  unfold Path.join. cbn [filter Path.isEmpty append negb].
  destruct name as [|c name]; [congruence|]. cbn [Path.isEmpty negb].
  set (nm := String c name) in *.
  change (JS.join "/" [String "/" (JS.join "/" segs); nm])
    with (String "/" (JS.join "/" segs ++ "/" ++ nm)).
  unfold Path.normalize. cbn [Path.isEmpty Path.startsWithSlash].
  change (Ascii.eqb "/"%char Path.slash) with true. cbn [negb].
  assert (Hend : Path.endsWithSlash
                   (String "/" (JS.join "/" segs ++ "/" ++ nm)) = false).
  { change (String "/" (JS.join "/" segs ++ "/" ++ nm))
      with (("/" ++ JS.join "/" segs) ++ "/" ++ nm)%string.
    rewrite <- append_assoc, endsWithSlash_app by exact Hne.
    now apply endsWithSlash_noslash. }
  assert (Hnorm : Path.normalizeString
                    (String "/" (JS.join "/" segs ++ "/" ++ nm)) false
                  = JS.join "/" (segs ++ [nm])).
  { unfold Path.normalizeString. f_equal.
    change (String "/" (JS.join "/" segs ++ "/" ++ nm))
      with (("/" ++ JS.join "/" segs) ++ "/" ++ nm)%string.
    rewrite splitSlash_app, fold_left_app, resolved_split by assumption.
    rewrite (splitSlash_noslash nm Hns). cbn [fold_left].
    now apply ordinary_step. }
  rewrite Hend, Hnorm.
  destruct (JS.join "/" (segs ++ [nm])) eqn:E; [|reflexivity].
  exfalso. apply (join_ordinary_nonempty (segs ++ [nm])); auto.
  now destruct segs.
Qed.

Section Loop.
Variable dir : string.
Variable findIn : string -> Listing -> Result (list string).

Lemma entriesLoop_acc (entries : list Dirent) :
  forall files,
    entriesLoop dir findIn entries files
    = match entriesLoop dir findIn entries [] with
      | Ok found => Ok (files ++ found)
      | Throw e => Throw e
      | Hang => Hang
      end.
Proof.
  induction entries as [|entry entries IH]; intros files.
  - simpl. now rewrite app_nil_r.
  - cbn [entriesLoop]. destruct entry as [name|name sub].
    + destruct (endsWith name ".prisma").
      * rewrite IH. rewrite (IH (JS.push [] _)).
        destruct (entriesLoop dir findIn entries []); auto.
        unfold JS.push. now rewrite <- app_assoc.
      * apply IH.
    + destruct (findIn _ sub) as [found|e|]; auto.
      rewrite IH. rewrite (IH ([] ++ found)).
      destruct (entriesLoop dir findIn entries []); auto.
      now rewrite <- app_assoc.
Qed.

End Loop.

(** X21.  The search either lists or throws, and it does not skip what it
    cannot read: when every directory of the tree can be listed it returns
    one path for each file whose name ends in [.prisma], at any depth, a
    directory of such a name being searched and not listed; when some
    directory cannot be listed it throws, and no file found elsewhere is
    returned. *)
Theorem findPrismaFiles_all_or_nothing (listing : Listing) :
  forall dir,
    if readable listing
    then exists files,
           findPrismaFiles dir listing = Ok files
           /\ length files = prismaFileCount listing
    else exists error, findPrismaFiles dir listing = Throw error.
Proof.
  induction listing as [error|entries IH] using Listing_nested_ind; intros dir.
  - cbn. now exists error.
  - cbn [readable findPrismaFiles prismaFileCount].
    induction entries as [|entry entries IHe].
    + cbn. exists []. now split.
    + inversion IH as [|? ? Hentry Hrest]; subst. specialize (IHe Hrest).
      cbn [forallb map list_sum entriesLoop].
      destruct entry as [name|name sub].
      * cbn [andb]. rewrite entriesLoop_acc.
        destruct (forallb _ entries).
        -- destruct IHe as (files & -> & Hlen).
           destruct (endsWith name ".prisma"); eexists; (split; [reflexivity|]);
             unfold JS.push; rewrite ?length_app; simpl; lia.
        -- destruct IHe as (error & ->).
           destruct (endsWith name ".prisma"); now exists error.
      * specialize (Hentry (Path.join [dir; direntName (directoryEntry name sub)])).
        destruct (readable sub).
        -- cbn [andb]. destruct Hentry as (found & -> & Hlen).
           rewrite entriesLoop_acc.
           destruct (forallb _ entries).
           ++ destruct IHe as (files & -> & Hlen').
              eexists. split; [reflexivity|]. rewrite !length_app. simpl. lia.
           ++ destruct IHe as (error & ->). now exists error.
        -- cbn [andb]. destruct Hentry as (error & ->). now exists error.
Qed.

(** X22.  Below a resolved directory, in a tree that can be read and whose
    entries have ordinary names, the search returns the schema files in the
    order of the listings, the files of a directory at the place of the
    directory, each as the directory path followed by the names that lead to
    it; every returned path lies under the directory and ends in
    [.prisma]. *)
Theorem findPrismaFiles_paths (listing : Listing) :
  forall dir,
    isResolved dir ->
    readable listing = true ->
    wellNamed listing = true ->
    findPrismaFiles dir listing = Ok (prismaFilesUnder dir listing)
    /\ Forall (fun path => String.prefix dir path = true
                           /\ endsWith path ".prisma" = true)
         (prismaFilesUnder dir listing).
Proof.
  induction listing as [error|entries IH] using Listing_nested_ind;
    intros dir Hdir Hread Hnamed; [discriminate|].
  cbn [readable wellNamed findPrismaFiles prismaFilesUnder] in *.
  induction entries as [|entry entries IHe].
  - cbn. split; [reflexivity | constructor].
  - inversion IH as [|? ? Hentry Hrest]; subst.
    cbn [forallb] in Hread, Hnamed.
    apply andb_true_iff in Hread as [Hread1 Hread].
    apply andb_true_iff in Hnamed as [Hnamed1 Hnamed].
    destruct (IHe Hrest Hread Hnamed) as (Hrun & Hall).
    cbn [entriesLoop flat_map].
    destruct entry as [name|name sub]; cbn [direntName].
    + destruct (join_in_directory dir name Hdir Hnamed1) as (-> & _).
      destruct (endsWith name ".prisma") eqn:Hext.
      * rewrite entriesLoop_acc, Hrun.
        split; [reflexivity|]. cbn [app]. constructor; [|exact Hall].
        destruct (appendSegment_under dir name) as (Hpre & Hsuf). auto.
      * split; [exact Hrun | exact Hall].
    + apply andb_true_iff in Hnamed1 as [Hname Hsub].
      destruct (join_in_directory dir name Hdir Hname) as (-> & Hres).
      destruct (Hentry (appendSegment dir name) Hres Hread1 Hsub)
        as (-> & Hunder).
      rewrite entriesLoop_acc, Hrun.
      split; [reflexivity|]. apply Forall_app. split; [|exact Hall].
      eapply Forall_impl; [|exact Hunder]. cbv beta. intros path [Hpre Hsuf].
      split; [|exact Hsuf].
      eapply prefix_trans; [|exact Hpre].
      apply appendSegment_under.
Qed.

(** The search on a schema directory with a nested folder, and on the same
    directory when the folder cannot be read. *)
Example findPrismaFiles_run :
  findPrismaFiles "/app/prisma" schemaTree
  = Ok [ "/app/prisma/schema.prisma"; "/app/prisma/models/user.prisma";
         "/app/prisma/old.prisma/post.prisma" ]
  /\ findPrismaFiles "/app/prisma" lockedTree
     = Throw "EACCES: permission denied".
Proof. split; reflexivity. Qed.

End SchemaFiles.

(** X22 on a schema directory with a nested folder. *)
Lemma findPrismaFiles_paths_witness :
  Extra.isResolved "/app/prisma"
  /\ CliSpec.readable CliSpec.schemaTree = true
  /\ CliSpec.wellNamed CliSpec.schemaTree = true
  /\ Cli.findPrismaFiles "/app/prisma" CliSpec.schemaTree
     = Eff.Ok [ "/app/prisma/schema.prisma"; "/app/prisma/models/user.prisma";
                "/app/prisma/old.prisma/post.prisma" ].
Proof.
  assert (H1 : Extra.isResolved "/app/prisma").
  { exists ["app"; "prisma"]. split; [repeat constructor | reflexivity]. }
  split; [exact H1|]. split; [reflexivity|]. split; [reflexivity|].
  exact (proj1 (findPrismaFiles_paths CliSpec.schemaTree "/app/prisma" H1
                  eq_refl eq_refl)).
Defined.

(** X23 on a machine without the compiler. *)
Lemma emission_starts_no_worker_on_failure_witness :
  (Sys.saveError Scenarios.noCompiler = Some "Cannot find module 'typescript'"
   \/ (Sys.saveError Scenarios.noCompiler = None
       /\ Sys.typescriptResolveError Scenarios.noCompiler
          = Some "Cannot find module 'typescript'"))
  /\ exists w',
       GenerateCode.fastEmitTranspiledCode Scenarios.noCompiler false []
         "/out" Examples.stagedWorld
       = (Eff.Throw "Cannot find module 'typescript'", w')
       /\ Sys.spawned w' = [].
Proof.
  assert (H : Sys.saveError Scenarios.noCompiler
              = Some "Cannot find module 'typescript'"
              \/ (Sys.saveError Scenarios.noCompiler = None
                  /\ Sys.typescriptResolveError Scenarios.noCompiler
                     = Some "Cannot find module 'typescript'"))
    by (right; split; reflexivity).
  split; [exact H|].
  destruct (emission_starts_no_worker_on_failure Scenarios.noCompiler false []
              "/out" Examples.stagedWorld "Cannot find module 'typescript'" H)
    as (w' & Hrun & Hspawned & _).
  exists w'. split; [exact Hrun | exact Hspawned].
Defined.

(** X24 on five files cut for the machine of the scenario. *)
Lemma transpile_workers_never_collide_witness :
  let files := ["/out/a.ts"; "/out/b.ts"; "/out/c.ts"; "/out/d.ts"; "/out/e.ts"] in
  Forall (fun p => exists stem, p = (stem ++ ".ts")%string) files
  /\ NoDup files
  /\ GenerateCode.makeBatches 6 files
     = Some [["/out/a.ts"; "/out/b.ts"]; ["/out/c.ts"; "/out/d.ts"]; ["/out/e.ts"]]
  /\ forall j,
       j < 3 ->
       In "/out/c.js"
         (SequentialEmit.workerOutputs
            (nth j [["/out/a.ts"; "/out/b.ts"]; ["/out/c.ts"; "/out/d.ts"];
                    ["/out/e.ts"]] [])) ->
       1 = j.
Proof.
  intros files.
  assert (H1 : Forall (fun p => exists stem, p = (stem ++ ".ts")%string) files).
  { repeat (apply Forall_cons || apply Forall_nil).
    - now exists "/out/a".
    - now exists "/out/b".
    - now exists "/out/c".
    - now exists "/out/d".
    - now exists "/out/e". }
  assert (H2 : NoDup files).
  { repeat (apply NoDup_cons || apply NoDup_nil); simpl; intuition discriminate. }
  split; [exact H1|]. split; [exact H2|]. split; [reflexivity|].
  intros j Hj Hin.
  apply (transpile_workers_never_collide 6 files _ H1 H2 eq_refl 1 j "/out/c.js");
    [simpl; lia | exact Hj | simpl; tauto | exact Hin].
Defined.
